(** * ChordSheetJS: the Song document model and the Ultimate Guitar parser

    A shallow embedding of [src/chord_sheet/song.ts] (class [Song]) and of
    the Ultimate Guitar line classifier (class [UltimateGuitarParser]).

    JavaScript objects that are mutated in place ([Song], [Line]) live in an
    explicit store and are referred to by location; immutable items ([Tag],
    [ChordLyricsPair]) are plain values.  Methods are written in a state and
    error monad over the store, one definition per source method, with the
    source's names. *)

From Stdlib Require Import ZArith String Ascii List Bool Lia.
From stdpp Require Import base tactics option list.
Import ListNotations.

Local Open Scope string_scope.
Local Open Scope nat_scope.
Local Open Scope list_scope.

(** ** JavaScript strings and the regular expressions of the parser *)

(** A JavaScript string is modelled as a Rocq [string]: a sequence of
    character codes below 256; [length] counts them. *)
Module JsString.

Definition chars (s : string) : list ascii := list_ascii_of_string s.
Definition of_chars (l : list ascii) : string := string_of_list_ascii l.

(** [" ".repeat(n)] *)
Fixpoint repeat (s : string) (n : nat) : string :=
  match n with
  | 0 => ""
  | S n' => (s ++ repeat s n')%string
  end.

Fixpoint starts_with (p s : list ascii) : bool :=
  match p, s with
  | [], _ => true
  | a :: p', b :: s' => Ascii.eqb a b && starts_with p' s'
  | _ :: _, [] => false
  end.

(** [s.replace(pat, by)] with a string pattern: only the first occurrence
    of [pat] is replaced.  The replacement strings used by the parser
    contain no [$], so no replacement pattern is expanded. *)
Fixpoint replace_chars (pat by_ s : list ascii) : list ascii :=
  if starts_with pat s then by_ ++ drop (length pat) s
  else match s with
       | [] => []
       | a :: s' => a :: replace_chars pat by_ s'
       end.

Definition replace (s pat by_ : string) : string :=
  of_chars (replace_chars (chars pat) (chars by_) (chars s)).

(** [s.replaceAll(c, "")] for a one-character pattern [c]. *)
Definition removeAll (s : string) (c : ascii) : string :=
  of_chars (List.filter (fun a => negb (Ascii.eqb a c)) (chars s)).

End JsString.

(** A backtracking matcher with the priorities of the ECMAScript one: the
    left alternative first, greedy repetition, and an iteration of a
    repetition that consumes nothing is given up.  [Group] is the capture
    group number 1, the only one the parser reads. *)
Module Regex.

Inductive t : Type :=
| Eps
| Bol                               (* ^ (no multiline input position) *)
| Eol                               (* $ *)
| Chr (p : ascii -> bool)           (* a character class *)
| Seq (r1 r2 : t)
| Alt (r1 r2 : t)
| Star (r : t)
| Group (r : t).

Definition Plus (r : t) : t := Seq r (Star r).
Definition Opt (r : t) : t := Alt r Eps.

Fixpoint seqs (rs : list t) : t :=
  match rs with
  | [] => Eps
  | [r] => r
  | r :: rs' => Seq r (seqs rs')
  end.

Section Matcher.
Context {R : Type}.

Definition cont := nat -> list ascii -> option (list ascii) -> option R.

Fixpoint run (r : t) (n : nat) (s : list ascii) (c : option (list ascii))
         (k : cont) {struct r} : option R :=
  match r with
  | Eps => k n s c
  | Bol => if n =? 0 then k n s c else None
  | Eol => match s with [] => k n s c | _ :: _ => None end
  | Chr p =>
      match s with
      | a :: s' => if p a then k (S n) s' c else None
      | [] => None
      end
  | Seq r1 r2 => run r1 n s c (fun n' s' c' => run r2 n' s' c' k)
  | Alt r1 r2 =>
      match run r1 n s c k with
      | Some x => Some x
      | None => run r2 n s c k
      end
  | Star r1 =>
      (fix loop (fuel : nat) (n : nat) (s : list ascii)
                (c : option (list ascii)) : option R :=
         match fuel with
         | 0 => k n s c
         | S fuel' =>
             match run r1 n s c
                     (fun n' s' c' =>
                        if n <? n' then loop fuel' n' s' c' else None) with
             | Some x => Some x
             | None => k n s c
             end
         end) (length s) n s c
  | Group r1 =>
      run r1 n s c (fun n' s' _ => k n' s' (Some (take (n' - n) s)))
  end.
End Matcher.

(** The result of one successful match: where it starts, the matched
    text and capture group 1. *)
Record result := { index : nat; matched : string; group1 : option string }.

Definition match_at (r : t) (i : nat) (s : list ascii) : option result :=
  run r i s None
      (fun n' _ c =>
         Some {| index := i;
                 matched := JsString.of_chars (take (n' - i) s);
                 group1 := option_map JsString.of_chars c |}).

(** [re.exec(str)] from position [i]: the leftmost match. *)
Fixpoint exec_from (r : t) (i : nat) (s : list ascii) : option result :=
  match match_at r i s with
  | Some m => Some m
  | None =>
      match s with
      | [] => None
      | _ :: s' => exec_from r (S i) s'
      end
  end.

Definition exec (r : t) (str : string) : option result :=
  exec_from r 0 (JsString.chars str).

(** [re.test(str)] for a regular expression without the [g] flag. *)
Definition test (r : t) (str : string) : bool :=
  match exec r str with Some _ => true | None => false end.

(** All the matches of a regular expression with the [g] flag, left to
    right; after a match the search resumes where it ended (one character
    further after an empty match). *)
Fixpoint matches_from (fuel : nat) (r : t) (i : nat) (s : list ascii)
  : list result :=
  match fuel with
  | 0 => []
  | S fuel' =>
      match exec_from r i s with
      | None => []
      | Some m =>
          let stop := index m + String.length (matched m) in
          let next := if String.length (matched m) =? 0 then S stop else stop in
          m :: matches_from fuel' r next (drop (next - i) s)
      end
  end.

Definition matches (r : t) (str : string) : list result :=
  matches_from (S (String.length str)) r 0 (JsString.chars str).

(** [str.match(re)] with the [g] flag: [null] when nothing matches. *)
Definition match_all (r : t) (str : string) : option (list string) :=
  match matches r str with
  | [] => None
  | ms => Some (map matched ms)
  end.

(** [str.replace(re, "")] with the [g] flag: every match is deleted. *)
Fixpoint delete_matches (ms : list result) (i : nat) (s : list ascii)
  : list ascii :=
  match ms with
  | [] => s
  | m :: ms' =>
      let stop := index m + String.length (matched m) in
      take (index m - i) s ++ delete_matches ms' stop (drop (stop - i) s)
  end.

Definition delete_all (r : t) (str : string) : string :=
  JsString.of_chars (delete_matches (matches r str) 0 (JsString.chars str)).

(** Character classes. *)
Definition code (a : ascii) : nat := nat_of_ascii a.
Definition only (c : ascii) : ascii -> bool := fun a => Ascii.eqb a c.
Definition lower (a : ascii) : ascii :=
  if (65 <=? code a) && (code a <=? 90) then ascii_of_nat (code a + 32) else a.
Definition is_ci (c : ascii) : ascii -> bool :=
  fun a => Ascii.eqb (lower a) (lower c).
Definition range (lo hi : ascii) : ascii -> bool :=
  fun a => (code lo <=? code a) && (code a <=? code hi).
Definition one_of (cs : string) : ascii -> bool :=
  fun a => existsb (Ascii.eqb a) (JsString.chars cs).
Definition digit : ascii -> bool := range "0" "9".
(* \s : tab, line feed, vertical tab, form feed, carriage return, space,
   no-break space *)
Definition space : ascii -> bool :=
  fun a => existsb (Nat.eqb (code a)) [9; 10; 11; 12; 13; 32; 160].
(* . : anything but a line terminator *)
Definition dot : ascii -> bool :=
  fun a => negb (existsb (Nat.eqb (code a)) [10; 13]).

Definition lit (s : string) : t := seqs (map (fun c => Chr (only c)) (JsString.chars s)).
Definition lit_ci (s : string) : t :=
  seqs (map (fun c => Chr (is_ci c)) (JsString.chars s)).

End Regex.

(** ** Arrays *)

Module Array.

(** [arr.findIndex(p)]: the index of the first element that satisfies
    [p], or -1. *)
Fixpoint findIndex {A} (p : A -> bool) (l : list A) : Z :=
  match l with
  | [] => (-1)%Z
  | x :: l' =>
      if p x then 0%Z
      else let i := findIndex p l' in
           if (i <? 0)%Z then (-1)%Z else (i + 1)%Z
  end.

(** A relative index of [slice]: counted from the end when negative,
    and clamped to the array. *)
Definition clamp (len : nat) (i : Z) : nat :=
  if (i <? 0)%Z then Z.to_nat (Z.max (Z.of_nat len + i) 0)
  else Nat.min (Z.to_nat i) len.

(** [arr.slice(start, end)]; [end] is the length when it is left out. *)
Definition slice {A} (l : list A) (start : Z) (end_ : option Z) : list A :=
  let k := clamp (length l) start in
  let final := match end_ with
               | Some e => clamp (length l) e
               | None => length l
               end in
  take (final - k) (drop k l).

End Array.

(** ** The data model *)

(** The values a directive or a metadata entry holds: strings, and the
    number [setCapo] is given. *)
Inductive jsval : Type :=
| VStr (s : string)
| VNum (n : Z).

Definition jsval_eqb (a b : jsval) : bool :=
  match a, b with
  | VStr s, VStr t => String.eqb s t
  | VNum n, VNum m => Z.eqb n m
  | _, _ => false
  end.

(** JavaScript truthiness of a possibly absent value. *)
Definition truthy (v : option jsval) : bool :=
  match v with
  | None => false
  | Some (VStr s) => negb (String.eqb s "")
  | Some (VNum n) => negb (Z.eqb n 0)
  end.

(** Modelled from the spec: the constants of [constants.ts] and [tag.ts]
    (both absent from src/).  The section types are the strings of
    [startSection]'s signature in the parser; the directive names are the
    tokens the spec lists (start/end-of-chorus, start/end-of-verse,
    start/end-of-tab, transpose, new-key, capo, key, comment). *)
Definition CHORUS : string := "chorus".
Definition NONE : string := "none".
Definition TAB : string := "tab".
Definition VERSE : string := "verse".

Definition COMMENT : string := "comment".
Definition END_OF_CHORUS : string := "end_of_chorus".
Definition END_OF_TAB : string := "end_of_tab".
Definition END_OF_VERSE : string := "end_of_verse".
Definition START_OF_CHORUS : string := "start_of_chorus".
Definition START_OF_TAB : string := "start_of_tab".
Definition START_OF_VERSE : string := "start_of_verse".
Definition TRANSPOSE : string := "transpose".
Definition NEW_KEY : string := "new_key".
Definition CAPO : string := "capo".
Definition KEY : string := "key".

Module Tag.

(** Modelled from the spec: class [Tag] of [tag.ts] (absent from src/): a
    directive with a [name], the [originalName] as written, a [value]
    (string or empty), and the position [addWarning] reads from it. *)
Record t := mk {
  name : string;
  originalName : string;
  value : jsval;
  line : option nat;
  column : option nat
}.

(** Modelled from the spec: [new Tag(name, value)]; a value that is left
    out is the empty string. *)
Definition new (name : string) (value : option jsval) : t :=
  {| name := name;
     originalName := name;
     value := match value with Some v => v | None => VStr "" end;
     line := None;
     column := None |}.

(** Modelled from the spec: [tag.set({ value })]: tags are immutable and
    changing a tag's value produces a new Tag. *)
Definition set (tag : t) (value : jsval) : t :=
  {| name := name tag;
     originalName := originalName tag;
     value := value;
     line := line tag;
     column := column tag |}.

(** What [tag.ts] decides and src/ does not show: which tags are meta
    tags, and how the text of a directive is parsed into a Tag. *)
Class Methods := {
  isMetaTag : t -> bool;
  parseString : string -> option t
}.

(** Modelled from the spec: [Tag.parse(tagContents)] parses a string and
    accepts a Tag as it is. *)
Definition parse `{Methods} (tagContents : string + t) : option t :=
  match tagContents with
  | inl s => parseString s
  | inr tag => Some tag
  end.

End Tag.

Module ChordLyricsPair.

(** Modelled from the spec: class [ChordLyricsPair] (absent from src/):
    an optional chord text with an optional lyric text. *)
Record t := mk {
  chords : option string;
  lyrics : option string
}.

End ChordLyricsPair.

(** Modelled from the spec: [Item] (of [item.ts], absent from src/) is a
    Tag or a ChordLyricsPair; [item instanceof Tag] and
    [item instanceof ChordLyricsPair] are the two cases. *)
Inductive Item : Type :=
| ITag (tag : Tag.t)
| IPair (pair : ChordLyricsPair.t).

Module Line.

(** Modelled from the spec: class [Line] of [line.ts] (absent from src/):
    the ordered [items], the section [type] and the key context. *)
Record t := mk {
  items : list Item;
  type : string;
  key : option jsval;
  transposeKey : option jsval
}.

(** Modelled from the spec: [new Line()], without items and outside any
    section. *)
Definition new : t :=
  {| items := []; type := NONE; key := None; transposeKey := None |}.

Definition with_items (line : t) (its : list Item) : t :=
  {| items := its; type := type line; key := key line;
     transposeKey := transposeKey line |}.

(** [line.type = sectionType] *)
Definition with_type (line : t) (sectionType : string) : t :=
  {| items := items line; type := sectionType; key := key line;
     transposeKey := transposeKey line |}.

(** [line.transposeKey = tk; line.key = k] *)
Definition with_keys (line : t) (tk k : option jsval) : t :=
  {| items := items line; type := type line; key := k; transposeKey := tk |}.

(** Modelled from the spec: [line.addTag(tag)], [line.addItem(item)] and
    [line.addChordLyricsPair(chords, lyrics)] append to the items. *)
Definition addTag (tag : Tag.t) (line : t) : t :=
  with_items line (items line ++ [ITag tag]).

Definition addItem (item : Item) (line : t) : t :=
  with_items line (items line ++ [item]).

Definition addChordLyricsPair (chords lyrics : option string) (line : t) : t :=
  with_items line
    (items line ++ [IPair {| ChordLyricsPair.chords := chords;
                             ChordLyricsPair.lyrics := lyrics |}]).

(** Modelled from the spec: [line.set({ items })] rebuilds the Line with
    other items. *)
Definition set (line : t) (its : list Item) : t := with_items line its.

(** What [line.ts] decides and src/ does not show: when a Line is empty
    and when it has renderable items. *)
Class Methods := {
  isEmpty : t -> bool;
  hasRenderableItems : t -> bool
}.

End Line.

Module Metadata.

(** Modelled from the spec: class [Metadata] (absent from src/): an
    ordered mapping from a name to its values. *)
Definition t : Type := list (string * list jsval).

(** [new Metadata({})] *)
Definition empty : t := [].

Fixpoint get (name : string) (m : t) : option (list jsval) :=
  match m with
  | [] => None
  | (n, vs) :: m' => if String.eqb n name then Some vs else get name m'
  end.

(** Modelled from the spec: [getSingle(name)] returns the lone value, or
    the first one. *)
Definition getSingle (name : string) (m : t) : option jsval :=
  match get name m with
  | Some (v :: _) => Some v
  | _ => None
  end.

(** Modelled from the spec: [add(name, value)] appends, preserving
    uniqueness and the insertion order of distinct values. *)
Fixpoint add (name : string) (value : jsval) (m : t) : t :=
  match m with
  | [] => [(name, [value])]
  | (n, vs) :: m' =>
      if String.eqb n name
      then (n, if existsb (jsval_eqb value) vs then vs else vs ++ [value]) :: m'
      else (n, vs) :: add name value m'
  end.

Definition remove (name : string) (m : t) : t :=
  List.filter (fun e => negb (String.eqb (fst e) name)) m.

Fixpoint replace (name : string) (value : jsval) (m : t) : t :=
  match m with
  | [] => [(name, [value])]
  | (n, vs) :: m' =>
      if String.eqb n name then (n, [value]) :: remove name m'
      else (n, vs) :: replace name value m'
  end.

(** Modelled from the spec: [set(name, value)] replaces all the values
    for [name]; with [null] the entry is removed. *)
Definition set (name : string) (value : option jsval) (m : t) : t :=
  match value with
  | Some v => replace name v m
  | None => remove name m
  end.

End Metadata.

Module ParserWarning.

(** Modelled from the spec: class [ParserWarning] (absent from src/), the
    value [new ParserWarning(message, line, column)]. *)
Record t := mk {
  message : string;
  line : option nat;
  column : option nat
}.

End ParserWarning.

Module Paragraph.

(** Modelled from the spec: class [Paragraph] (absent from src/): an
    ordered sequence of references to Lines. *)
Record t := mk { lines : list nat }.

Definition new : t := {| lines := [] |}.

(** [paragraph.addLine(line)] *)
Definition addLine (line : nat) (p : t) : t := {| lines := lines p ++ [line] |}.

End Paragraph.

(** ** The state and error monad of the methods *)

(** What a method throws: a [TypeError] (a property of [null] is read or
    written), an [Error] raised by a [throw] statement of the source, or
    the use of a reference that the store does not hold (which no
    JavaScript execution reaches). *)
Inductive error : Type :=
| TypeError (msg : string)
| Error (msg : string)
| InvalidReference.

Inductive result (A : Type) : Type :=
| Ok (a : A)
| Err (e : error).
Arguments Ok {A} a.
Arguments Err {A} e.

Definition M (S A : Type) : Type := S -> result (A * S).

Definition ret {S A} (a : A) : M S A := fun h => Ok (a, h).

Definition bind {S A B} (m : M S A) (f : A -> M S B) : M S B :=
  fun h =>
    match m h with
    | Ok (a, h') => f a h'
    | Err e => Err e
    end.

Definition throw {S A} (e : error) : M S A := fun _ => Err e.

#[global] Instance M_ret {S} : MRet (M S) := fun A a => ret a.
#[global] Instance M_bind {S} : MBind (M S) := fun A B f m => bind m f.

(** [arr.forEach(f)] with an accumulator for the variables [f] assigns. *)
Fixpoint foldM {S A B} (f : B -> A -> M S B) (b : B) (l : list A) : M S B :=
  match l with
  | [] => mret b
  | x :: l' => b' ← f b x; foldM f b' l'
  end.

Fixpoint mapM {S A B} (f : A -> M S B) (l : list A) : M S (list B) :=
  match l with
  | [] => mret []
  | x :: l' => y ← f x; ys ← mapM f l'; mret (y :: ys)
  end.

(** ** Class Song *)

Module Song.

(** The fields of a Song; [lines] and [currentLine] hold references to
    Line objects. *)
Record t := mk {
  lines : list nat;
  metadata : Metadata.t;
  currentLine : option nat;
  warnings : list ParserWarning.t;
  sectionType : string;
  currentKey : option jsval;
  transposeKey : option jsval
}.

(** [new Song(metadata)] *)
Definition new (metadata : Metadata.t) : t :=
  {| lines := []; metadata := metadata; currentLine := None; warnings := [];
     sectionType := NONE; currentKey := None; transposeKey := None |}.

Definition with_lines (s : t) (ls : list nat) : t :=
  {| lines := ls; metadata := metadata s; currentLine := currentLine s;
     warnings := warnings s; sectionType := sectionType s;
     currentKey := currentKey s; transposeKey := transposeKey s |}.

Definition with_metadata (s : t) (m : Metadata.t) : t :=
  {| lines := lines s; metadata := m; currentLine := currentLine s;
     warnings := warnings s; sectionType := sectionType s;
     currentKey := currentKey s; transposeKey := transposeKey s |}.

Definition with_currentLine (s : t) (l : option nat) : t :=
  {| lines := lines s; metadata := metadata s; currentLine := l;
     warnings := warnings s; sectionType := sectionType s;
     currentKey := currentKey s; transposeKey := transposeKey s |}.

Definition with_warnings (s : t) (ws : list ParserWarning.t) : t :=
  {| lines := lines s; metadata := metadata s; currentLine := currentLine s;
     warnings := ws; sectionType := sectionType s;
     currentKey := currentKey s; transposeKey := transposeKey s |}.

Definition with_sectionType (s : t) (st : string) : t :=
  {| lines := lines s; metadata := metadata s; currentLine := currentLine s;
     warnings := warnings s; sectionType := st;
     currentKey := currentKey s; transposeKey := transposeKey s |}.

Definition with_currentKey (s : t) (k : option jsval) : t :=
  {| lines := lines s; metadata := metadata s; currentLine := currentLine s;
     warnings := warnings s; sectionType := sectionType s;
     currentKey := k; transposeKey := transposeKey s |}.

Definition with_transposeKey (s : t) (k : option jsval) : t :=
  {| lines := lines s; metadata := metadata s; currentLine := currentLine s;
     warnings := warnings s; sectionType := sectionType s;
     currentKey := currentKey s; transposeKey := k |}.

(** The store: the Song objects and the Line objects allocated so far; a
    reference is an index, and [new] appends. *)
Record heap := Heap {
  songs : list t;
  lineobjs : list Line.t
}.

Definition getSong (this : nat) : M heap t :=
  fun h => match songs h !! this with
           | Some s => Ok (s, h)
           | None => Err InvalidReference
           end.

Definition putSong (this : nat) (s : t) : M heap unit :=
  fun h => Ok (tt, {| songs := <[this := s]> (songs h); lineobjs := lineobjs h |}).

Definition newSong (metadata : Metadata.t) : M heap nat :=
  fun h => Ok (length (songs h),
               {| songs := songs h ++ [new metadata]; lineobjs := lineobjs h |}).

Definition getLine (l : nat) : M heap Line.t :=
  fun h => match lineobjs h !! l with
           | Some line => Ok (line, h)
           | None => Err InvalidReference
           end.

Definition putLine (l : nat) (line : Line.t) : M heap unit :=
  fun h => Ok (tt, {| songs := songs h; lineobjs := <[l := line]> (lineobjs h) |}).

Definition newLine (line : Line.t) : M heap nat :=
  fun h => Ok (length (lineobjs h),
               {| songs := songs h; lineobjs := lineobjs h ++ [line] |}).

(** What the superclass [MetadataAccessors] provides and src/ does not
    show: the accessor [key] that [setKey] reads. *)
Class MetadataAccessors := {
  key : heap -> nat -> option jsval
}.

(** The music-theory collaborator: [Key.distance(from, to)] and
    [pair.transpose(offset, key)]. *)
Class MusicTheory := {
  distance : option jsval -> string -> Z;
  transpose : ChordLyricsPair.t -> Z -> string -> ChordLyricsPair.t
}.

Section Methods.
Context `{Tag.Methods} `{Line.Methods} `{MetadataAccessors} `{MusicTheory}.

(** [get previousLine()] *)
Definition previousLine (this : nat) : M heap (option nat) :=
  s ← getSong this;
  let count := length (lines s) in
  if 2 <=? count then mret (lines s !! (count - 2)) else mret None.

(** [setCurrentLineType(sectionType)]: [this.currentLine.type = sectionType] *)
Definition setCurrentLineType (sectionType : string) (this : nat) : M heap unit :=
  s ← getSong this;
  match currentLine s with
  | None => throw (TypeError "Cannot set properties of null (setting 'type')")
  | Some l =>
      line ← getLine l;
      putLine l (Line.with_type line sectionType)
  end.

(** Modelled from the spec: [pushNew(this.lines, Line)] of [utilities.ts]
    (absent from src/); [addLine] "appends a new Line": a new Line is
    appended to [this.lines] and returned. *)
Definition pushNew (this : nat) : M heap nat :=
  l ← newLine Line.new;
  s ← getSong this;
  putSong this (with_lines s (lines s ++ [l]));;
  mret l.

(** [addLine(line?)] *)
Definition addLine (line : option nat) (this : nat) : M heap nat :=
  l ← match line with
      | Some l => mret l
      | None => pushNew this
      end;
  s ← getSong this;
  putSong this (with_currentLine s (Some l));;
  setCurrentLineType (sectionType s) this;;
  s ← getSong this;
  currentLine ← getLine l;
  putLine l (Line.with_keys currentLine
               (match transposeKey s with
                | Some k => Some k
                | None => currentKey s
                end)
               (if truthy (currentKey s) then currentKey s
                else Metadata.getSingle KEY (metadata s)));;
  mret l.

(** [ensureLine()] *)
Definition ensureLine (this : nat) : M heap unit :=
  s ← getSong this;
  match currentLine s with
  | None => addLine None this;; mret tt
  | Some _ => mret tt
  end.

(** [setMetadata(name, value)] *)
Definition setMetadata (name : string) (value : jsval) (this : nat) : M heap unit :=
  s ← getSong this;
  putSong this (with_metadata s (Metadata.add name value (metadata s))).

(** [addWarning(message, { line, column })] *)
Definition addWarning (message : string) (tag : Tag.t) (this : nat) : M heap unit :=
  let warning := {| ParserWarning.message := message;
                    ParserWarning.line := Tag.line tag;
                    ParserWarning.column := Tag.column tag |} in
  s ← getSong this;
  putSong this (with_warnings s (warnings s ++ [warning])).

(** [checkCurrentSectionType(sectionType, tag)] *)
Definition checkCurrentSectionType (sectionType : string) (tag : Tag.t)
           (this : nat) : M heap unit :=
  s ← getSong this;
  if negb (String.eqb (Song.sectionType s) sectionType)
  then addWarning ("Unexpected tag {" ++ Tag.originalName tag
                     ++ ", current section is: " ++ Song.sectionType s)%string
                  tag this
  else mret tt.

(** [startSection(sectionType, tag)] *)
Definition startSection (sectionType : string) (tag : Tag.t) (this : nat)
  : M heap unit :=
  checkCurrentSectionType NONE tag this;;
  s ← getSong this;
  putSong this (with_sectionType s sectionType);;
  setCurrentLineType sectionType this.

(** [endSection(sectionType, tag)] *)
Definition endSection (sectionType : string) (tag : Tag.t) (this : nat)
  : M heap unit :=
  checkCurrentSectionType sectionType tag this;;
  s ← getSong this;
  putSong this (with_sectionType s NONE).

(** [setSectionTypeFromTag(tag)] *)
Definition setSectionTypeFromTag (tag : Tag.t) (this : nat) : M heap unit :=
  let name := Tag.name tag in
  if String.eqb name START_OF_CHORUS then startSection CHORUS tag this
  else if String.eqb name END_OF_CHORUS then endSection CHORUS tag this
  else if String.eqb name START_OF_TAB then startSection TAB tag this
  else if String.eqb name END_OF_TAB then endSection TAB tag this
  else if String.eqb name START_OF_VERSE then startSection VERSE tag this
  else if String.eqb name END_OF_VERSE then endSection VERSE tag this
  else mret tt.

(** [this.currentLine.m(...)] for a method [m] of Line that changes the
    Line in place. *)
Definition onCurrentLine (m : Line.t -> Line.t) (this : nat) : M heap unit :=
  s ← getSong this;
  match currentLine s with
  | None => throw (TypeError "Cannot read properties of null")
  | Some l =>
      line ← getLine l;
      putLine l (m line)
  end.

(** [addTag(tagContents)] *)
Definition addTag (tagContents : string + Tag.t) (this : nat) : M heap Tag.t :=
  match Tag.parse tagContents with
  | None => throw (TypeError "Cannot read properties of null (reading 'isMetaTag')")
  | Some tag =>
      (if Tag.isMetaTag tag then
         setMetadata (Tag.name tag) (Tag.value tag) this
       else if String.eqb (Tag.name tag) TRANSPOSE then
         s ← getSong this;
         putSong this (with_transposeKey s (Some (Tag.value tag)))
       else if String.eqb (Tag.name tag) NEW_KEY then
         s ← getSong this;
         putSong this (with_currentKey s (Some (Tag.value tag)))
       else
         setSectionTypeFromTag tag this);;
      ensureLine this;;
      onCurrentLine (Line.addTag tag) this;;
      mret tag
  end.

(** [addItem(item)] *)
Definition addItem (item : Item) (this : nat) : M heap unit :=
  match item with
  | ITag tag => addTag (inr tag) this;; mret tt
  | IPair _ =>
      ensureLine this;;
      onCurrentLine (Line.addItem item) this
  end.

(** [mapItems(func)].  The callback may assign variables of the method
    that calls [mapItems] (the flag [found] of [updateItem]): they are
    its state [St]. *)
Definition MapItemsCallback (St : Type) : Type := Item -> St -> option Item * St.

Definition mapItems {St} (func : MapItemsCallback St) (st : St) (this : nat)
  : M heap (nat * St) :=
  clonedSong ← newSong Metadata.empty;
  s ← getSong this;
  st' ← foldM (fun st line =>
                 addLine None clonedSong;;
                 l ← getLine line;
                 foldM (fun st item =>
                          let (changedItem, st') := func item st in
                          match changedItem with
                          | Some changed => addItem changed clonedSong;; mret st'
                          | None => mret st'
                          end)
                       st (Line.items l))
              st (lines s);
  mret (clonedSong, st').

(** [clone()] *)
Definition clone (this : nat) : M heap nat :=
  r ← mapItems (fun item (st : unit) => (Some item, st)) tt this;
  mret (fst r).

(** [mapLines(func)]; the callback reads the Line it is given and
    returns a Line, of which [mapLines] reads the items. *)
Definition MapLinesCallback : Type := Line.t -> option Line.t.

Definition mapLines (func : MapLinesCallback) (this : nat) : M heap nat :=
  clonedSong ← newSong Metadata.empty;
  s ← getSong this;
  foldM (fun (_ : unit) line =>
           l ← getLine line;
           match func l with
           | Some changedLine =>
               addLine None clonedSong;;
               foldM (fun (_ : unit) item => addItem item clonedSong)
                     tt (Line.items changedLine)
           | None => mret tt
           end)
        tt (lines s);;
  mret clonedSong.

(** [updateItem(findCallback, updateCallback, notFoundCallback)] *)
Definition updateItem (findCallback : Item -> bool)
           (updateCallback : Item -> option Item)
           (notFoundCallback : nat -> M heap nat) (this : nat) : M heap nat :=
  '(updatedSong, found) ←
    mapItems (fun item (found : bool) =>
                if findCallback item then (updateCallback item, true)
                else (Some item, found))
             false this;
  if negb found then notFoundCallback updatedSong
  else mret updatedSong.

(** [removeItem(callback)] *)
Definition removeItem (callback : Item -> bool) (this : nat) : M heap nat :=
  mapLines (fun line =>
              let items := Line.items line in
              let index := Array.findIndex callback items in
              if (index =? -1)%Z then Some line
              else if length items =? 1 then None
              else Some (Line.set line
                           (Array.slice items 0 (Some index)
                            ++ Array.slice items (index + 1) None)))
           this.

(** [insertDirective(name, value, { after })] *)
Definition insertDirective (name : string) (value : option jsval)
           (after : option string) (this : nat) : M heap nat :=
  s ← getSong this;
  ls ← mapM getLine (lines s);
  let insertIndex :=
    Array.findIndex
      (fun line =>
         existsb (fun item =>
                    match item with
                    | IPair _ => true
                    | ITag tag =>
                        match after with
                        | Some a => negb (String.eqb a "")
                                    && String.eqb (Tag.name tag) a
                        | None => false
                        end
                    end)
                 (Line.items line))
      ls in
  newLine ← newLine (Line.addTag (Tag.new name value) Line.new);
  clonedSong ← clone this;
  c ← getSong clonedSong;
  putSong clonedSong
    (with_lines c (Array.slice (lines c) 0 (Some insertIndex)
                   ++ [newLine]
                   ++ Array.slice (lines c) insertIndex None));;
  mret clonedSong.

Definition isCapo (item : Item) : bool :=
  match item with
  | ITag tag => String.eqb (Tag.name tag) CAPO
  | IPair _ => false
  end.

(** [updatedSong.metadata.set(name, value)] *)
Definition metadata_set (name : string) (value : option jsval) (this : nat)
  : M heap unit :=
  s ← getSong this;
  putSong this (with_metadata s (Metadata.set name value (metadata s))).

(** [setCapo(capo)] *)
Definition setCapo (capo : option jsval) (this : nat) : M heap nat :=
  updatedSong ← match capo with
                | None => removeItem isCapo this
                | Some c =>
                    updateItem isCapo
                      (fun item =>
                         match item with
                         | ITag tag => Some (ITag (Tag.set tag c))
                         | IPair _ => Some item
                         end)
                      (fun song => insertDirective CAPO capo None song)
                      this
                end;
  metadata_set "capo" capo updatedSong;;
  mret updatedSong.


(** [get paragraphs()]; [currentParagraph] is the last element of
    [paragraphs] throughout. *)
Definition addToLast (line : nat) (paragraphs : list Paragraph.t)
  : list Paragraph.t :=
  match reverse paragraphs with
  | [] => []
  | currentParagraph :: before =>
      reverse before ++ [Paragraph.addLine line currentParagraph]
  end.

Definition paragraphs (this : nat) : M heap (list Paragraph.t) :=
  s ← getSong this;
  foldM (fun paragraphs line =>
           l ← getLine line;
           if Line.isEmpty l then mret (paragraphs ++ [Paragraph.new])
           else if Line.hasRenderableItems l then mret (addToLast line paragraphs)
           else mret paragraphs)
        [Paragraph.new] (lines s).

End Methods.

(** *** The body of a Song, and writing to the current Line *)

(** The properties [_bodyLines] and [_bodyParagraphs] are not fields of
    the class: [selectRenderableItems] creates them on the Song the first
    time it is called.  They are kept beside the store, per Song; a Song
    without an entry has both [undefined] ([None]). *)
Record expando := Expando {
  _bodyLines : option (list nat);
  _bodyParagraphs : option (list Paragraph.t)
}.

Record xheap := XHeap {
  store : heap;
  expandos : list (nat * expando)
}.

Fixpoint expandoOf (this : nat) (es : list (nat * expando)) : expando :=
  match es with
  | [] => {| _bodyLines := None; _bodyParagraphs := None |}
  | (r, e) :: es' => if r =? this then e else expandoOf this es'
  end.

(** A method of Song, run beside the expandos, which it does not read. *)
Definition lift {A} (m : M heap A) : M xheap A :=
  fun w => match m (store w) with
           | Ok (a, h') => Ok (a, {| store := h'; expandos := expandos w |})
           | Err e => Err e
           end.

(** The name of a property that holds an array: how [this[name]] is read
    and written. *)
Record property (A : Type) := Property {
  read : expando -> option (list A);
  write : list A -> expando -> expando
}.
Arguments read {A} _ _.
Arguments write {A} _ _ _.

Definition bodyLinesProp : property nat :=
  {| read := _bodyLines;
     write := fun v e => {| _bodyLines := Some v;
                            _bodyParagraphs := _bodyParagraphs e |} |}.

Definition bodyParagraphsProp : property Paragraph.t :=
  {| read := _bodyParagraphs;
     write := fun v e => {| _bodyLines := _bodyLines e;
                            _bodyParagraphs := Some v |} |}.

(** [this[targetProp]] *)
Definition getProp {A} (targetProp : property A) (this : nat)
  : M xheap (option (list A)) :=
  fun w => Ok (read targetProp (expandoOf this (expandos w)), w).

(** [this[targetProp] = v] *)
Definition setProp {A} (targetProp : property A) (this : nat) (v : list A)
  : M xheap unit :=
  fun w =>
    Ok (tt, {| store := store w;
               expandos :=
                 (this, write targetProp v (expandoOf this (expandos w)))
                 :: List.filter (fun re => negb (fst re =? this)) (expandos w) |}).

(** What [paragraph.ts] and [line.ts] provide and src/ does not show:
    [paragraph.hasRenderableItems()], which may read the Lines of the
    Paragraph, and the writers [line.chords(chr)] and [line.lyrics(chr)]. *)
Class ParagraphMethods := {
  Paragraph_hasRenderableItems : heap -> Paragraph.t -> bool
}.

Class LineWriter := {
  Line_chords : string -> Line.t -> Line.t;
  Line_lyrics : string -> Line.t -> Line.t
}.

Section Body.
Context `{Tag.Methods} `{Line.Methods} `{ParagraphMethods} `{LineWriter}.

(** The loop of [selectRenderableItems]:
    [while (collection.length > 0 && !collection[0].hasRenderableItems())
       this[targetProp].shift()],
    where [collection] is the array [this[targetProp]]. *)
Fixpoint shiftLeading {A} (targetProp : property A)
         (hasRenderableItems : A -> M heap bool) (this : nat)
         (collection : list A) : M xheap unit :=
  match collection with
  | [] => mret tt
  | first :: rest =>
      renderable ← lift (hasRenderableItems first);
      if (renderable : bool) then mret tt
      else setProp targetProp this rest;;
           shiftLeading targetProp hasRenderableItems this rest
  end.

(** [selectRenderableItems(targetProp, sourceProp)]; [sourceProp] is given
    as the reading of [this[sourceProp]], and [hasRenderableItems] is the
    method of the elements of that array.  The result is [this[targetProp]]. *)
Definition selectRenderableItems {A} (targetProp : property A)
           (sourceProp : nat -> M heap (list A))
           (hasRenderableItems : A -> M heap bool) (this : nat)
  : M xheap (option (list A)) :=
  target ← getProp targetProp this;
  match target with
  | None =>
      source ← lift (sourceProp this);
      setProp targetProp this source;;
      shiftLeading targetProp hasRenderableItems this source
  | Some _ => mret tt
  end;;
  getProp targetProp this.

(** [get bodyLines()] *)
Definition bodyLines (this : nat) : M xheap (option (list nat)) :=
  selectRenderableItems bodyLinesProp
    (fun this => s ← getSong this; mret (lines s))
    (fun l => line ← getLine l; mret (Line.hasRenderableItems line))
    this.

(** [get bodyParagraphs()] *)
Definition bodyParagraphs (this : nat) : M xheap (option (list Paragraph.t)) :=
  selectRenderableItems bodyParagraphsProp
    paragraphs
    (fun p h => Ok (Paragraph_hasRenderableItems h p, h))
    this.

(** [chords(chr)] *)
Definition chords (chr : string) (this : nat) : M heap unit :=
  onCurrentLine (Line_chords chr) this.

(** [lyrics(chr)] *)
Definition lyrics (chr : string) (this : nat) : M heap unit :=
  ensureLine this;;
  onCurrentLine (Line_lyrics chr) this.

End Body.
End Song.

(** ** Class UltimateGuitarParser *)

Module UltimateGuitarParser.
Import Regex.

(** VERSE_LINE_REGEX, flag i:  ^ \[ ( Verse .* ) ]  *)
Definition VERSE_LINE_REGEX : Regex.t :=
  seqs [Bol; lit "["; Group (Seq (lit_ci "Verse") (Star (Chr dot))); lit "]"].

(** CHORUS_LINE_REGEX, flag i:  ^ \[ ( Chorus ) ]  *)
Definition CHORUS_LINE_REGEX : Regex.t :=
  seqs [Bol; lit "["; Group (lit_ci "Chorus"); lit "]"].

(** OTHER_METADATA_LINE_REGEX:  ^ \[ ( [^\]]+ ) ]  *)
Definition OTHER_METADATA_LINE_REGEX : Regex.t :=
  seqs [Bol; lit "["; Group (Plus (Chr (fun a => negb (only "]" a)))); lit "]"].

(** The character class [[A-G|Do|Re|Mi|Fa|Sol|La|Si]]. *)
Definition note : ascii -> bool :=
  fun a => range "A" "G" a || one_of "|Do|Re|Mi|Fa|Sol|La|Si" a.

(** ( # | b ) *)
Definition accidental : Regex.t := Alt (lit "#") (lit "b").

(** ( \s | $ ) *)
Definition space_or_end : Regex.t := Alt (Chr space) Eol.

(** CHORD_LINE_REGEX:
    ^ \s* ( ( (NOTE) (#|b)? ( [^/\s]* ) ( \/ (NOTE) (#|b)? )? ) (\s|$)+ )+ (\s|$)+
    where NOTE is the class above. *)
Definition CHORD_LINE_REGEX : Regex.t :=
  seqs [Bol; Star (Chr space);
        Plus (seqs [seqs [Chr note; Opt accidental;
                          Star (Chr (fun a => negb (only "/" a || space a)));
                          Opt (seqs [lit "/"; Chr note; Opt accidental])];
                    Plus space_or_end]);
        Plus space_or_end].

(** REPETITION_REGEX, flags g and m:  ( [0-9]+ x :* ) | ( x [0-9]+ :* )  *)
Definition REPETITION_REGEX : Regex.t :=
  Alt (seqs [Plus (Chr digit); lit "x"; Star (lit ":")])
      (seqs [lit "x"; Plus (Chr digit); Star (lit ":")]).

(** The tables [startSectionTags] and [endSectionTags]; [k in table] is
    [is_Some (table k)]. *)
Definition startSectionTags (k : string) : option string :=
  if String.eqb k VERSE then Some START_OF_VERSE
  else if String.eqb k CHORUS then Some START_OF_CHORUS
  else if String.eqb k TAB then Some START_OF_TAB
  else None.

Definition endSectionTags (k : string) : option string :=
  if String.eqb k VERSE then Some END_OF_VERSE
  else if String.eqb k CHORUS then Some END_OF_CHORUS
  else if String.eqb k TAB then Some END_OF_TAB
  else None.

(** The fields of the parser: [song], [songLine] (of the base class) and
    [currentSectionType]. *)
Record t := mk {
  song : nat;
  songLine : option nat;
  currentSectionType : option string
}.

Definition with_songLine (p : t) (l : option nat) : t :=
  {| song := song p; songLine := l; currentSectionType := currentSectionType p |}.

Definition with_currentSectionType (p : t) (st : option string) : t :=
  {| song := song p; songLine := songLine p; currentSectionType := st |}.

(** What the parser calls and src/ does not show: [parseLine] and
    [endOfSong] of the base class [ChordSheetParser], and the method
    [setCurrentProperties] of the parser's Song.  [None] stands for an
    exception of theirs. *)
Class Environment := {
  super_parseLine : string -> t -> Song.heap -> option (t * Song.heap);
  super_endOfSong : t -> Song.heap -> option (t * Song.heap);
  setCurrentProperties : string -> nat -> Song.heap -> option Song.heap
}.

Definition external {A} (what : string) (f : Song.heap -> option (A * Song.heap))
  : M Song.heap A :=
  fun h => match f h with
           | Some r => Ok r
           | None => Err (TypeError what)
           end.

Section Methods.
Context `{Tag.Methods} `{Line.Methods} `{Environment}.

Definition song_setCurrentProperties (sectionType : string) (p : t)
  : M Song.heap unit :=
  external "setCurrentProperties"
           (fun h => option_map (fun h' => (tt, h'))
                                (setCurrentProperties sectionType (song p) h)).

(** [startNewLine()] *)
Definition startNewLine (p : t) : M Song.heap t :=
  l ← Song.addLine None (song p);
  mret (with_songLine p (Some l)).

(** [endSection({ addNewLine })] *)
Definition endSection (addNewLine : bool) (p : t) : M Song.heap t :=
  p ← match currentSectionType p with
      | Some st =>
          match endSectionTags st with
          | Some name =>
              Song.addTag (inr (Tag.new name None)) (song p);;
              if addNewLine then startNewLine p else mret p
          | None => mret p
          end
      | None => mret p
      end;
  song_setCurrentProperties NONE p;;
  mret (with_currentSectionType p None).

(** [startSection(sectionType, label)] *)
Definition startSection (sectionType : string) (label : string) (p : t)
  : M Song.heap t :=
  p ← (if truthy (option_map VStr (currentSectionType p))
       then endSection true p else mret p);
  let p := with_currentSectionType p (Some sectionType) in
  song_setCurrentProperties sectionType p;;
  match startSectionTags sectionType with
  | Some name =>
      Song.addTag (inr (Tag.new name (Some (VStr label)))) (song p);;
      mret p
  | None => mret p
  end.

(** [isSectionEnd()] *)
Definition isSectionEnd (p : t) : M Song.heap bool :=
  match songLine p with
  | None => mret false
  | Some l =>
      line ← Song.getLine l;
      if Line.isEmpty line then
        previousLine ← Song.previousLine (song p);
        match previousLine with
        | None => mret false
        | Some pl =>
            previous ← Song.getLine pl;
            mret (negb (Line.isEmpty previous))
        end
      else mret false
  end.

(** [if (!this.songLine) throw new Error(...)] followed by a call of a
    method of Line on [this.songLine]. *)
Definition onSongLine (m : Line.t -> Line.t) (p : t) : M Song.heap unit :=
  match songLine p with
  | None => throw (Error "Expected this.songLine to be present")
  | Some l =>
      line ← Song.getLine l;
      Song.putLine l (m line)
  end.

(** [line.match(re)[1]] for a regular expression without the [g] flag. *)
Definition match1 (r : Regex.t) (line : string) : M Song.heap string :=
  match Regex.exec r line with
  | Some m =>
      match group1 m with
      | Some g => mret g
      | None => throw (TypeError "undefined capture group")
      end
  | None => throw (TypeError "Cannot read properties of null (reading '1')")
  end.

(** [parseMetadataLine(line)] *)
Definition parseMetadataLine (line : string) (p : t) : M Song.heap t :=
  p ← startNewLine p;
  p ← endSection true p;
  comment ← match1 OTHER_METADATA_LINE_REGEX line;
  onSongLine (Line.addTag (Tag.new COMMENT (Some (VStr comment)))) p;;
  mret p.

(** [writeTabLine(line)] *)
Definition writeTabLine (line : string) (p : t) : M Song.heap t :=
  p ← startNewLine p;
  p ← (if negb (match currentSectionType p with
                  | Some st => String.eqb st TAB
                  | None => false
                  end)
       then p ← startNewLine p; startSection TAB "" p
       else mret p);
  onSongLine (Line.addChordLyricsPair None (Some line)) p;;
  mret p.

(** The branch of [parseLine] for a chord line that starts or ends with
    a repetition marker. *)
Definition parseRepetitionLine (line : string) (p : t) : M Song.heap t :=
  match Regex.match_all REPETITION_REGEX line with
  | Some (rep0 :: _) =>
      let chords_only :=
        JsString.replace line rep0 (JsString.repeat " " (String.length rep0)) in
      p ← startNewLine p;
      onSongLine
        (Line.addChordLyricsPair
           (Some chords_only)
           (Some (JsString.repeat " " (String.length chords_only)
                  ++ JsString.replace rep0 ":" "")%string))
        p;;
      mret p
  | _ => throw (TypeError "Cannot read properties of null (reading '0')")
  end.

(** [parseLine(line)] *)
Definition parseLine (line : string) (p : t) : M Song.heap t :=
  sectionEnd ← isSectionEnd p;
  p ← (if (sectionEnd : bool) then endSection true p else mret p);
  if Regex.test VERSE_LINE_REGEX line then
    p ← startNewLine p;
    label ← match1 VERSE_LINE_REGEX line;
    startSection VERSE label p
  else if Regex.test CHORUS_LINE_REGEX line then
    p ← startNewLine p;
    label ← match1 CHORUS_LINE_REGEX line;
    startSection CHORUS label p
  else if Regex.test OTHER_METADATA_LINE_REGEX line then
    parseMetadataLine line p
  else if (8 <? String.length line)
          && (5 <? String.length line
                   - String.length (JsString.removeAll line "-")) then
    writeTabLine line p
  else if Regex.test CHORD_LINE_REGEX (Regex.delete_all REPETITION_REGEX line)
          && (match Regex.match_all REPETITION_REGEX line with
              | Some rep_only => 0 <? length rep_only
              | None => false
              end) then
    parseRepetitionLine line p
  else
    external "super.parseLine" (super_parseLine line p).

(** [endOfSong()] *)
Definition endOfSong (p : t) : M Song.heap t :=
  p ← external "super.endOfSong" (super_endOfSong p);
  p ← match currentSectionType p with
      | Some st =>
          match endSectionTags st with
          | Some _ => startNewLine p
          | None => mret p
          end
      | None => mret p
      end;
  endSection false p.

End Methods.
End UltimateGuitarParser.

(** ** Views of the store used in the statements *)

Module View.
Import Song.

(** The Lines of the Song at [this], in order, and their items; [None]
    when a reference is not in the store. *)
Fixpoint all_lines (h : heap) (ls : list nat) : option (list Line.t) :=
  match ls with
  | [] => Some []
  | l :: ls' =>
      match lineobjs h !! l, all_lines h ls' with
      | Some line, Some rest => Some (line :: rest)
      | _, _ => None
      end
  end.

Definition song_lines (h : heap) (this : nat) : option (list Line.t) :=
  match songs h !! this with
  | Some s => all_lines h (lines s)
  | None => None
  end.

Definition song_items (h : heap) (this : nat) : option (list (list Item)) :=
  option_map (map Line.items) (song_lines h this).

(** Every object of [h] is in [h'], unchanged: [h'] only has more
    objects. *)
Definition extends (h h' : heap) : Prop :=
  songs h `prefix_of` songs h' /\ lineobjs h `prefix_of` lineobjs h'.

(** The Line a Song creates in [addLine]: stamped with the section type
    and the key context of the Song. *)
Definition stamped (s : Song.t) : Line.t :=
  Line.with_keys (Line.with_type Line.new (sectionType s))
    (match transposeKey s with Some k => Some k | None => currentKey s end)
    (if truthy (currentKey s) then currentKey s
     else Metadata.getSingle KEY (metadata s)).

(** What [mapItems] keeps of the items of one Line, and the callback's
    state afterwards. *)
Fixpoint replay_line {St} (func : Item -> St -> option Item * St)
         (items : list Item) (st : St) : list Item * St :=
  match items with
  | [] => ([], st)
  | item :: items' =>
      let (changed, st1) := func item st in
      let (kept, st2) := replay_line func items' st1 in
      (match changed with Some c => c :: kept | None => kept end, st2)
  end.

Fixpoint replay {St} (func : Item -> St -> option Item * St)
         (ll : list (list Item)) (st : St) : list (list Item) * St :=
  match ll with
  | [] => ([], st)
  | items :: ll' =>
      let (kept, st1) := replay_line func items st in
      let (rest, st2) := replay func ll' st1 in
      (kept :: rest, st2)
  end.


(** What [mapLines] keeps: the items of the Lines the callback returns. *)
Fixpoint replay_lines (func : Line.t -> option Line.t) (ls : list Line.t)
  : list (list Item) :=
  match ls with
  | [] => []
  | l :: ls' =>
      match func l with
      | Some changed => Line.items changed :: replay_lines func ls'
      | None => replay_lines func ls'
      end
  end.

(** The state of a Song under construction by [mapItems] or [mapLines],
    started in the store [h0]: the Song [c] is the one object added to the
    Songs of [h0], its Lines are the Line objects added to those of [h0],
    in order, they hold the items [ll], and the last one is the current
    Line. *)
Definition building (h0 h : heap) (c : nat) (ll : list (list Item)) : Prop :=
  exists sc lns,
    songs h = songs h0 ++ [sc] /\
    c = length (songs h0) /\
    lineobjs h = lineobjs h0 ++ lns /\
    map Line.items lns = ll /\
    lines sc = seq (length (lineobjs h0)) (length ll) /\
    currentLine sc = match ll with
                     | [] => None
                     | _ :: _ => Some (length (lineobjs h0) + length ll - 1)
                     end.

(** The Song after [checkCurrentSectionType], [startSection] and
    [endSection] (its fields only). *)
Definition mismatch (s : Song.t) (tag : Tag.t) : ParserWarning.t :=
  {| ParserWarning.message :=
       ("Unexpected tag {" ++ Tag.originalName tag
          ++ ", current section is: " ++ sectionType s)%string;
     ParserWarning.line := Tag.line tag;
     ParserWarning.column := Tag.column tag |}.

Definition checked (s : Song.t) (sectionType : string) (tag : Tag.t) : Song.t :=
  if negb (String.eqb (Song.sectionType s) sectionType)
  then with_warnings s (warnings s ++ [mismatch s tag])
  else s.

Definition started (s : Song.t) (sectionType : string) (tag : Tag.t) : Song.t :=
  with_sectionType (checked s NONE tag) sectionType.

Definition ended (s : Song.t) (sectionType : string) (tag : Tag.t) : Song.t :=
  with_sectionType (checked s sectionType tag) NONE.

(** Following the spec: the Lines are partitioned, in order, into groups;
    a new group starts at every empty Line, which joins neither group, and
    a Line without renderable items is left out of its group. *)
Fixpoint groups `{Line.Methods} (ls : list (nat * Line.t)) : list (list nat) :=
  match ls with
  | [] => [[]]
  | (l, line) :: rest =>
      if Line.isEmpty line then [] :: groups rest
      else match groups rest with
           | g :: gs => (if Line.hasRenderableItems line then l :: g else g) :: gs
           | [] => []
           end
  end.

(** One turn of the loop of [paragraphs], on the Line at [l]. *)
Definition paragraph_step `{Line.Methods} (paragraphs : list Paragraph.t)
           (l : nat * Line.t) : list Paragraph.t :=
  if Line.isEmpty (snd l) then paragraphs ++ [Paragraph.new]
  else if Line.hasRenderableItems (snd l) then addToLast (fst l) paragraphs
  else paragraphs.

(** The directives that start and end a section, with the section type,
    as [setSectionTypeFromTag] pairs them. *)
Definition section_tags : list (string * string * string) :=
  [(START_OF_CHORUS, END_OF_CHORUS, CHORUS);
   (START_OF_TAB, END_OF_TAB, TAB);
   (START_OF_VERSE, END_OF_VERSE, VERSE)].

(** The result is the exception of the parser's
    [throw new Error("Expected this.songLine to be present")]. *)
Definition raises_songLine_missing {A} (r : result A) : bool :=
  match r with
  | Err (Error msg) => String.eqb msg "Expected this.songLine to be present"
  | _ => false
  end.

(** The number of dash characters of a line. *)
Definition dashes (line : string) : nat :=
  length (List.filter (fun a => Ascii.eqb a "-") (JsString.chars line)).

(** The store in which the Song at [this] and the Line at [l] have been
    assigned. *)
Definition touch (h : heap) (this l : nat) (s' : Song.t) (line' : Line.t) : heap :=
  {| songs := <[this := s']> (songs h); lineobjs := <[l := line']> (lineobjs h) |}.

(** The parts of the methods that the lemmas name: the dispatch of
    [addTag], the bodies of the loops of [mapItems] and [mapLines], and the
    callback of [removeItem] in [setCapo]. *)
Section Parts.
Context `{Tag.Methods}.

(** The first step of [addTag]: the tag is dispatched on its kind. *)
Definition dispatch (tag : Tag.t) (this : nat) : M heap unit :=
  if Tag.isMetaTag tag then
    setMetadata (Tag.name tag) (Tag.value tag) this
  else if String.eqb (Tag.name tag) TRANSPOSE then
    s ← getSong this;
    putSong this (with_transposeKey s (Some (Tag.value tag)))
  else if String.eqb (Tag.name tag) NEW_KEY then
    s ← getSong this;
    putSong this (with_currentKey s (Some (Tag.value tag)))
  else
    setSectionTypeFromTag tag this.

(** What [addItem] does to the metadata: a meta tag is added to it. *)
Definition meta_step (m : Metadata.t) (item : Item) : Metadata.t :=
  match item with
  | ITag tag =>
      if Tag.isMetaTag tag then Metadata.add (Tag.name tag) (Tag.value tag) m
      else m
  | IPair _ => m
  end.

(** The metadata that replaying the items builds, from none. *)
Definition meta_of (ll : list (list Item)) : Metadata.t :=
  fold_left meta_step (concat ll) Metadata.empty.

(** The bodies of the loops of [mapItems]. *)
Definition itemStep {St} (func : MapItemsCallback St) (c : nat)
  : St -> Item -> M heap St :=
  fun st item =>
    let (changedItem, st') := func item st in
    match changedItem with
    | Some changed => addItem changed c;; mret st'
    | None => mret st'
    end.

Definition lineStep {St} (func : MapItemsCallback St) (c : nat)
  : St -> nat -> M heap St :=
  fun st line =>
    addLine None c;;
    l ← getLine line;
    foldM (itemStep func c) st (Line.items l).

(** The body of the loop of [mapLines]. *)
Definition lineStepL (func : MapLinesCallback) (c : nat) : unit -> nat -> M heap unit :=
  fun _ line =>
    l ← getLine line;
    match func l with
    | Some changedLine =>
        addLine None c;;
        foldM (fun (_ : unit) item => addItem item c) tt (Line.items changedLine)
    | None => mret tt
    end.

End Parts.

(** The metadata of the Song at [this]. *)
Definition meta_at (h : heap) (this : nat) : option Metadata.t :=
  option_map metadata (songs h !! this).

(** The list without its first element that satisfies [p]. *)
Fixpoint remove_first {A} (p : A -> bool) (l : list A) : list A :=
  match l with
  | [] => []
  | x :: l' => if p x then l' else x :: remove_first p l'
  end.

(** No item of the lines is a capo tag. *)
Definition no_capo (ll : list (list Item)) : bool :=
  forallb (forallb (fun item => negb (isCapo item))) ll.

(** The callback of [removeItem] for the capo tags. *)
Definition uncapo (line : Line.t) : option Line.t :=
  let items := Line.items line in
  let index := Array.findIndex isCapo items in
  if (index =? -1)%Z then Some line
  else if length items =? 1 then None
  else Some (Line.set line
               (Array.slice items 0 (Some index)
                ++ Array.slice items (index + 1) None)).

(** [m] does not raise the exception of the check of [songLine], and what
    it returns satisfies [Q]. *)
Definition safe {A} (Q : A -> Prop) (m : M Song.heap A) : Prop :=
  forall h, match m h with
            | Ok (a, _) => Q a
            | Err e => View.raises_songLine_missing (Err e : result (A * Song.heap)) = false
            end.

(** The callback that [removeItem(callback)] gives to [mapLines]. *)
Definition remover (callback : Item -> bool) (line : Line.t) : option Line.t :=
  let items := Line.items line in
  let index := Array.findIndex callback items in
  if (index =? -1)%Z then Some line
  else if length items =? 1 then None
  else Some (Line.set line
               (Array.slice items 0 (Some index)
                ++ Array.slice items (index + 1) None)).

(** What [removeItem(callback)] keeps of the items of a Line: all of them
    when none satisfies [callback]; nothing, not even the Line, when the
    Line has one item and it does; otherwise all but the first that does. *)
Definition excise (callback : Item -> bool) (items : list Item)
  : option (list Item) :=
  if forallb (fun item => negb (callback item)) items then Some items
  else if length items =? 1 then None
  else Some (remove_first callback items).

(** What the callbacks of [setCapo(capo)] make of an item. *)
Definition recapo (capo : jsval) (item : Item) : Item :=
  match item with
  | ITag tag => if String.eqb (Tag.name tag) CAPO then ITag (Tag.set tag capo)
                else item
  | IPair _ => item
  end.

(** The Lines that [insertDirective] looks for: those that hold an item
    which is not a Tag, or the Tag named [after]. *)
Definition anchors (after : option string) (line : Line.t) : bool :=
  existsb (fun item =>
             match item with
             | IPair _ => true
             | ITag tag =>
                 match after with
                 | Some a => negb (String.eqb a "") && String.eqb (Tag.name tag) a
                 | None => false
                 end
             end)
          (Line.items line).

(** The position of the first element that satisfies [p]. *)
Fixpoint first_index {A} (p : A -> bool) (l : list A) : option nat :=
  match l with
  | [] => None
  | x :: l' => if p x then Some 0 else option_map S (first_index p l')
  end.

(** A callback of [mapItems] that assigns no variable, and two of them
    one after the other. *)
Definition stateless (f : Item -> option Item) : MapItemsCallback unit :=
  fun item st => (f item, st).

Definition and_then (f g : Item -> option Item) : Item -> option Item :=
  fun item => match f item with Some changed => g changed | None => None end.

(** The Lines of [ls], by position, that have renderable items. *)
Definition renderable_at `{Line.Methods} (h : heap) (l : nat) : bool :=
  match lineobjs h !! l with
  | Some line => Line.hasRenderableItems line
  | None => false
  end.

End View.

(** ** Views of the parser *)

Module ParserView.
Import Song UltimateGuitarParser.

(** What is assumed of [setCurrentProperties(sectionType)], which src/ does
    not show: on a Song that has a current Line it returns, and it changes
    at most the fields of that Line other than its items. *)
Definition stamps_current_line `{Environment} : Prop :=
  forall sectionType this h s l line,
    songs h !! this = Some s -> currentLine s = Some l ->
    lineobjs h !! l = Some line ->
    exists line',
      setCurrentProperties sectionType this h = Some (View.touch h this l s line') /\
      Line.items line' = Line.items line.

(** The references of the parser and of its Song are in the store, and the
    Song has a current Line when the parser has one. *)
Definition ready (h : heap) (p : UltimateGuitarParser.t) : bool :=
  match songs h !! song p with
  | None => false
  | Some s =>
      forallb (fun l => l <? length (lineobjs h)) (lines s)
      && match currentLine s with
         | Some l => l <? length (lineobjs h)
         | None => true
         end
      && match songLine p with
         | Some l =>
             (l <? length (lineobjs h))
             && match currentLine s with Some _ => true | None => false end
         | None => true
         end
  end.

(** The parser is on a Line without items: [songLine] is the current Line
    of the Song, and it is empty. *)
Definition on_fresh_line (h : heap) (p : UltimateGuitarParser.t) : Prop :=
  exists s l line,
    songs h !! song p = Some s /\ songLine p = Some l /\
    currentLine s = Some l /\ lineobjs h !! l = Some line /\
    Line.items line = [].

(** The TAB section is open in the parser. *)
Definition tab_open (p : UltimateGuitarParser.t) : bool :=
  match currentSectionType p with
  | Some st => String.eqb st TAB
  | None => false
  end.

(** [ready], as a proposition. *)
Definition well_formed (h : heap) (p : UltimateGuitarParser.t) : Prop :=
  exists s,
    songs h !! song p = Some s /\
    (forall l, l ∈ lines s -> l < length (lineobjs h)) /\
    (forall l, currentLine s = Some l -> l < length (lineobjs h)) /\
    (forall l, songLine p = Some l ->
               l < length (lineobjs h) /\ is_Some (currentLine s)).

(** The line is handled by one of the branches that [parseLine] of this
    class defines: it is not left to the base class. *)
Definition own_branch (line : string) : bool :=
  Regex.test VERSE_LINE_REGEX line
  || Regex.test CHORUS_LINE_REGEX line
  || Regex.test OTHER_METADATA_LINE_REGEX line
  || ((8 <? String.length line)
      && (5 <? String.length line
               - String.length (JsString.removeAll line "-")))
  || (Regex.test CHORD_LINE_REGEX (Regex.delete_all REPETITION_REGEX line)
      && match Regex.match_all REPETITION_REGEX line with
         | Some rep_only => 0 <? length rep_only
         | None => false
         end).

(** What is assumed of [isMetaTag], which src/ does not show: the six
    section directives are not meta tags. *)
Definition section_tags_plain `{Tag.Methods} : Prop :=
  forall name value,
    In name [START_OF_VERSE; END_OF_VERSE; START_OF_CHORUS; END_OF_CHORUS;
             START_OF_TAB; END_OF_TAB] ->
    Tag.isMetaTag (Tag.new name value) = false.

(** The parser and its Song are in step: the store is [ready], the
    warnings of the Song are [ws], and its section type is the section that
    is open in the parser, one of verse, chorus and tab, or NONE when none
    is open. *)
Definition tracks (ws : list ParserWarning.t) (h : heap)
           (p : UltimateGuitarParser.t) : Prop :=
  ready h p = true /\
  exists s,
    songs h !! song p = Some s /\
    warnings s = ws /\
    match currentSectionType p with
    | Some T => is_Some (endSectionTags T) /\ sectionType s = T
    | None => sectionType s = NONE
    end.

End ParserView.

(** ** An instance of what src/ does not show, and sample stores

    The statements below hold for every instance of the classes; the
    instance here serves to run the methods on concrete Songs. *)

Module Sample.

Definition tagMethods : Tag.Methods :=
  {| Tag.isMetaTag := fun tag =>
       existsb (String.eqb (Tag.name tag)) ["title"; "artist"; KEY; CAPO];
     Tag.parseString := fun _ => None |}.

Definition lineMethods : Line.Methods :=
  {| Line.isEmpty := fun line =>
       match Line.items line with [] => true | _ :: _ => false end;
     Line.hasRenderableItems := fun line =>
       existsb (fun item =>
                  match item with
                  | IPair _ => true
                  | ITag tag => String.eqb (Tag.name tag) COMMENT
                  end)
               (Line.items line) |}.

Definition accessors : Song.MetadataAccessors :=
  {| Song.key := fun h this =>
       match Song.songs h !! this with
       | Some s => Metadata.getSingle KEY (Song.metadata s)
       | None => None
       end |}.

Definition music : Song.MusicTheory :=
  {| Song.distance := fun _ _ => 2%Z;
     Song.transpose := fun p _ key =>
       {| ChordLyricsPair.chords :=
            option_map (fun c => (c ++ ">" ++ key)%string)
                       (ChordLyricsPair.chords p);
          ChordLyricsPair.lyrics := ChordLyricsPair.lyrics p |} |}.

(** [setCurrentProperties(sectionType)] as [setCurrentLineType]. *)
Definition stamp (sectionType : string) (this : nat) (h : Song.heap)
  : option Song.heap :=
  match Song.setCurrentLineType sectionType this h with
  | Ok (_, h') => Some h'
  | Err _ => None
  end.

Definition env : UltimateGuitarParser.Environment :=
  {| UltimateGuitarParser.super_parseLine := fun _ _ _ => None;
     UltimateGuitarParser.super_endOfSong := fun p h => Some (p, h);
     UltimateGuitarParser.setCurrentProperties := stamp |}.

(** A store with one Song that holds the given lines of items and the
    given metadata. *)
Definition store (ll : list (list Item)) (metadata : Metadata.t) : Song.heap :=
  {| Song.songs := [Song.with_lines (Song.new metadata) (seq 0 (length ll))];
     Song.lineobjs := map (Line.with_items Line.new) ll |}.

Definition capo (v : string) : Item := ITag (Tag.new CAPO (Some (VStr v))).
Definition key_tag (v : string) : Item := ITag (Tag.new KEY (Some (VStr v))).
Definition comment (v : string) : Item := ITag (Tag.new COMMENT (Some (VStr v))).
Definition pair (chords lyrics : string) : Item :=
  IPair {| ChordLyricsPair.chords := Some chords;
           ChordLyricsPair.lyrics := Some lyrics |}.

Definition song1 : Song.heap :=
  store [[capo "1"; pair "Am" "la"]; []; [key_tag "C"; pair "G" "li"]]
        [("title", [VStr "x"])].

Definition four_lines : Song.heap :=
  store [[pair "A" "x"]; []; [pair "B" "y"]; [pair "C" "z"]] [].

Definition titled : Song.heap :=
  store [[pair "Am" "la"]] [("title", [VStr "x"])].

Definition two_capos : Song.heap := store [[capo "1"; capo "2"]] [].
Definition one_capo : Song.heap := store [[capo "1"]] [].

(** A callback of [mapItems] that drops the tags. *)
Definition drop_tags : Song.MapItemsCallback unit :=
  fun item st => (match item with ITag _ => None | IPair _ => Some item end, st).

(** The store of a new parser: a new Song and no Line. *)
Definition fresh : Song.heap := store [] [].

(** A parser after a verse line: on its second Line, in a verse. *)
Definition in_verse : UltimateGuitarParser.t :=
  {| UltimateGuitarParser.song := 0;
     UltimateGuitarParser.songLine := Some 1;
     UltimateGuitarParser.currentSectionType := Some VERSE |}.

Definition verse_store : Song.heap :=
  {| Song.songs :=
       [Song.with_sectionType
          (Song.with_currentLine (Song.with_lines (Song.new []) [0; 1]) (Some 1))
          VERSE];
     Song.lineobjs :=
       [Line.with_items Line.new [pair "Am" "la"]; Line.with_items Line.new []] |}.

(** A new parser: [song = new Song()], no line, no section. *)
Definition parser : UltimateGuitarParser.t :=
  {| UltimateGuitarParser.song := 0;
     UltimateGuitarParser.songLine := None;
     UltimateGuitarParser.currentSectionType := None |}.

(** A Paragraph has renderable items when one of its Lines has, and the
    writers of a Line append a pair that holds the text. *)
Definition paragraphMethods : Song.ParagraphMethods :=
  {| Song.Paragraph_hasRenderableItems := fun h p =>
       existsb (View.renderable_at (H := lineMethods) h) (Paragraph.lines p) |}.

Definition writer : Song.LineWriter :=
  {| Song.Line_chords := fun chr => Line.addChordLyricsPair (Some chr) None;
     Song.Line_lyrics := fun chr => Line.addChordLyricsPair None (Some chr) |}.

(** A store beside which no body has been read yet. *)
Definition unread (h : Song.heap) : Song.xheap :=
  {| Song.store := h; Song.expandos := [] |}.

(** A Song that starts with two Lines of directives. *)
Definition headed : Song.heap :=
  store [[key_tag "C"]; [capo "1"]; [pair "Am" "la"]; []; [pair "G" "li"]] [].

(** A Song on its only Line, outside any section. *)
Definition on_line : Song.heap :=
  {| Song.songs :=
       [Song.with_currentLine (Song.with_lines (Song.new []) [0]) (Some 0)];
     Song.lineobjs := [Line.new] |}.

(** A new Song, and a Line that is not one of its Lines. *)
Definition spare : Song.heap :=
  {| Song.songs := [Song.new []]; Song.lineobjs := [Line.new] |}.

(** Callbacks of [mapItems] and [mapLines]: the tags are dropped, every
    item is kept, the Lines without items are dropped. *)
Definition only_pairs (item : Item) : option Item :=
  match item with ITag _ => None | IPair _ => Some item end.

Definition keep (item : Item) : option Item := Some item.

Definition drop_blank_lines : Song.MapLinesCallback :=
  fun line => match Line.items line with [] => None | _ :: _ => Some line end.

End Sample.

(** ** The monad and the store *)

Section Store.
Import Song.

Lemma run_bind {S A B} (m : M S A) (f : A -> M S B) (h h' : S) (a : A) :
  m h = Ok (a, h') -> (m ≫= f) h = f a h'.
Proof. intros E. unfold mbind, M_bind, bind. now rewrite E. Qed.

Lemma run_bind_err {S A B} (m : M S A) (f : A -> M S B) (h : S) (e : error) :
  m h = Err e -> (m ≫= f) h = Err e.
Proof. intros E. unfold mbind, M_bind, bind. now rewrite E. Qed.

Lemma run_ret {S A} (a : A) (h : S) : (mret a : M S A) h = Ok (a, h).
Proof. reflexivity. Qed.

Lemma bind_inv {S A B} (m : M S A) (f : A -> M S B) (h h' : S) (b : B) :
  (m ≫= f) h = Ok (b, h') ->
  exists a h1, m h = Ok (a, h1) /\ f a h1 = Ok (b, h').
Proof.
  unfold mbind, M_bind, bind. destruct (m h) as [[a h1]|e]; [|discriminate].
  intros E. now exists a, h1.
Qed.

Lemma getSong_run h this s :
  songs h !! this = Some s -> getSong this h = Ok (s, h).
Proof. intros E. unfold getSong. now rewrite E. Qed.

Lemma getLine_run h l ln :
  lineobjs h !! l = Some ln -> getLine l h = Ok (ln, h).
Proof. intros E. unfold getLine. now rewrite E. Qed.

Lemma getSong_inv h this s h' :
  getSong this h = Ok (s, h') -> songs h !! this = Some s /\ h' = h.
Proof.
  unfold getSong. destruct (songs h !! this); [|discriminate].
  intros E. now inversion E.
Qed.

Lemma getLine_inv h l ln h' :
  getLine l h = Ok (ln, h') -> lineobjs h !! l = Some ln /\ h' = h.
Proof.
  unfold getLine. destruct (lineobjs h !! l); [|discriminate].
  intros E. now inversion E.
Qed.

Lemma extends_refl h : View.extends h h.
Proof. split; reflexivity. Qed.

Lemma extends_trans h1 h2 h3 :
  View.extends h1 h2 -> View.extends h2 h3 -> View.extends h1 h3.
Proof. intros [A B] [C D]. split; etrans; eauto. Qed.

Lemma extends_lookup_song h h' this s :
  View.extends h h' -> songs h !! this = Some s -> songs h' !! this = Some s.
Proof. intros [[k ->] _] E. now apply lookup_app_l_Some. Qed.

Lemma extends_lookup_line h h' l ln :
  View.extends h h' -> lineobjs h !! l = Some ln -> lineobjs h' !! l = Some ln.
Proof. intros [_ [k ->]] E. now apply lookup_app_l_Some. Qed.

Lemma building_extends h0 h c ll : View.building h0 h c ll -> View.extends h0 h.
Proof.
  intros (sc & lns & E1 & _ & E2 & _). split; [rewrite E1 | rewrite E2];
    now apply prefix_app_r.
Qed.

End Store.

(** ** The methods of Song, run on a store *)

Ltac mexec :=
  unfold mbind, M_bind, bind, mret, M_ret, ret, throw,
    Song.getSong, Song.putSong, Song.getLine, Song.putLine,
    Song.newLine, Song.newSong; simpl.

Ltac lk :=
  repeat first
    [ rewrite list_lookup_insert_eq
        by (rewrite ?length_insert, ?length_app; simpl; lia)
    | rewrite list_insert_insert_eq
    | rewrite lookup_app_r by lia
    | progress simpl ].

Section SongRuns.
Context `{Tag.Methods} `{Line.Methods}.
Import Song.

Lemma insert_snoc {A} (l : list A) (x y : A) :
  <[length l := x]> (l ++ [y]) = l ++ [x].
Proof. rewrite insert_app_r_alt by lia. now rewrite Nat.sub_diag. Qed.

Lemma lookup_snoc {A} (l : list A) (x : A) : (l ++ [x]) !! length l = Some x.
Proof. rewrite lookup_app_r by lia. now rewrite Nat.sub_diag. Qed.

Lemma touch_id h this l s line :
  songs h !! this = Some s -> lineobjs h !! l = Some line ->
  View.touch h this l s line = h.
Proof.
  intros E1 E2. unfold View.touch. destruct h as [ss ls]; simpl in *.
  now rewrite !list_insert_id.
Qed.

Lemma addLine_run h this s :
  songs h !! this = Some s ->
  addLine None this h =
    Ok (length (lineobjs h),
        {| songs :=
             <[this := with_currentLine
                         (with_lines s (lines s ++ [length (lineobjs h)]))
                         (Some (length (lineobjs h)))]> (songs h);
           lineobjs := lineobjs h ++ [View.stamped s] |}).
Proof.
  intros E. pose proof (lookup_lt_Some _ _ _ E) as Hlt.
  destruct h as [ss ls]; simpl in *.
  unfold addLine, pushNew, setCurrentLineType. mexec.
  rewrite E. lk. rewrite Nat.sub_diag. lk.
  do 3 f_equal. apply insert_snoc.
Qed.

Lemma checkCurrentSectionType_run h this s sectionType tag :
  songs h !! this = Some s ->
  checkCurrentSectionType sectionType tag this h =
    Ok (tt, {| songs := <[this := View.checked s sectionType tag]> (songs h);
               lineobjs := lineobjs h |}).
Proof.
  intros E. destruct h as [ss ls]; simpl in *.
  unfold checkCurrentSectionType, addWarning, View.checked. mexec. rewrite E.
  destruct (negb (String.eqb (Song.sectionType s) sectionType)); mexec.
  - now rewrite E.
  - now rewrite list_insert_id.
Qed.

Lemma endSection_run h this s sectionType tag :
  songs h !! this = Some s ->
  endSection sectionType tag this h =
    Ok (tt, {| songs := <[this := View.ended s sectionType tag]> (songs h);
               lineobjs := lineobjs h |}).
Proof.
  intros E. pose proof (lookup_lt_Some _ _ _ E) as Hlt.
  unfold endSection.
  erewrite run_bind by (eapply checkCurrentSectionType_run; eassumption).
  destruct h as [ss ls]; simpl in *. mexec. now lk.
Qed.

Lemma startSection_run h this s l line sectionType tag :
  songs h !! this = Some s -> currentLine s = Some l ->
  lineobjs h !! l = Some line ->
  startSection sectionType tag this h =
    Ok (tt, View.touch h this l (View.started s sectionType tag)
              (Line.with_type line sectionType)).
Proof.
  intros E Hc El. pose proof (lookup_lt_Some _ _ _ E) as Hlt.
  unfold startSection.
  erewrite run_bind by (eapply checkCurrentSectionType_run; eassumption).
  destruct h as [ss ls]; simpl in *. unfold setCurrentLineType. mexec. lk.
  assert (currentLine (View.checked s NONE tag) = Some l) as ->.
  { unfold View.checked. now destruct (negb _). }
  simpl. now rewrite El.
Qed.

Lemma startSection_null h this s sectionType tag :
  songs h !! this = Some s -> currentLine s = None ->
  exists msg, startSection sectionType tag this h = Err (TypeError msg).
Proof.
  intros E Hc. pose proof (lookup_lt_Some _ _ _ E) as Hlt.
  unfold startSection.
  erewrite run_bind by (eapply checkCurrentSectionType_run; eassumption).
  destruct h as [ss ls]; simpl in *. unfold setCurrentLineType. mexec. lk.
  assert (currentLine (View.checked s NONE tag) = None) as ->.
  { unfold View.checked. now destruct (negb _). }
  eauto.
Qed.

Lemma checked_fields s sectionType tag :
  lines (View.checked s sectionType tag) = lines s /\
  currentLine (View.checked s sectionType tag) = currentLine s /\
  metadata (View.checked s sectionType tag) = metadata s.
Proof. unfold View.checked. now destruct (negb _). Qed.

Lemma addTag_unfold tag this :
  addTag (inr tag) this =
    (View.dispatch tag this;; ensureLine this;;
     onCurrentLine (Line.addTag tag) this;; mret tag).
Proof. reflexivity. Qed.

Lemma setSectionTypeFromTag_cur h this s l line tag :
  songs h !! this = Some s -> currentLine s = Some l ->
  lineobjs h !! l = Some line ->
  exists s1 line1,
    setSectionTypeFromTag tag this h = Ok (tt, View.touch h this l s1 line1) /\
    lines s1 = lines s /\ currentLine s1 = Some l /\
    Line.items line1 = Line.items line /\ metadata s1 = metadata s.
Proof.
  intros E Hc El. unfold setSectionTypeFromTag.
  pose proof (checked_fields s NONE tag) as (C1 & C2 & C3).
  assert (forall T, exists s1 line1,
             startSection T tag this h = Ok (tt, View.touch h this l s1 line1) /\
             lines s1 = lines s /\ currentLine s1 = Some l /\
             Line.items line1 = Line.items line /\ metadata s1 = metadata s)
    as Hstart.
  { intros T. eexists _, _. split; [eapply startSection_run; eassumption|].
    unfold View.started; simpl. now rewrite C1, C2, C3. }
  assert (forall T, exists s1 line1,
             endSection T tag this h = Ok (tt, View.touch h this l s1 line1) /\
             lines s1 = lines s /\ currentLine s1 = Some l /\
             Line.items line1 = Line.items line /\ metadata s1 = metadata s)
    as Hend.
  { intros T. exists (View.ended s T tag), line. split.
    - erewrite endSection_run by eassumption. unfold View.touch.
      now rewrite (list_insert_id _ _ _ El).
    - pose proof (checked_fields s T tag) as (D1 & D2 & D3).
      unfold View.ended; simpl. now rewrite D1, D2, D3. }
  repeat (match goal with |- context [if ?b then _ else _] => destruct b end;
          [solve [apply Hstart | apply Hend]|]).
  exists s, line. split; [|easy].
  rewrite run_ret. now rewrite touch_id.
Qed.

Lemma dispatch_cur h this s l line tag :
  songs h !! this = Some s -> currentLine s = Some l ->
  lineobjs h !! l = Some line ->
  exists s1 line1,
    View.dispatch tag this h = Ok (tt, View.touch h this l s1 line1) /\
    lines s1 = lines s /\ currentLine s1 = Some l /\
    Line.items line1 = Line.items line /\
    metadata s1 = View.meta_step (metadata s) (ITag tag).
Proof.
  intros E Hc El. unfold View.dispatch, View.meta_step.
  assert (forall s1 m, lines s1 = lines s -> currentLine s1 = Some l ->
             metadata s1 = m ->
             exists s2 line1,
               (putSong this s1 h : result (unit * heap))
               = Ok (tt, View.touch h this l s2 line1) /\
               lines s2 = lines s /\ currentLine s2 = Some l /\
               Line.items line1 = Line.items line /\ metadata s2 = m) as Hput.
  { intros s1 m A B C. exists s1, line. split; [|easy].
    unfold putSong, View.touch. now rewrite (list_insert_id _ _ _ El). }
  destruct (Tag.isMetaTag tag).
  { unfold setMetadata. erewrite run_bind by (apply getSong_run; eassumption).
    now apply Hput. }
  destruct (String.eqb (Tag.name tag) TRANSPOSE).
  { erewrite run_bind by (apply getSong_run; eassumption). now apply Hput. }
  destruct (String.eqb (Tag.name tag) NEW_KEY).
  { erewrite run_bind by (apply getSong_run; eassumption). now apply Hput. }
  eapply setSectionTypeFromTag_cur; eassumption.
Qed.

Lemma touch_song h this l s1 line1 s :
  songs h !! this = Some s -> songs (View.touch h this l s1 line1) !! this = Some s1.
Proof. intros E. simpl. apply list_lookup_insert_eq. eapply lookup_lt_Some; eassumption. Qed.

Lemma touch_line h this l s1 line1 line :
  lineobjs h !! l = Some line ->
  lineobjs (View.touch h this l s1 line1) !! l = Some line1.
Proof. intros E. simpl. apply list_lookup_insert_eq. eapply lookup_lt_Some; eassumption. Qed.

Lemma touch_touch h this l s1 line1 s2 line2 :
  View.touch (View.touch h this l s1 line1) this l s2 line2
  = View.touch h this l s2 line2.
Proof. unfold View.touch; simpl. now rewrite !list_insert_insert_eq. Qed.

Lemma onCurrentLine_run h this s l line m :
  songs h !! this = Some s -> currentLine s = Some l ->
  lineobjs h !! l = Some line ->
  onCurrentLine m this h = Ok (tt, View.touch h this l s (m line)).
Proof.
  intros E Hc El. unfold onCurrentLine.
  erewrite run_bind by (apply getSong_run; eassumption). rewrite Hc.
  erewrite run_bind by (apply getLine_run; eassumption).
  unfold putLine, View.touch. now rewrite (list_insert_id _ _ _ E).
Qed.

Lemma ensureLine_cur h this s l :
  songs h !! this = Some s -> currentLine s = Some l ->
  ensureLine this h = Ok (tt, h).
Proof.
  intros E Hc. unfold ensureLine.
  erewrite run_bind by (apply getSong_run; eassumption). now rewrite Hc.
Qed.

(** [addTag] and [addItem] on a Song that has a current Line: the Song
    keeps its Lines and its current Line, which gets the item. *)
Lemma addTag_cur_meta h this s l line tag :
  songs h !! this = Some s -> currentLine s = Some l ->
  lineobjs h !! l = Some line ->
  exists s1 line1,
    addTag (inr tag) this h = Ok (tag, View.touch h this l s1 line1) /\
    lines s1 = lines s /\ currentLine s1 = Some l /\
    Line.items line1 = Line.items line ++ [ITag tag] /\
    metadata s1 = View.meta_step (metadata s) (ITag tag).
Proof.
  intros E Hc El. rewrite addTag_unfold.
  destruct (dispatch_cur h this s l line tag E Hc El)
    as (s1 & line1 & D & A & B & C & Md).
  exists s1, (Line.addTag tag line1).
  erewrite run_bind by exact D.
  erewrite run_bind
    by (eapply ensureLine_cur; [eapply touch_song; eassumption | exact B]).
  erewrite run_bind
    by (eapply onCurrentLine_run;
        [eapply touch_song; eassumption | exact B | eapply touch_line; eassumption]).
  rewrite touch_touch, run_ret. repeat split; try easy.
  simpl. now rewrite C.
Qed.

Lemma addTag_cur h this s l line tag :
  songs h !! this = Some s -> currentLine s = Some l ->
  lineobjs h !! l = Some line ->
  exists s1 line1,
    addTag (inr tag) this h = Ok (tag, View.touch h this l s1 line1) /\
    lines s1 = lines s /\ currentLine s1 = Some l /\
    Line.items line1 = Line.items line ++ [ITag tag].
Proof.
  intros E Hc El.
  destruct (addTag_cur_meta h this s l line tag E Hc El)
    as (s1 & line1 & R & A & B & C & _).
  now exists s1, line1.
Qed.

Lemma addItem_cur_meta h this s l line item :
  songs h !! this = Some s -> currentLine s = Some l ->
  lineobjs h !! l = Some line ->
  exists s1 line1,
    addItem item this h = Ok (tt, View.touch h this l s1 line1) /\
    lines s1 = lines s /\ currentLine s1 = Some l /\
    Line.items line1 = Line.items line ++ [item] /\
    metadata s1 = View.meta_step (metadata s) item.
Proof.
  intros E Hc El. destruct item as [tag|p]; unfold addItem.
  - destruct (addTag_cur_meta h this s l line tag E Hc El)
      as (s1 & line1 & D & A & B & C & Md).
    exists s1, line1. erewrite run_bind by exact D. now rewrite run_ret.
  - exists s, (Line.addItem (IPair p) line).
    erewrite run_bind by (eapply ensureLine_cur; eassumption).
    erewrite onCurrentLine_run by eassumption. easy.
Qed.

Lemma addItem_cur h this s l line item :
  songs h !! this = Some s -> currentLine s = Some l ->
  lineobjs h !! l = Some line ->
  exists s1 line1,
    addItem item this h = Ok (tt, View.touch h this l s1 line1) /\
    lines s1 = lines s /\ currentLine s1 = Some l /\
    Line.items line1 = Line.items line ++ [item].
Proof.
  intros E Hc El.
  destruct (addItem_cur_meta h this s l line item E Hc El)
    as (s1 & line1 & R & A & B & C & _).
  now exists s1, line1.
Qed.

(** *** A Song under construction *)

Lemma match_snoc {A B} (l : list A) (x : A) (a b : B) :
  match l ++ [x] with [] => a | _ :: _ => b end = b.
Proof. now destruct l. Qed.

Lemma newSong_building h :
  View.building h {| songs := songs h ++ [new Metadata.empty];
                     lineobjs := lineobjs h |} (length (songs h)) [].
Proof.
  exists (new Metadata.empty), []. simpl. now rewrite app_nil_r.
Qed.

Lemma building_song h0 h c ll :
  View.building h0 h c ll ->
  exists sc, songs h !! c = Some sc /\ songs h = songs h0 ++ [sc] /\
             lines sc = seq (length (lineobjs h0)) (length ll).
Proof.
  intros (sc & lns & E1 & -> & _ & _ & E3 & _). exists sc.
  rewrite E1. split; [apply lookup_snoc | easy].
Qed.

Lemma addLine_building h0 h c ll :
  View.building h0 h c ll ->
  exists h', addLine None c h = Ok (length (lineobjs h), h') /\
             View.building h0 h' c (ll ++ [[]]).
Proof.
  intros (sc & lns & E1 & -> & E2 & E3 & E4 & E5).
  assert (songs h !! length (songs h0) = Some sc) as E
      by (rewrite E1; apply lookup_snoc).
  eexists. split; [apply addLine_run; exact E|].
  assert (length lns = length ll) as Hlen by (now rewrite <- E3, length_map).
  eexists _, (lns ++ [View.stamped sc]). simpl. repeat split.
  - rewrite E1. apply insert_snoc.
  - rewrite E2. now rewrite app_assoc.
  - rewrite map_app, E3. reflexivity.
  - rewrite E4, length_app, seq_app, E2, length_app. simpl.
    now rewrite Hlen.
  - rewrite match_snoc, E2, !length_app. simpl. f_equal. lia.
Qed.

Lemma building_touch h0 h c ll its :
  View.building h0 h c (ll ++ [its]) ->
  exists sc l line,
    songs h !! c = Some sc /\ currentLine sc = Some l /\
    lineobjs h !! l = Some line /\ Line.items line = its /\
    forall s1 line1,
      lines s1 = lines sc -> currentLine s1 = Some l ->
      View.building h0 (View.touch h c l s1 line1) c (ll ++ [Line.items line1]).
Proof.
  intros (sc & lns & E1 & -> & E2 & E3 & E4 & E5).
  rewrite match_snoc in E5.
  destruct (map_eq_app _ _ _ _ E3) as (lns0 & lns1 & -> & M0 & M1).
  destruct lns1 as [|line [|? ?]]; try discriminate.
  injection M1 as M1.
  assert (length lns0 = length ll) as Hlen by (now rewrite <- M0, length_map).
  assert (length (lineobjs h0) + length (ll ++ [its]) - 1
          = length (lineobjs h0 ++ lns0)) as Hl
      by (rewrite !length_app; simpl; lia).
  rewrite Hl in E5.
  exists sc, (length (lineobjs h0 ++ lns0)), line.
  split; [rewrite E1; apply lookup_snoc|]. split; [exact E5|].
  split; [rewrite E2, app_assoc; apply lookup_snoc|]. split; [exact M1|].
  intros s1 line1 A B.
  exists s1, (lns0 ++ [line1]). simpl. repeat split.
  - rewrite E1. apply insert_snoc.
  - rewrite E2, !app_assoc. apply insert_snoc.
  - rewrite map_app, M0. reflexivity.
  - rewrite A, E4, !length_app. reflexivity.
  - rewrite match_snoc, B. f_equal. rewrite !length_app. simpl. lia.
Qed.

Lemma addItem_building h0 h c ll its item :
  View.building h0 h c (ll ++ [its]) ->
  exists h', addItem item c h = Ok (tt, h') /\
             View.building h0 h' c (ll ++ [its ++ [item]]).
Proof.
  intros B.
  destruct (building_touch _ _ _ _ _ B) as (sc & l & line & E & Hc & El & <- & K).
  destruct (addItem_cur h _ sc _ line item E Hc El)
    as (s1 & line1 & R & A1 & B1 & C1).
  eexists. split; [exact R|]. rewrite <- C1. now apply K.
Qed.

(** A change of the fields of the Song other than its Lines and its
    current Line. *)
Lemma building_put h0 h c ll sc s1 :
  View.building h0 h c ll ->
  songs h !! c = Some sc ->
  lines s1 = lines sc -> currentLine s1 = currentLine sc ->
  View.building h0 {| songs := <[c := s1]> (songs h); lineobjs := lineobjs h |}
                c ll.
Proof.
  intros (sc' & lns & E1 & -> & E2 & E3 & E4 & E5) E A B.
  rewrite E1, lookup_snoc in E. injection E as ->.
  exists s1, lns. simpl. repeat split; try easy.
  - rewrite E1. apply insert_snoc.
  - now rewrite A.
  - now rewrite B.
Qed.

Lemma dispatch_null h this s tag h1 :
  songs h !! this = Some s -> currentLine s = None ->
  View.dispatch tag this h = Ok (tt, h1) ->
  exists s1, h1 = {| songs := <[this := s1]> (songs h); lineobjs := lineobjs h |} /\
             lines s1 = lines s /\ currentLine s1 = None.
Proof.
  intros E Hc. unfold View.dispatch.
  assert (forall s1 : Song.t,
             (s0 ← getSong this; putSong this (s1 : Song.t)) h = Ok (tt, h1) ->
             h1 = {| songs := <[this := s1]> (songs h); lineobjs := lineobjs h |})
    as Hput.
  { intros s1. erewrite run_bind by (apply getSong_run; eassumption).
    unfold putSong. now intros [= <-]. }
  assert (forall T, endSection T tag this h = Ok (tt, h1) ->
             exists s1,
               h1 = {| songs := <[this := s1]> (songs h); lineobjs := lineobjs h |} /\
               lines s1 = lines s /\ currentLine s1 = None) as Hend.
  { intros T. erewrite endSection_run by eassumption. intros [= <-].
    eexists. split; [reflexivity|].
    pose proof (checked_fields s T tag) as (D1 & D2 & _).
    unfold View.ended; simpl. now rewrite D1, D2. }
  assert (forall T, startSection T tag this h = Ok (tt, h1) -> False) as Hstart.
  { intros T R. destruct (startSection_null h this s T tag E Hc) as (msg & R').
    congruence. }
  destruct (Tag.isMetaTag tag).
  { unfold setMetadata. erewrite run_bind by (apply getSong_run; eassumption).
    unfold putSong. intros [= <-]. eexists. split; [reflexivity|]. easy. }
  destruct (String.eqb (Tag.name tag) TRANSPOSE).
  { erewrite run_bind by (apply getSong_run; eassumption).
    unfold putSong. intros [= <-]. eexists. split; [reflexivity|]. easy. }
  destruct (String.eqb (Tag.name tag) NEW_KEY).
  { erewrite run_bind by (apply getSong_run; eassumption).
    unfold putSong. intros [= <-]. eexists. split; [reflexivity|]. easy. }
  unfold setSectionTypeFromTag.
  repeat (match goal with |- context [if ?b then _ else _] => destruct b end;
          [solve [intros R; exfalso; eapply Hstart; exact R | apply Hend]|]).
  rewrite run_ret. intros [= <-]. exists s. split; [|easy].
  destruct h as [ss ls]; simpl in *. now rewrite list_insert_id.
Qed.

(** Adding an item to a Song under construction, whatever its state. *)
Lemma addItem_building_any h0 h c ll item h2 :
  View.building h0 h c ll ->
  addItem item c h = Ok (tt, h2) ->
  exists ll2, View.building h0 h2 c ll2.
Proof.
  intros B R. destruct ll as [|its ll _] using rev_ind.
  2:{ destruct (addItem_building _ _ _ _ _ item B) as (h' & R' & B').
      rewrite R in R'. injection R' as <-. eauto. }
  pose proof B as (sc & lns & E1 & -> & E2 & E3 & E4 & E5). simpl in E5.
  assert (songs h !! length (songs h0) = Some sc) as E
      by (rewrite E1; apply lookup_snoc).
  assert (forall h1 m,
             View.building h0 h1 (length (songs h0)) [] ->
             (forall line, Line.items (m line) = Line.items line ++ [item]) ->
             (ensureLine (length (songs h0));;
              onCurrentLine m (length (songs h0))) h1 = Ok (tt, h2) ->
             exists ll2, View.building h0 h2 (length (songs h0)) ll2) as Tail.
  { intros h1 m B1 Hm R1.
    pose proof B1 as (sc1 & lns1 & F1 & _ & F2 & F3 & F4 & F5). simpl in F5.
    assert (songs h1 !! length (songs h0) = Some sc1) as F
        by (rewrite F1; apply lookup_snoc).
    destruct (addLine_building _ _ _ _ B1) as (h1' & A1 & B1').
    unfold ensureLine in R1.
    erewrite run_bind in R1.
    2:{ erewrite run_bind by (apply getSong_run; exact F). rewrite F5.
        erewrite run_bind by exact A1. apply run_ret. }
    destruct (building_touch _ _ _ [] [] B1')
      as (sc2 & l & line & G & Hc & Gl & Gi & K).
    erewrite onCurrentLine_run in R1 by eassumption.
    injection R1 as <-. eexists. now apply K. }
  destruct item as [tag|p].
  - unfold addItem in R.
    apply bind_inv in R as (tag' & h3 & R & R3).
    rewrite run_ret in R3. injection R3 as ->.
    rewrite addTag_unfold in R.
    apply bind_inv in R as ([] & h1 & D & R).
    destruct (dispatch_null _ _ _ _ _ E E5 D) as (s1 & -> & A1 & A2).
    pose proof (building_put _ _ _ _ _ s1 B E A1) as B1.
    rewrite E5 in B1. specialize (B1 A2).
    apply bind_inv in R as ([] & h4 & R & R4).
    apply bind_inv in R4 as ([] & h5 & R4 & R5).
    rewrite run_ret in R5. injection R5 as _ ->.
    eapply (Tail _ (Line.addTag tag) B1); [easy|].
    erewrite run_bind by exact R. exact R4.
  - unfold addItem in R. eapply (Tail _ (Line.addItem (IPair p)) B); easy.
Qed.

(** *** [mapItems] and [mapLines] *)

Lemma mapItems_unfold {St} (func : MapItemsCallback St) st this :
  mapItems func st this =
    (clonedSong ← newSong Metadata.empty;
     s ← getSong this;
     st' ← foldM (View.lineStep func clonedSong) st (lines s);
     mret (clonedSong, st')).
Proof. reflexivity. Qed.

Lemma items_fold {St} (func : MapItemsCallback St) h0 c items :
  forall st h ll its,
    View.building h0 h c (ll ++ [its]) ->
    exists h',
      foldM (View.itemStep func c) st items h
      = Ok (snd (View.replay_line func items st), h') /\
      View.building h0 h' c
        (ll ++ [its ++ fst (View.replay_line func items st)]).
Proof.
  induction items as [|item items IH]; intros st h ll its B;
    cbn [foldM View.replay_line].
  - exists h. rewrite run_ret, app_nil_r. easy.
  - destruct (func item st) as [changed st1] eqn:Ef.
    destruct changed as [ch|].
    + destruct (addItem_building _ _ _ _ _ ch B) as (h1 & R1 & B1).
      destruct (IH st1 h1 ll (its ++ [ch]) B1) as (h2 & R2 & B2).
      exists h2. erewrite run_bind.
      2:{ unfold View.itemStep. rewrite Ef.
          erewrite run_bind by exact R1. apply run_ret. }
      destruct (View.replay_line func items st1) as [kept st2]; simpl in *.
      split; [exact R2|]. now rewrite <- app_assoc in B2.
    + destruct (IH st1 h ll its B) as (h2 & R2 & B2).
      exists h2. erewrite run_bind.
      2:{ unfold View.itemStep. rewrite Ef. apply run_ret. }
      destruct (View.replay_line func items st1) as [kept st2]; simpl in *.
      easy.
Qed.

Lemma all_lines_extends h h' ls lns :
  View.extends h h' -> View.all_lines h ls = Some lns ->
  View.all_lines h' ls = Some lns.
Proof.
  intros X. revert lns. induction ls as [|l ls IH]; intros lns; simpl; [easy|].
  destruct (lineobjs h !! l) as [line|] eqn:El; [|discriminate].
  destruct (View.all_lines h ls) as [rest|]; [|discriminate].
  intros E. rewrite (extends_lookup_line _ _ _ _ X El), (IH rest eq_refl).
  exact E.
Qed.

Lemma lines_fold {St} (func : MapItemsCallback St) h0 c ls :
  forall lns st h ll,
    View.all_lines h0 ls = Some lns ->
    View.building h0 h c ll ->
    exists h',
      foldM (View.lineStep func c) st ls h
      = Ok (snd (View.replay func (map Line.items lns) st), h') /\
      View.building h0 h' c
        (ll ++ fst (View.replay func (map Line.items lns) st)).
Proof.
  induction ls as [|l ls IH]; intros lns st h ll V B; simpl in V.
  - injection V as <-. exists h. simpl. rewrite run_ret, app_nil_r. easy.
  - destruct (lineobjs h0 !! l) as [line|] eqn:El; [|discriminate].
    destruct (View.all_lines h0 ls) as [rest|] eqn:Er; [|discriminate].
    injection V as <-. cbn [foldM map View.replay].
    destruct (addLine_building _ _ _ _ B) as (h1 & R1 & B1).
    pose proof (extends_lookup_line _ _ _ _ (building_extends _ _ _ _ B1) El)
      as El1.
    destruct (items_fold func h0 c (Line.items line) st h1 ll [] B1)
      as (h2 & R2 & B2).
    simpl in B2.
    destruct (View.replay_line func (Line.items line) st) as [kept st1]
      eqn:Ek; simpl in R2, B2.
    destruct (IH rest st1 h2 (ll ++ [kept]) eq_refl B2) as (h3 & R3 & B3).
    exists h3.
    erewrite run_bind.
    2:{ unfold View.lineStep. erewrite run_bind by exact R1.
        erewrite run_bind by (apply getLine_run; exact El1). exact R2. }
    destruct (View.replay func (map Line.items rest) st1) as [more st2];
      simpl in *.
    split; [exact R3|]. now rewrite <- app_assoc in B3.
Qed.

(** [mapItems] returns a new Song, built from new Lines, one for each
    Line of [this], with the items the callback returns; nothing that
    was in the store changes. *)
Lemma mapItems_run {St} (func : MapItemsCallback St) st h this ll :
  View.song_items h this = Some ll ->
  exists h',
    mapItems func st this h
    = Ok ((length (songs h), snd (View.replay func ll st)), h') /\
    View.building h h' (length (songs h)) (fst (View.replay func ll st)).
Proof.
  unfold View.song_items, View.song_lines.
  destruct (songs h !! this) as [s|] eqn:E; [|discriminate].
  destruct (View.all_lines h (lines s)) as [lns|] eqn:V; [|discriminate].
  simpl. intros [= <-].
  rewrite mapItems_unfold.
  pose proof (newSong_building h) as B0.
  set (h1 := {| songs := songs h ++ [new Metadata.empty];
                lineobjs := lineobjs h |}) in *.
  destruct (lines_fold func h (length (songs h)) (lines s) lns st h1 [] V B0)
    as (h2 & R & B).
  exists h2. split; [|exact B].
  erewrite run_bind by reflexivity.
  erewrite run_bind.
  2:{ apply getSong_run. simpl.
      apply lookup_app_l_Some. exact E. }
  fold h1. erewrite run_bind by exact R. apply run_ret.
Qed.

Lemma mapLines_unfold (func : MapLinesCallback) this :
  mapLines func this =
    (clonedSong ← newSong Metadata.empty;
     s ← getSong this;
     foldM (View.lineStepL func clonedSong) tt (lines s);;
     mret clonedSong).
Proof. reflexivity. Qed.

Lemma addAll_fold h0 c items :
  forall h ll its,
    View.building h0 h c (ll ++ [its]) ->
    exists h',
      foldM (fun (_ : unit) item => addItem item c) tt items h = Ok (tt, h') /\
      View.building h0 h' c (ll ++ [its ++ items]).
Proof.
  induction items as [|item items IH]; intros h ll its B; cbn [foldM].
  - exists h. rewrite run_ret, app_nil_r. easy.
  - destruct (addItem_building _ _ _ _ _ item B) as (h1 & R1 & B1).
    destruct (IH h1 ll (its ++ [item]) B1) as (h2 & R2 & B2).
    exists h2. erewrite run_bind by exact R1.
    split; [exact R2|]. now rewrite <- app_assoc in B2.
Qed.

Lemma linesL_fold (func : MapLinesCallback) h0 c ls :
  forall lns h ll,
    View.all_lines h0 ls = Some lns ->
    View.building h0 h c ll ->
    exists h',
      foldM (View.lineStepL func c) tt ls h = Ok (tt, h') /\
      View.building h0 h' c (ll ++ View.replay_lines func lns).
Proof.
  induction ls as [|l ls IH]; intros lns h ll V B; simpl in V.
  - injection V as <-. exists h. simpl. rewrite run_ret, app_nil_r. easy.
  - destruct (lineobjs h0 !! l) as [line|] eqn:El; [|discriminate].
    destruct (View.all_lines h0 ls) as [rest|] eqn:Er; [|discriminate].
    injection V as <-. cbn [foldM View.replay_lines].
    pose proof (extends_lookup_line _ _ _ _ (building_extends _ _ _ _ B) El)
      as El1.
    destruct (func line) as [changed|] eqn:Ef.
    + destruct (addLine_building _ _ _ _ B) as (h1 & R1 & B1).
      destruct (addAll_fold h0 c (Line.items changed) h1 ll [] B1)
        as (h2 & R2 & B2).
      simpl in B2.
      destruct (IH rest h2 (ll ++ [Line.items changed]) eq_refl B2)
        as (h3 & R3 & B3).
      exists h3. erewrite run_bind.
      2:{ unfold View.lineStepL. erewrite run_bind by (apply getLine_run; exact El1).
          rewrite Ef. erewrite run_bind by exact R1. exact R2. }
      split; [exact R3|]. now rewrite <- app_assoc in B3.
    + destruct (IH rest h ll eq_refl B) as (h3 & R3 & B3).
      exists h3. erewrite run_bind.
      2:{ unfold View.lineStepL. erewrite run_bind by (apply getLine_run; exact El1).
          rewrite Ef. apply run_ret. }
      easy.
Qed.

(** [mapLines] returns a new Song, built from new Lines, one for each
    Line the callback returns, with the items of that Line; nothing that
    was in the store changes. *)
Lemma mapLines_run (func : MapLinesCallback) h this lns :
  View.song_lines h this = Some lns ->
  exists h',
    mapLines func this h = Ok (length (songs h), h') /\
    View.building h h' (length (songs h)) (View.replay_lines func lns).
Proof.
  unfold View.song_lines.
  destruct (songs h !! this) as [s|] eqn:E; [|discriminate].
  intros V. rewrite mapLines_unfold.
  pose proof (newSong_building h) as B0.
  set (h1 := {| songs := songs h ++ [new Metadata.empty];
                lineobjs := lineobjs h |}) in *.
  destruct (linesL_fold func h (length (songs h)) (lines s) lns h1 [] V B0)
    as (h2 & R & B).
  exists h2. split; [|exact B].
  erewrite run_bind by reflexivity.
  erewrite run_bind.
  2:{ apply getSong_run. simpl. apply lookup_app_l_Some. exact E. }
  fold h1. erewrite run_bind by exact R. apply run_ret.
Qed.

(** *** The metadata of a Song under construction *)

Lemma addLine_meta h c s :
  songs h !! c = Some s ->
  exists l h', addLine None c h = Ok (l, h') /\
               View.meta_at h' c = View.meta_at h c.
Proof.
  intros E. eexists _, _. split; [apply addLine_run; exact E|].
  unfold View.meta_at. simpl. rewrite E.
  rewrite list_lookup_insert_eq by (eapply lookup_lt_Some; exact E).
  reflexivity.
Qed.

Lemma addItem_building_meta h0 h c ll its item :
  View.building h0 h c (ll ++ [its]) ->
  exists h', addItem item c h = Ok (tt, h') /\
             View.building h0 h' c (ll ++ [its ++ [item]]) /\
             View.meta_at h' c
             = option_map (fun m => View.meta_step m item) (View.meta_at h c).
Proof.
  intros B.
  destruct (building_touch _ _ _ _ _ B) as (sc & l & line & E & Hc & El & <- & K).
  destruct (addItem_cur_meta h _ sc _ line item E Hc El)
    as (s1 & line1 & R & A1 & B1 & C1 & Md).
  eexists. split; [exact R|]. split; [rewrite <- C1; now apply K|].
  unfold View.meta_at. rewrite E. simpl.
  rewrite list_lookup_insert_eq by (eapply lookup_lt_Some; exact E).
  simpl. now rewrite Md.
Qed.

Lemma items_fold_meta {St} (func : MapItemsCallback St) h0 c items :
  forall st h ll its st' h',
    View.building h0 h c (ll ++ [its]) ->
    foldM (View.itemStep func c) st items h = Ok (st', h') ->
    View.meta_at h' c
    = option_map (fold_left View.meta_step (fst (View.replay_line func items st)))
                 (View.meta_at h c).
Proof.
  induction items as [|item items IH]; intros st h ll its st' h' B R;
    cbn [foldM View.replay_line] in *.
  - rewrite run_ret in R. injection R as _ <-. simpl.
    now destruct (View.meta_at h c).
  - destruct (func item st) as [changed st1] eqn:Ef.
    destruct changed as [ch|].
    + destruct (addItem_building_meta _ _ _ _ _ ch B) as (h1 & R1 & B1 & M1).
      erewrite run_bind in R.
      2:{ unfold View.itemStep. rewrite Ef.
          erewrite run_bind by exact R1. apply run_ret. }
      rewrite (IH st1 h1 ll (its ++ [ch]) st' h' B1 R), M1.
      destruct (View.replay_line func items st1) as [kept st2]; simpl.
      now destruct (View.meta_at h c).
    + erewrite run_bind in R.
      2:{ unfold View.itemStep. rewrite Ef. apply run_ret. }
      rewrite (IH st1 h ll its st' h' B R).
      now destruct (View.replay_line func items st1) as [kept st2].
Qed.

Lemma lines_fold_meta {St} (func : MapItemsCallback St) h0 c ls :
  forall lns st h ll st' h',
    View.all_lines h0 ls = Some lns ->
    View.building h0 h c ll ->
    foldM (View.lineStep func c) st ls h = Ok (st', h') ->
    View.meta_at h' c
    = option_map
        (fold_left View.meta_step
                   (concat (fst (View.replay func (map Line.items lns) st))))
        (View.meta_at h c).
Proof.
  induction ls as [|l ls IH]; intros lns st h ll st' h' V B R; simpl in V.
  - injection V as <-. simpl in R. rewrite run_ret in R. injection R as _ <-.
    simpl. now destruct (View.meta_at h c).
  - destruct (lineobjs h0 !! l) as [line|] eqn:El; [|discriminate].
    destruct (View.all_lines h0 ls) as [rest|] eqn:Er; [|discriminate].
    injection V as <-. cbn [foldM map View.replay] in *.
    destruct (building_song _ _ _ _ B) as (sc & E & _ & _).
    destruct (addLine_building _ _ _ _ B) as (h1 & R1 & B1).
    destruct (addLine_meta h c sc E) as (l1 & h1' & R1' & M1).
    rewrite R1 in R1'. injection R1' as _ <-.
    pose proof (extends_lookup_line _ _ _ _ (building_extends _ _ _ _ B1) El)
      as El1.
    destruct (items_fold func h0 c (Line.items line) st h1 ll [] B1)
      as (h2 & R2 & B2).
    pose proof (items_fold_meta func h0 c (Line.items line) st h1 ll [] _ h2 B1 R2)
      as M2.
    simpl in B2.
    destruct (View.replay_line func (Line.items line) st) as [kept st1]
      eqn:Ek; simpl in R2, B2, M2.
    erewrite run_bind in R.
    2:{ unfold View.lineStep. erewrite run_bind by exact R1.
        erewrite run_bind by (apply getLine_run; exact El1). exact R2. }
    rewrite (IH rest st1 h2 (ll ++ [kept]) st' h' eq_refl B2 R), M2, M1.
    destruct (View.replay func (map Line.items rest) st1) as [more st2]; simpl.
    destruct (View.meta_at h c); simpl; [|reflexivity].
    now rewrite fold_left_app.
Qed.

(** The metadata of the Song [mapItems] returns is built from the items
    the callback returns, and from nothing else. *)
Lemma mapItems_meta {St} (func : MapItemsCallback St) st h this ll c st' h' :
  View.song_items h this = Some ll ->
  mapItems func st this h = Ok ((c, st'), h') ->
  View.meta_at h' c = Some (View.meta_of (fst (View.replay func ll st))).
Proof.
  unfold View.song_items, View.song_lines.
  destruct (songs h !! this) as [s|] eqn:E; [|discriminate].
  destruct (View.all_lines h (lines s)) as [lns|] eqn:V; [|discriminate].
  simpl. intros [= <-] R.
  rewrite mapItems_unfold in R.
  pose proof (newSong_building h) as B0.
  set (h1 := {| songs := songs h ++ [new Metadata.empty];
                lineobjs := lineobjs h |}) in *.
  destruct (lines_fold func h (length (songs h)) (lines s) lns st h1 [] V B0)
    as (h2 & R2 & B2).
  pose proof (lines_fold_meta func h (length (songs h)) (lines s) lns st h1 []
                _ h2 V B0 R2) as M2.
  erewrite run_bind in R by reflexivity.
  erewrite run_bind in R.
  2:{ apply getSong_run. simpl. apply lookup_app_l_Some. exact E. }
  fold h1 in R. erewrite run_bind in R by exact R2.
  rewrite run_ret in R. injection R as <- _ <-.
  rewrite M2. unfold View.meta_at, h1. simpl. now rewrite lookup_snoc.
Qed.

(** *** What a Song under construction holds *)

Lemma all_lines_seq h ls0 lns :
  lineobjs h = ls0 ++ lns ->
  View.all_lines h (seq (length ls0) (length lns)) = Some lns.
Proof.
  revert ls0. induction lns as [|line lns IH]; intros ls0 E; simpl; [easy|].
  rewrite E at 1. rewrite lookup_app_r by lia. rewrite Nat.sub_diag. simpl.
  specialize (IH (ls0 ++ [line])). rewrite length_app in IH. simpl in IH.
  rewrite Nat.add_1_r in IH. rewrite IH; [easy|].
  now rewrite <- app_assoc.
Qed.

Lemma building_lines h0 h c ll :
  View.building h0 h c ll ->
  exists lns, View.song_lines h c = Some lns /\ map Line.items lns = ll /\
              lineobjs h = lineobjs h0 ++ lns.
Proof.
  intros (sc & lns & E1 & -> & E2 & E3 & E4 & E5).
  exists lns. unfold View.song_lines. rewrite E1, lookup_snoc, E4.
  rewrite <- E3, length_map. split; [|easy].
  now apply all_lines_seq.
Qed.

Lemma building_items h0 h c ll :
  View.building h0 h c ll -> View.song_items h c = Some ll.
Proof.
  intros B. destruct (building_lines _ _ _ _ B) as (lns & E & M & _).
  unfold View.song_items. now rewrite E, <- M.
Qed.

End SongRuns.

(** ** mapItems *)

Section MapItems.
Context `{Tag.Methods}.

Lemma replay_length {St} (func : Song.MapItemsCallback St) ll :
  forall st, length (fst (View.replay func ll st)) = length ll.
Proof.
  induction ll as [|its ll IH]; intros st; simpl; [easy|].
  destruct (View.replay_line func its st) as [kept st1].
  specialize (IH st1).
  destruct (View.replay func ll st1) as [rest st2]. simpl in *. now rewrite IH.
Qed.

Lemma replay_lookup {St} (func : Song.MapItemsCallback St) ll :
  forall st i its,
    ll !! i = Some its ->
    exists sti,
      fst (View.replay func ll st) !! i
      = Some (fst (View.replay_line func its sti)).
Proof.
  induction ll as [|its0 ll IH]; intros st i its E; [easy|]. simpl.
  destruct (View.replay_line func its0 st) as [kept st1] eqn:Ek.
  destruct i as [|i]; simpl in E.
  - injection E as <-. exists st.
    destruct (View.replay func ll st1) as [rest st2]. simpl. now rewrite Ek.
  - destruct (IH st1 i its E) as (sti & R). exists sti.
    destruct (View.replay func ll st1) as [rest st2]. exact R.
Qed.

Lemma replay_line_absent {St} (func : Song.MapItemsCallback St) its :
  (forall item st, item ∈ its -> fst (func item st) = None) ->
  forall st, fst (View.replay_line func its st) = [].
Proof.
  induction its as [|item its IH]; intros Hf st; simpl; [easy|].
  pose proof (Hf item st (list_elem_of_here _ _)) as Hi.
  destruct (func item st) as [changed st1]. simpl in Hi. subst changed.
  rewrite <- (IH (fun it s0 Hin => Hf it s0 (list_elem_of_further _ _ _ Hin)) st1).
  now destruct (View.replay_line func its st1).
Qed.



Lemma replay_line_total {St} (f : Item -> Item) its (st : St) :
  View.replay_line (fun item st => (Some (f item), st)) its st = (map f its, st).
Proof. induction its as [|item its IH]; simpl; [easy|]. now rewrite IH. Qed.

Lemma replay_total {St} (f : Item -> Item) ll (st : St) :
  View.replay (fun item st => (Some (f item), st)) ll st = (map (map f) ll, st).
Proof.
  induction ll as [|its ll IH]; simpl; [easy|].
  now rewrite replay_line_total, IH.
Qed.

Lemma song_items_lt h this ll :
  View.song_items h this = Some ll -> this < length (Song.songs h).
Proof.
  unfold View.song_items, View.song_lines.
  destruct (Song.songs h !! this) eqn:E; [|discriminate].
  intros _. eapply lookup_lt_Some; eassumption.
Qed.

Lemma mapItems_total_run (f : Item -> Item) h this ll :
  View.song_items h this = Some ll ->
  exists h',
    Song.mapItems (fun item (st : unit) => (Some (f item), st)) tt this h
    = Ok ((length (Song.songs h), tt), h') /\
    View.building h h' (length (Song.songs h)) (map (map f) ll).
Proof.
  intros V.
  destruct (mapItems_run (fun item (st : unit) => (Some (f item), st)) tt h this ll V)
    as (h' & R & B).
  rewrite replay_total in R, B. simpl in R, B. eauto.
Qed.

(** C5. [mapItems(fn)] returns a Song with exactly one Line for each Line
    of the Song, in the same order, holding what [fn] returns for the
    items of that Line; a Line for whose items [fn] returns nothing is in
    the result, with zero items. *)
Theorem mapItems_keeps_every_line {St} (func : Song.MapItemsCallback St)
        (st : St) (h : Song.heap) (this : nat) (ll : list (list Item)) :
  View.song_items h this = Some ll ->
  exists c st' h' ll',
    Song.mapItems func st this h = Ok ((c, st'), h') /\
    View.song_items h' c = Some ll' /\
    (ll', st') = View.replay func ll st /\
    length ll' = length ll /\
    (forall i its, ll !! i = Some its ->
                   exists sti, ll' !! i = Some (fst (View.replay_line func its sti))) /\
    (forall i its, ll !! i = Some its ->
                   (forall item st0, item ∈ its -> fst (func item st0) = None) ->
                   ll' !! i = Some []).
Proof.
  intros V. destruct (mapItems_run func st h this ll V) as (h' & R & B).
  exists (length (Song.songs h)), (snd (View.replay func ll st)), h',
    (fst (View.replay func ll st)).
  split; [exact R|]. split; [eapply building_items; exact B|].
  split; [now destruct (View.replay func ll st)|].
  split; [apply replay_length|]. split.
  - intros i its E. now apply replay_lookup.
  - intros i its E Hf. destruct (replay_lookup func ll st i its E) as (sti & R').
    rewrite R'. f_equal. now apply replay_line_absent.
Qed.

End MapItems.

(** ** clone *)

Section Clone.
Context `{Tag.Methods}.

Lemma map_map_id {A} (ll : list (list A)) : map (map (fun x => x)) ll = ll.
Proof. induction ll as [|l ll IH]; simpl; [easy|]. now rewrite map_id, IH. Qed.

(** C1, as amended.  [clone()], which is [mapItems] with the identity,
    returns a new Song (a Song that was not in the store) whose Lines are
    new objects, one for each Line of the Song, holding the same items in
    the same order.  Nothing that was in the store is changed by
    [clone()], nor afterwards by adding an item or a line to the clone.
    The metadata of the clone is what replaying the items adds to an
    empty Metadata (the values of the meta tags, in order): it is not a
    copy of the metadata of the Song. *)
Theorem clone_is_new_song_with_same_items (h : Song.heap) (this : nat)
        (ll : list (list Item)) :
  View.song_items h this = Some ll ->
  exists c h' sc,
    Song.clone this h = Ok (c, h') /\
    Song.mapItems (fun item (st : unit) => (Some item, st)) tt this h
    = Ok ((c, tt), h') /\
    c = length (Song.songs h) /\ c <> this /\
    View.extends h h' /\
    Song.songs h' !! c = Some sc /\
    Song.lines sc = seq (length (Song.lineobjs h)) (length ll) /\
    View.song_items h' c = Some ll /\
    Song.metadata sc = View.meta_of ll /\
    View.song_items h' this = Some ll /\
    (forall item h'', Song.addItem item c h' = Ok (tt, h'') ->
                      View.extends h h'' /\ View.song_items h'' this = Some ll) /\
    (forall l h'', Song.addLine None c h' = Ok (l, h'') ->
                   View.extends h h'' /\ View.song_items h'' this = Some ll).
Proof.
  intros V.
  destruct (mapItems_total_run (fun x => x) h this ll V) as (h' & R & B).
  rewrite map_map_id in B.
  destruct (building_song _ _ _ _ B) as (sc & E & _ & L).
  assert (forall h2, View.extends h h2 -> View.song_items h2 this = Some ll)
    as Keep.
  { intros h2 X. revert V. unfold View.song_items, View.song_lines.
    destruct (Song.songs h !! this) as [s|] eqn:Es; [|discriminate].
    rewrite (extends_lookup_song _ _ _ _ X Es).
    destruct (View.all_lines h (Song.lines s)) as [lns|] eqn:El; [|discriminate].
    now rewrite (all_lines_extends _ _ _ _ X El). }
  exists (length (Song.songs h)), h', sc.
  split. { unfold Song.clone. erewrite run_bind by exact R. reflexivity. }
  split; [exact R|]. split; [reflexivity|].
  split. { pose proof (song_items_lt _ _ _ V). lia. }
  split; [eapply building_extends; exact B|].
  split; [exact E|]. split; [exact L|].
  split; [eapply building_items; exact B|].
  split.
  { pose proof (mapItems_meta _ _ _ _ _ _ _ _ V R) as Md.
    rewrite replay_total in Md. simpl in Md. rewrite map_map_id in Md.
    unfold View.meta_at in Md. rewrite E in Md. now injection Md. }
  split; [apply Keep; eapply building_extends; exact B|].
  split.
  - intros item h2 R2.
    destruct (addItem_building_any _ _ _ _ _ _ B R2) as (ll2 & B2).
    pose proof (building_extends _ _ _ _ B2) as X. split; [exact X|now apply Keep].
  - intros l h2 R2.
    destruct (addLine_building _ _ _ _ B) as (h3 & R3 & B3).
    rewrite R2 in R3. injection R3 as _ <-.
    pose proof (building_extends _ _ _ _ B3) as X. split; [exact X|now apply Keep].
Qed.

End Clone.

(** ** setKey *)

Section SetKey.
Context `{Tag.Methods} `{Song.MetadataAccessors} `{Song.MusicTheory}.

Lemma metadata_set_run h this s name value :
  Song.songs h !! this = Some s ->
  Song.metadata_set name value this h =
    Ok (tt, {| Song.songs :=
                 <[this := Song.with_metadata s
                             (Metadata.set name value (Song.metadata s))]>
                   (Song.songs h);
               Song.lineobjs := Song.lineobjs h |}).
Proof.
  intros E. unfold Song.metadata_set.
  erewrite run_bind by (apply getSong_run; exact E). reflexivity.
Qed.

Lemma metadata_get_replace name v m :
  Metadata.get name (Metadata.replace name v m) = Some [v].
Proof.
  induction m as [|[n vs] m IH]; simpl.
  - now rewrite String.eqb_refl.
  - destruct (String.eqb n name) eqn:En; simpl; now rewrite En.
Qed.

Lemma metadata_get_remove name m :
  Metadata.get name (Metadata.remove name m) = None.
Proof.
  unfold Metadata.remove. induction m as [|[n vs] m IH]; simpl; [easy|].
  destruct (String.eqb n name) eqn:En; simpl.
  - exact IH.
  - now rewrite En.
Qed.


Lemma building_metadata_set h0 h c ll name value :
  View.building h0 h c ll ->
  exists h' sc,
    Song.metadata_set name value c h = Ok (tt, h') /\
    View.building h0 h' c ll /\
    Song.songs h' !! c = Some sc /\
    Metadata.get name (Song.metadata sc)
    = match value with Some v => Some [v] | None => None end.
Proof.
  intros B. destruct (building_song _ _ _ _ B) as (sc & E & _ & _).
  eexists _, _. split; [apply metadata_set_run; exact E|].
  split; [eapply building_put; [exact B | exact E | easy | easy]|].
  split; [simpl; apply list_lookup_insert_eq; eapply lookup_lt_Some; exact E|].
  simpl. destruct value as [v|]; simpl.
  - apply metadata_get_replace.
  - apply metadata_get_remove.
Qed.

Lemma song_items_extends h h' this ll :
  View.extends h h' -> View.song_items h this = Some ll ->
  View.song_items h' this = Some ll.
Proof.
  intros X. unfold View.song_items, View.song_lines.
  destruct (Song.songs h !! this) as [s|] eqn:Es; [|discriminate].
  rewrite (extends_lookup_song _ _ _ _ X Es).
  destruct (View.all_lines h (Song.lines s)) as [lns|] eqn:El; [|discriminate].
  now rewrite (all_lines_extends _ _ _ _ X El).
Qed.


End SetKey.

(** ** setCapo *)

Section SetCapo.
Context `{Tag.Methods}.
Import Song.

Lemma replay_line_nofind (find : Item -> bool) (upd : Item -> option Item) its :
  forallb (fun item => negb (find item)) its = true ->
  forall st : bool,
    View.replay_line (fun item found =>
                        if find item then (upd item, true)
                        else (Some item, found)) its st = (its, st).
Proof.
  induction its as [|item its IH]; intros N st; simpl; [easy|].
  simpl in N. apply andb_true_iff in N as [N1 N2].
  apply negb_true_iff in N1. rewrite N1. now rewrite (IH N2).
Qed.

Lemma replay_nofind (find : Item -> bool) (upd : Item -> option Item) ll :
  forallb (forallb (fun item => negb (find item))) ll = true ->
  forall st : bool,
    View.replay (fun item found =>
                   if find item then (upd item, true)
                   else (Some item, found)) ll st = (ll, st).
Proof.
  induction ll as [|its ll IH]; intros N st; simpl; [easy|].
  simpl in N. apply andb_true_iff in N as [N1 N2].
  rewrite (replay_line_nofind find upd its N1). now rewrite (IH N2).
Qed.

Lemma mapM_getLine h ls lns :
  View.all_lines h ls = Some lns -> mapM getLine ls h = Ok (lns, h).
Proof.
  revert lns. induction ls as [|l ls IH]; intros lns; simpl.
  - now intros [= <-].
  - destruct (lineobjs h !! l) as [line|] eqn:El; [|discriminate].
    destruct (View.all_lines h ls) as [rest|]; [|discriminate].
    intros [= <-].
    erewrite run_bind by (apply getLine_run; exact El).
    erewrite run_bind by (apply IH; reflexivity). reflexivity.
Qed.

Lemma slice_split {A} (l : list A) (i : Z) (x : A) :
  Array.slice l 0 (Some i) ++ x :: Array.slice l i None
  = take (Array.clamp (length l) i) l ++ x
    :: drop (Array.clamp (length l) i) l.
Proof.
  unfold Array.slice. simpl Array.clamp at 1.
  replace (Array.clamp (length l) 0) with 0 by (unfold Array.clamp; simpl; lia).
  rewrite Nat.sub_0_r, drop_0. do 2 f_equal.
  apply take_ge. rewrite length_drop. lia.
Qed.

Lemma all_lines_app h a b :
  View.all_lines h (a ++ b)
  = match View.all_lines h a, View.all_lines h b with
    | Some x, Some y => Some (x ++ y)
    | _, _ => None
    end.
Proof.
  induction a as [|l a IH]; simpl.
  - now destruct (View.all_lines h b).
  - destruct (lineobjs h !! l); [|easy]. rewrite IH.
    destruct (View.all_lines h a); [|easy].
    now destruct (View.all_lines h b).
Qed.

Lemma all_lines_take_drop h ls lns k :
  View.all_lines h ls = Some lns ->
  View.all_lines h (take k ls) = Some (take k lns) /\
  View.all_lines h (drop k ls) = Some (drop k lns).
Proof.
  revert lns k. induction ls as [|l ls IH]; intros lns k; simpl.
  - intros [= <-]. now destruct k.
  - destruct (lineobjs h !! l) as [line|] eqn:El; [|discriminate].
    destruct (View.all_lines h ls) as [rest|] eqn:Er; [|discriminate].
    intros [= <-]. destruct k as [|k]; simpl.
    + now rewrite El, Er.
    + rewrite El. destruct (IH rest k eq_refl) as [-> ->]. easy.
Qed.

Lemma all_lines_same h h' ls :
  lineobjs h = lineobjs h' -> View.all_lines h ls = View.all_lines h' ls.
Proof. intros E. induction ls as [|l ls IH]; simpl; [easy|]. now rewrite E, IH. Qed.

Lemma removeItem_unfold this : removeItem isCapo this = mapLines View.uncapo this.
Proof. reflexivity. Qed.

Lemma findIndex_none {A} (p : A -> bool) l :
  forallb (fun x => negb (p x)) l = true -> Array.findIndex p l = (-1)%Z.
Proof.
  induction l as [|x l IH]; simpl; [easy|].
  intros N. apply andb_true_iff in N as [N1 N2].
  apply negb_true_iff in N1. rewrite N1, (IH N2). reflexivity.
Qed.

Lemma uncapo_no_capo lns :
  View.no_capo (map Line.items lns) = true ->
  View.replay_lines View.uncapo lns = map Line.items lns.
Proof.
  induction lns as [|line lns IH]; simpl; [easy|].
  intros N. apply andb_true_iff in N as [N1 N2].
  unfold View.uncapo at 1. rewrite (findIndex_none _ _ N1). simpl.
  now rewrite (IH N2).
Qed.

Lemma findIndex_range {A} (p : A -> bool) l :
  (-1 <= Array.findIndex p l < Z.of_nat (length l))%Z.
Proof.
  induction l as [|x l IH]; simpl; [lia|].
  destruct (p x); [lia|].
  destruct (Array.findIndex p l <? 0)%Z eqn:E; lia.
Qed.

Lemma slice_from {A} (l : list A) (i : nat) :
  Array.slice l (Z.of_nat i) None = drop i l.
Proof.
  unfold Array.slice, Array.clamp.
  destruct (Z.ltb_spec (Z.of_nat i) 0); [lia|].
  rewrite Nat2Z.id. destruct (Nat.le_gt_cases i (length l)) as [Hi|Hi].
  - rewrite Nat.min_l by lia. apply take_ge. rewrite length_drop. lia.
  - rewrite Nat.min_r by lia. rewrite Nat.sub_diag. simpl.
    symmetry. apply drop_ge. lia.
Qed.

Lemma slice_upto {A} (l : list A) (i : nat) :
  Array.slice l 0 (Some (Z.of_nat i)) = take i l.
Proof.
  unfold Array.slice, Array.clamp. simpl.
  destruct (Z.ltb_spec (Z.of_nat i) 0); [lia|].
  rewrite Nat2Z.id, Nat.sub_0_r, drop_0.
  destruct (Nat.le_gt_cases i (length l)) as [Hi|Hi].
  - now rewrite Nat.min_l by lia.
  - rewrite Nat.min_r by lia. rewrite !take_ge by lia. reflexivity.
Qed.

(** Cutting a list at the index [findIndex] returns removes the first
    element that satisfies the predicate. *)
Lemma slices_remove_first {A} (p : A -> bool) (l : list A) :
  Array.findIndex p l <> (-1)%Z ->
  Array.slice l 0 (Some (Array.findIndex p l))
  ++ Array.slice l (Array.findIndex p l + 1) None
  = View.remove_first p l.
Proof.
  induction l as [|x l IH]; simpl; [easy|].
  destruct (p x) eqn:Px.
  - intros _. change 0%Z with (Z.of_nat 0). rewrite slice_upto.
    change (Z.of_nat 0 + 1)%Z with (Z.of_nat 1). now rewrite slice_from.
  - pose proof (findIndex_range p l) as Rg.
    destruct (Z.ltb_spec (Array.findIndex p l) 0); [easy|].
    intros _. assert (Array.findIndex p l <> (-1)%Z) as Ne by lia.
    specialize (IH Ne).
    remember (Array.findIndex p l) as i eqn:Ei.
    replace i with (Z.of_nat (Z.to_nat i)) in IH |- * by lia.
    replace (Z.of_nat (Z.to_nat i) + 1)%Z with (Z.of_nat (S (Z.to_nat i))) in * by lia.
    replace (Z.of_nat (S (Z.to_nat i)) + 1)%Z
      with (Z.of_nat (S (S (Z.to_nat i)))) by lia.
    rewrite slice_upto, slice_from in *. simpl. now rewrite IH.
Qed.

(** What [removeItem] makes of a Line: a Line without a capo tag is kept,
    a Line that only holds a capo tag is dropped, and any other Line loses
    its first capo tag. *)
Lemma uncapo_cases line :
  View.uncapo line
  = if forallb (fun item => negb (isCapo item)) (Line.items line) then Some line
    else if length (Line.items line) =? 1 then None
         else Some (Line.set line (View.remove_first isCapo (Line.items line))).
Proof.
  unfold View.uncapo.
  destruct (forallb _ (Line.items line)) eqn:N.
  - now rewrite (findIndex_none _ _ N).
  - assert (Array.findIndex isCapo (Line.items line) <> (-1)%Z) as Ne.
    { intros F. revert N F. clear.
      induction (Line.items line) as [|x l IH]; simpl; [easy|].
      destruct (isCapo x); simpl; [easy|].
      intros N. destruct (Z.ltb_spec (Array.findIndex isCapo l) 0).
      - intros _. apply IH; [exact N|].
        pose proof (findIndex_range isCapo l). lia.
      - pose proof (findIndex_range isCapo l). lia. }
    destruct (Z.eqb_spec (Array.findIndex isCapo (Line.items line)) (-1)); [lia|].
    destruct (length (Line.items line) =? 1); [reflexivity|].
    now rewrite slices_remove_first.
Qed.

Lemma replay_lines_app func a b :
  View.replay_lines func (a ++ b)
  = View.replay_lines func a ++ View.replay_lines func b.
Proof.
  induction a as [|l a IH]; simpl; [easy|].
  destruct (func l); simpl; now rewrite IH.
Qed.

(** [clone()] on a store. *)
Lemma clone_run h this ll :
  View.song_items h this = Some ll ->
  exists h',
    clone this h = Ok (length (songs h), h') /\
    View.building h h' (length (songs h)) ll.
Proof.
  intros V.
  destruct (mapItems_total_run (fun x => x) h this ll V) as (h' & R & B).
  rewrite map_map_id in B. exists h'. split; [|exact B].
  unfold clone. erewrite run_bind by exact R. reflexivity.
Qed.

(** [insertDirective(name, value)] on a Song under construction: the
    result is a third Song, whose Lines are new ones with the same items
    and, somewhere among them, a new Line that holds the directive. *)
Lemma insertDirective_run h0 h c ll name value :
  View.building h0 h c ll ->
  exists h' sc k line lns,
    insertDirective name value None c h = Ok (length (songs h), h') /\
    View.extends h h' /\
    songs h' !! length (songs h) = Some sc /\
    length (songs h') = S (length (songs h)) /\
    View.all_lines h' (lines sc) = Some (take k lns ++ [line] ++ drop k lns) /\
    map Line.items lns = ll /\
    Line.items line = [ITag (Tag.new name value)].
Proof.
  intros B.
  destruct (building_song _ _ _ _ B) as (sc0 & E0 & _ & L0).
  destruct (building_lines _ _ _ _ B) as (lns0 & V0 & M0 & _).
  pose proof V0 as V0'. unfold View.song_lines in V0'. rewrite E0 in V0'.
  set (line := Line.addTag (Tag.new name value) Line.new).
  set (h1 := {| songs := songs h; lineobjs := lineobjs h ++ [line] |}).
  assert (View.extends h h1) as X1.
  { split; simpl; [reflexivity | now apply prefix_app_r]. }
  assert (View.song_items h1 c = Some ll) as V1.
  { eapply song_items_extends; [exact X1|].
    unfold View.song_items. rewrite V0. simpl. now rewrite M0. }
  destruct (clone_run h1 c ll V1) as (h2 & R2 & B2).
  destruct (building_song _ _ _ _ B2) as (sc2 & E2 & S2 & L2).
  destruct (building_lines _ _ _ _ B2) as (lns & V2 & M2 & O2).
  pose proof V2 as V2'. unfold View.song_lines in V2'. rewrite E2 in V2'.
  eexists _, _, _, line, lns.
  split.
  { unfold insertDirective.
    erewrite run_bind by (apply getSong_run; exact E0).
    erewrite run_bind by (apply mapM_getLine; exact V0').
    erewrite run_bind by reflexivity. fold line h1.
    erewrite run_bind by exact R2.
    erewrite run_bind by (apply getSong_run; exact E2).
    erewrite run_bind by reflexivity. reflexivity. }
  simpl.
  split.
  { split; simpl.
    - rewrite S2. simpl. rewrite insert_snoc. now apply prefix_app_r.
    - rewrite O2. simpl. rewrite <- app_assoc. now apply prefix_app_r. }
  split.
  { rewrite S2. simpl. apply list_lookup_insert_eq.
    rewrite length_app. simpl. lia. }
  split.
  { rewrite length_insert, S2, length_app. simpl. lia. }
  split.
  { cbn [lines with_lines]. rewrite slice_split.
    match goal with
    | |- context [take ?n (lines sc2)] =>
        destruct (all_lines_take_drop h2 _ _ n V2') as [T D]
    end.
    erewrite all_lines_same with (h' := h2) by reflexivity.
    change (?a ++ ?x :: ?b) with (a ++ [x] ++ b).
    rewrite !all_lines_app, T, D. simpl.
    rewrite O2. simpl. rewrite <- app_assoc. simpl.
    rewrite lookup_app_r by lia. rewrite Nat.sub_diag. reflexivity. }
  split; [exact M2 | reflexivity].
Qed.

Lemma prefix_insert_ge {A} (l l2 : list A) i x :
  l `prefix_of` l2 -> length l <= i -> l `prefix_of` <[i := x]> l2.
Proof.
  intros [k ->] Hi. rewrite insert_app_r_alt by lia. now apply prefix_app_r.
Qed.

(** [setCapo(capo)] on a Song without a capo tag: a new Song with the
    same items, Line by Line, and one more Line that holds the capo
    directive. *)
Lemma setCapo_insert_run v h this ll :
  View.song_items h this = Some ll ->
  View.no_capo ll = true ->
  exists c1 h1 sc1 k line lns,
    setCapo (Some v) this h = Ok (c1, h1) /\
    View.extends h h1 /\
    songs h1 !! c1 = Some sc1 /\
    View.all_lines h1 (lines sc1) = Some (take k lns ++ [line] ++ drop k lns) /\
    map Line.items lns = ll /\
    Line.items line = [ITag (Tag.new CAPO (Some v))] /\
    Metadata.get "capo" (metadata sc1) = Some [v].
Proof.
  intros V N.
  set (upd := fun item : Item =>
                match item with
                | ITag tag => Some (ITag (Tag.set tag v))
                | IPair _ => Some item
                end).
  destruct (mapItems_run
              (fun item (found : bool) =>
                 if isCapo item then (upd item, true) else (Some item, found))
              false h this ll V) as (h1 & R1 & B1).
  rewrite (replay_nofind isCapo upd ll N) in R1, B1. simpl in R1, B1.
  destruct (insertDirective_run _ _ _ _ CAPO (Some v) B1)
    as (h2 & sc2 & k & line & lns & R2 & X2 & E2 & Len2 & A2 & M2 & I2).
  pose proof (metadata_set_run h2 _ sc2 "capo" (Some v) E2) as R3.
  eexists _, _, _, k, line, lns.
  split.
  { unfold setCapo, updateItem. fold upd.
    erewrite run_bind.
    2:{ erewrite run_bind by exact R1. simpl. exact R2. }
    erewrite run_bind by exact R3. reflexivity. }
  split.
  { pose proof (building_extends _ _ _ _ B1) as X1.
    destruct (extends_trans _ _ _ X1 X2) as [P1 P2].
    split; simpl; [|exact P2].
    apply prefix_insert_ge; [exact P1|].
    destruct X1 as [[k1 ->] _]. rewrite length_app. lia. }
  split.
  { simpl. apply list_lookup_insert_eq. eapply lookup_lt_Some; exact E2. }
  split.
  { simpl. erewrite all_lines_same with (h' := h2) by reflexivity. exact A2. }
  split; [exact M2|]. split; [exact I2|].
  simpl. apply metadata_get_replace.
Qed.

(** [setCapo(null)]: a new Song with the Lines that [removeItem] keeps,
    and no metadata entry for capo. *)
Lemma setCapo_null_run h this lns :
  View.song_lines h this = Some lns ->
  exists c h' sc,
    setCapo None this h = Ok (c, h') /\
    c = length (songs h) /\
    View.extends h h' /\
    songs h' !! c = Some sc /\
    View.song_items h' c = Some (View.replay_lines View.uncapo lns) /\
    Metadata.get "capo" (metadata sc) = None.
Proof.
  intros V.
  destruct (mapLines_run View.uncapo h this lns V) as (h1 & R1 & B1).
  destruct (building_metadata_set _ _ _ _ "capo" None B1)
    as (h2 & sc & R2 & B2 & E2 & G2).
  exists (length (songs h)), h2, sc.
  split.
  { unfold setCapo. rewrite removeItem_unfold.
    erewrite run_bind by exact R1.
    erewrite run_bind by exact R2. reflexivity. }
  split; [reflexivity|].
  split; [eapply building_extends; exact B2|].
  split; [exact E2|].
  split; [eapply building_items; exact B2 | exact G2].
Qed.

Lemma remove_first_single {A} (p : A -> bool) l :
  length (List.filter p l) <= 1 ->
  forallb (fun x => negb (p x)) (View.remove_first p l) = true.
Proof.
  induction l as [|x l IH]; simpl; [easy|].
  destruct (p x) eqn:Px; simpl.
  - intros Hc. assert (List.filter p l = []) as E
        by (destruct (List.filter p l); [easy | simpl in Hc; lia]).
    clear IH Hc. induction l as [|y l IH]; simpl in *; [easy|].
    destruct (p y); [discriminate|]. simpl. now apply IH.
  - intros Hc. rewrite Px. simpl. now apply IH.
Qed.

(** When no Line holds more than one capo tag, no capo tag is left in what
    [removeItem] keeps. *)
Lemma uncapo_single lns :
  forallb (fun line => length (List.filter isCapo (Line.items line)) <=? 1) lns
  = true ->
  View.no_capo (View.replay_lines View.uncapo lns) = true.
Proof.
  induction lns as [|line lns IH]; simpl; [easy|].
  intros Hc. apply andb_true_iff in Hc as [H1 H2].
  apply Nat.leb_le in H1. rewrite uncapo_cases.
  destruct (forallb _ (Line.items line)) eqn:N; simpl.
  - rewrite N. simpl. now apply IH.
  - destruct (length (Line.items line) =? 1); simpl; [now apply IH|].
    rewrite (remove_first_single _ _ H1). simpl. now apply IH.
Qed.

(** X12.  [setCapo(null)] on a Song of which no Line holds more than one
    capo tag: the result holds no capo tag, its metadata has no entry for
    capo, and no object of the store is changed. *)
Lemma setCapo_null_removes_single_capos h this lns :
  View.song_lines h this = Some lns ->
  forallb (fun line => length (List.filter isCapo (Line.items line)) <=? 1) lns
  = true ->
  exists c h' sc ll',
    setCapo None this h = Ok (c, h') /\
    View.extends h h' /\
    songs h' !! c = Some sc /\
    View.song_items h' c = Some ll' /\
    View.no_capo ll' = true /\
    Metadata.get "capo" (metadata sc) = None.
Proof.
  intros V Hc.
  destruct (setCapo_null_run h this lns V)
    as (c & h' & sc & R & _ & X & E & I & G).
  exists c, h', sc, (View.replay_lines View.uncapo lns).
  split; [exact R|]. split; [exact X|]. split; [exact E|].
  split; [exact I|]. split; [now apply uncapo_single | exact G].
Qed.

Lemma no_capo_take_drop ll k :
  View.no_capo ll = true -> View.no_capo (take k ll) = true /\ View.no_capo (drop k ll) = true.
Proof.
  unfold View.no_capo. revert k. induction ll as [|its ll IH]; intros k N.
  - now destruct k.
  - simpl in N. apply andb_true_iff in N as [N1 N2].
    destruct k as [|k]; simpl.
    + now rewrite N1, N2.
    + rewrite N1. simpl. now apply IH.
Qed.

Lemma uncapo_inserted k line lns v :
  View.no_capo (map Line.items lns) = true ->
  Line.items line = [ITag (Tag.new CAPO (Some v))] ->
  View.replay_lines View.uncapo (take k lns ++ [line] ++ drop k lns)
  = map Line.items lns.
Proof.
  intros N I.
  destruct (no_capo_take_drop _ k N) as [N1 N2].
  rewrite firstn_map in N1. rewrite skipn_map in N2.
  rewrite !replay_lines_app, (uncapo_no_capo _ N1), (uncapo_no_capo _ N2).
  simpl. unfold View.uncapo at 1. rewrite I. simpl.
  rewrite <- map_app. now rewrite take_drop.
Qed.

Lemma count_inserted {A} (f : A -> list Item) k (x : A) (l : list A) :
  length (concat (map f (take k l ++ [x] ++ drop k l)))
  = length (f x) + length (concat (map f l)).
Proof.
  rewrite <- (take_drop k l) at 3.
  rewrite !map_app, !concat_app, !length_app. simpl.
  rewrite app_nil_r. lia.
Qed.

(** C4, as amended.  For a Song without a capo tag,
    [setCapo(3)] returns a Song with one item more, the capo directive,
    and [setCapo(null)] on that Song returns a Song that has, Line by
    Line, the items of the Song again: the directive that was inserted is
    removed with its Line, the item count is that of the Song, and the
    metadata has no entry for capo. *)
Theorem setCapo_round_trip (h : heap) (this : nat) (ll : list (list Item)) :
  View.song_items h this = Some ll ->
  View.no_capo ll = true ->
  exists c1 h1 ll1 c2 h2 sc2 ll2,
    setCapo (Some (VNum 3)) this h = Ok (c1, h1) /\
    View.song_items h1 c1 = Some ll1 /\
    length (concat ll1) = S (length (concat ll)) /\
    setCapo None c1 h1 = Ok (c2, h2) /\
    songs h2 !! c2 = Some sc2 /\
    View.song_items h2 c2 = Some ll2 /\
    ll2 = ll /\
    length (concat ll2) = length (concat ll) /\
    Metadata.get "capo" (metadata sc2) = None /\
    View.song_items h2 this = Some ll.
Proof.
  intros V N.
  destruct (setCapo_insert_run (VNum 3) h this ll V N)
    as (c1 & h1 & sc1 & k & line & lns & R1 & X1 & E1 & A1 & M1 & I1 & _).
  assert (View.song_lines h1 c1 = Some (take k lns ++ [line] ++ drop k lns))
    as V1 by (unfold View.song_lines; now rewrite E1).
  destruct (setCapo_null_run h1 c1 _ V1) as (c2 & h2 & sc2 & R2 & _ & X2 & E2 & V2 & G2).
  rewrite <- M1 in N. rewrite (uncapo_inserted k line lns _ N I1), M1 in V2.
  exists c1, h1, (map Line.items (take k lns ++ [line] ++ drop k lns)),
    c2, h2, sc2, ll.
  split; [exact R1|].
  split; [unfold View.song_items; now rewrite V1|].
  split; [rewrite count_inserted, I1, M1; reflexivity|].
  split; [exact R2|]. split; [exact E2|]. split; [exact V2|].
  split; [reflexivity|]. split; [reflexivity|]. split; [exact G2|].
  eapply song_items_extends; [|exact V].
  eapply extends_trans; eassumption.
Qed.

End SetCapo.

(** ** Sections and warnings *)

Section Sections.
Context `{Tag.Methods}.
Import Song.

Lemma dispatch_section tag this :
  Tag.isMetaTag tag = false ->
  String.eqb (Tag.name tag) TRANSPOSE = false ->
  String.eqb (Tag.name tag) NEW_KEY = false ->
  View.dispatch tag this = setSectionTypeFromTag tag this.
Proof. intros A B C. unfold View.dispatch. now rewrite A, B, C. Qed.

Lemma addTag_end_run h this s l line tag opening closing T :
  In (opening, closing, T) View.section_tags ->
  Tag.name tag = closing -> Tag.isMetaTag tag = false ->
  songs h !! this = Some s -> currentLine s = Some l ->
  lineobjs h !! l = Some line ->
  addTag (inr tag) this h
  = Ok (tag, View.touch h this l (View.ended s T tag) (Line.addTag tag line)).
Proof.
  intros Hin N M E Hc El. rewrite addTag_unfold.
  assert (View.dispatch tag this h
          = Ok (tt, View.touch h this l (View.ended s T tag) line)) as D.
  { assert (endSection T tag this h
            = Ok (tt, View.touch h this l (View.ended s T tag) line)) as R.
    { erewrite endSection_run by eassumption. unfold View.touch.
      now rewrite (list_insert_id _ _ _ El). }
    simpl in Hin.
    destruct Hin as [[= <- <- <-]|[[= <- <- <-]|[[= <- <- <-]|[]]]];
      (rewrite dispatch_section; [|exact M|now rewrite N..]);
      unfold setSectionTypeFromTag; rewrite N; exact R. }
  assert (currentLine (View.ended s T tag) = Some l) as Hc'.
  { pose proof (checked_fields s T tag) as (_ & C2 & _).
    unfold View.ended. simpl. now rewrite C2. }
  erewrite run_bind by exact D.
  erewrite run_bind
    by (eapply ensureLine_cur; [eapply touch_song; eassumption | exact Hc']).
  erewrite run_bind
    by (eapply onCurrentLine_run;
        [eapply touch_song; eassumption | exact Hc'
        | eapply touch_line; eassumption]).
  now rewrite touch_touch, run_ret.
Qed.

Lemma addTag_start_run h this s l line tag opening closing T :
  In (opening, closing, T) View.section_tags ->
  Tag.name tag = opening -> Tag.isMetaTag tag = false ->
  songs h !! this = Some s -> currentLine s = Some l ->
  lineobjs h !! l = Some line ->
  addTag (inr tag) this h
  = Ok (tag, View.touch h this l (View.started s T tag)
               (Line.addTag tag (Line.with_type line T))).
Proof.
  intros Hin N M E Hc El. rewrite addTag_unfold.
  assert (View.dispatch tag this h
          = Ok (tt, View.touch h this l (View.started s T tag)
                      (Line.with_type line T))) as D.
  { pose proof (startSection_run h this s l line T tag E Hc El) as R.
    simpl in Hin.
    destruct Hin as [[= <- <- <-]|[[= <- <- <-]|[[= <- <- <-]|[]]]];
      (rewrite dispatch_section; [|exact M|now rewrite N..]);
      unfold setSectionTypeFromTag; rewrite N; exact R. }
  assert (currentLine (View.started s T tag) = Some l) as Hc'.
  { pose proof (checked_fields s NONE tag) as (_ & C2 & _).
    unfold View.started. simpl. now rewrite C2. }
  erewrite run_bind by exact D.
  erewrite run_bind
    by (eapply ensureLine_cur; [eapply touch_song; eassumption | exact Hc']).
  erewrite run_bind
    by (eapply onCurrentLine_run;
        [eapply touch_song; eassumption | exact Hc'
        | eapply touch_line; eassumption]).
  now rewrite touch_touch, run_ret.
Qed.

Lemma addItem_pair_run h this s l line p :
  songs h !! this = Some s -> currentLine s = Some l ->
  lineobjs h !! l = Some line ->
  addItem (IPair p) this h
  = Ok (tt, View.touch h this l s (Line.addItem (IPair p) line)).
Proof.
  intros E Hc El. unfold addItem.
  erewrite run_bind by (eapply ensureLine_cur; eassumption).
  now erewrite onCurrentLine_run by eassumption.
Qed.

Lemma addPairs_run h this s l pairs :
  songs h !! this = Some s -> currentLine s = Some l ->
  forall line,
    lineobjs h !! l = Some line ->
    foldM (fun (_ : unit) p => addItem (IPair p) this) tt pairs h
    = Ok (tt, View.touch h this l s
                (Line.with_items line (Line.items line ++ map IPair pairs))).
Proof.
  intros E Hc. revert h E.
  induction pairs as [|p pairs IH]; intros h E line El; cbn [foldM].
  - rewrite run_ret, app_nil_r. f_equal. f_equal. symmetry.
    destruct line. now apply touch_id.
  - erewrite run_bind by (eapply addItem_pair_run; eassumption).
    erewrite IH;
      [|eapply touch_song; eassumption | eapply touch_line; eassumption].
    rewrite touch_touch. simpl. now rewrite <- app_assoc.
Qed.


End Sections.

(** ** paragraphs *)

Section Paragraphs.
Context `{Line.Methods}.

Lemma paragraphs_fold h ls :
  forall lns acc,
    View.all_lines h ls = Some lns ->
    foldM (fun paragraphs line =>
             l ← Song.getLine line;
             if Line.isEmpty l then mret (paragraphs ++ [Paragraph.new])
             else if Line.hasRenderableItems l
                  then mret (Song.addToLast line paragraphs)
                  else mret paragraphs) acc ls h
    = Ok (fold_left View.paragraph_step (zip ls lns) acc, h).
Proof.
  induction ls as [|l ls IH]; intros lns acc V; simpl in V.
  - injection V as <-. reflexivity.
  - destruct (Song.lineobjs h !! l) as [line|] eqn:El; [|discriminate].
    destruct (View.all_lines h ls) as [rest|] eqn:Er; [|discriminate].
    injection V as <-. cbn [foldM zip zip_with fold_left].
    erewrite run_bind.
    2:{ erewrite run_bind by (apply getLine_run; exact El).
        instantiate (1 := h). instantiate (1 := View.paragraph_step acc (l, line)).
        unfold View.paragraph_step. simpl.
        destruct (Line.isEmpty line); [reflexivity|].
        destruct (Line.hasRenderableItems line); reflexivity. }
    now apply IH.
Qed.

Lemma addToLast_snoc l pre cur :
  Song.addToLast l (pre ++ [cur]) = pre ++ [Paragraph.addLine l cur].
Proof.
  unfold Song.addToLast. rewrite reverse_snoc. now rewrite reverse_involutive.
Qed.

Lemma groups_nonempty ls : View.groups ls <> [].
Proof.
  induction ls as [|[l line] ls IH]; simpl; [easy|].
  destruct (Line.isEmpty line); [easy|].
  destruct (View.groups ls); easy.
Qed.

Lemma fold_groups ls :
  forall pre cur,
    map Paragraph.lines (fold_left View.paragraph_step ls (pre ++ [cur]))
    = map Paragraph.lines pre
      ++ match View.groups ls with
         | g :: gs => (Paragraph.lines cur ++ g) :: gs
         | [] => []
         end.
Proof.
  induction ls as [|[l line] ls IH]; intros pre cur; simpl.
  - rewrite map_app. simpl. now rewrite app_nil_r.
  - unfold View.paragraph_step at 2. simpl.
    destruct (Line.isEmpty line).
    + rewrite (IH (pre ++ [cur]) Paragraph.new).
      pose proof (groups_nonempty ls).
      destruct (View.groups ls) as [|g gs]; [easy|].
      rewrite map_app. simpl. rewrite app_nil_r, <- app_assoc. reflexivity.
    + pose proof (groups_nonempty ls).
      destruct (Line.hasRenderableItems line).
      * rewrite addToLast_snoc, IH.
        destruct (View.groups ls) as [|g gs]; [easy|].
        simpl. now rewrite <- app_assoc.
      * rewrite IH. now destruct (View.groups ls).
Qed.

Lemma groups_length ls :
  length (View.groups ls)
  = S (length (List.filter (fun l => Line.isEmpty (snd l)) ls)).
Proof.
  induction ls as [|[l line] ls IH]; simpl; [easy|].
  destruct (Line.isEmpty line); simpl; [now rewrite IH|].
  pose proof (groups_nonempty ls).
  destruct (View.groups ls); [easy|]. exact IH.
Qed.

Lemma groups_concat ls :
  concat (View.groups ls)
  = map fst (List.filter (fun l => negb (Line.isEmpty (snd l))
                                   && Line.hasRenderableItems (snd l)) ls).
Proof.
  induction ls as [|[l line] ls IH]; simpl; [easy|].
  destruct (Line.isEmpty line); simpl; [exact IH|].
  pose proof (groups_nonempty ls).
  destruct (View.groups ls) as [|g gs]; [easy|].
  destruct (Line.hasRenderableItems line); simpl in *; now rewrite <- IH.
Qed.

(** C9.  [paragraphs] partitions the Lines of the Song, in order, into
    groups: a new group starts at every empty Line, which joins neither
    group, and a Line without renderable items is left out.  There is one
    paragraph more than there are empty Lines, and the paragraphs hold, in
    order, the Lines that are neither empty nor without renderable items.
    For a non-empty Line, an empty Line and two non-empty Lines (the
    non-empty ones renderable) there are exactly two paragraphs: the first
    Line alone, then the last two. *)
Theorem paragraphs_groups_lines (h : Song.heap) (this : nat) (s : Song.t)
        (lns : list Line.t) :
  Song.songs h !! this = Some s ->
  View.all_lines h (Song.lines s) = Some lns ->
  exists ps,
    Song.paragraphs this h = Ok (ps, h) /\
    map Paragraph.lines ps = View.groups (zip (Song.lines s) lns) /\
    length ps = S (length (List.filter Line.isEmpty lns)) /\
    concat (map Paragraph.lines ps)
    = map fst (List.filter (fun l => negb (Line.isEmpty (snd l))
                                     && Line.hasRenderableItems (snd l))
                           (zip (Song.lines s) lns)) /\
    (forall a e b c la le lb lc,
        Song.lines s = [a; e; b; c] -> lns = [la; le; lb; lc] ->
        Line.isEmpty la = false -> Line.hasRenderableItems la = true ->
        Line.isEmpty le = true ->
        Line.isEmpty lb = false -> Line.hasRenderableItems lb = true ->
        Line.isEmpty lc = false -> Line.hasRenderableItems lc = true ->
        map Paragraph.lines ps = [[a]; [b; c]]).
Proof.
  intros E V.
  exists (fold_left View.paragraph_step (zip (Song.lines s) lns) [Paragraph.new]).
  assert (map Paragraph.lines
            (fold_left View.paragraph_step (zip (Song.lines s) lns) [Paragraph.new])
          = View.groups (zip (Song.lines s) lns)) as G.
  { rewrite (fold_groups _ [] Paragraph.new). simpl.
    pose proof (groups_nonempty (zip (Song.lines s) lns)).
    now destruct (View.groups _). }
  split.
  { unfold Song.paragraphs.
    erewrite run_bind by (apply getSong_run; exact E).
    now apply paragraphs_fold. }
  split; [exact G|].
  split.
  { rewrite <- (length_map Paragraph.lines), G, groups_length. f_equal.
    clear G E. revert lns V.
    induction (Song.lines s) as [|l ls IH]; intros lns V; simpl in V.
    - now injection V as <-.
    - destruct (Song.lineobjs h !! l); [|discriminate].
      destruct (View.all_lines h ls) as [rest|]; [|discriminate].
      injection V as <-. simpl.
      destruct (Line.isEmpty t); simpl; now rewrite (IH rest). }
  split; [rewrite G; apply groups_concat|].
  intros a e b c la le lb lc L1 L2 A1 A2 E1 B1 B2 C1 C2.
  rewrite G, L1, L2. simpl. now rewrite A1, A2, E1, B1, B2, C1, C2.
Qed.

End Paragraphs.

(** ** The parser: the check of [songLine] *)

Section SongLine.
Context `{Tag.Methods} `{Line.Methods} `{UltimateGuitarParser.Environment}.
Import UltimateGuitarParser.

Lemma safe_ret {A} (Q : A -> Prop) (a : A) : Q a -> View.safe Q (mret a).
Proof. intros q h. exact q. Qed.

Lemma safe_bind {A B} (P : A -> Prop) (Q : B -> Prop)
      (m : M Song.heap A) (f : A -> M Song.heap B) :
  View.safe P m -> (forall a, P a -> View.safe Q (f a)) -> View.safe Q (m ≫= f).
Proof.
  intros Sm Sf h. unfold mbind, M_bind, bind. specialize (Sm h).
  destruct (m h) as [[a h1]|e]; [|exact Sm]. now apply Sf.
Qed.

Lemma safe_weaken {A} (P Q : A -> Prop) (m : M Song.heap A) :
  View.safe P m -> (forall a, P a -> Q a) -> View.safe Q m.
Proof.
  intros Sm W h. specialize (Sm h). destruct (m h) as [[a h1]|e]; auto.
Qed.

Lemma safe_TypeError {A} (Q : A -> Prop) msg : View.safe Q (throw (TypeError msg)).
Proof. intros h. reflexivity. Qed.

Lemma safe_getSong this : View.safe (fun _ => True) (Song.getSong this).
Proof. intros h. unfold Song.getSong. now destruct (_ !! _). Qed.

Lemma safe_getLine l : View.safe (fun _ => True) (Song.getLine l).
Proof. intros h. unfold Song.getLine. now destruct (_ !! _). Qed.

Lemma safe_putSong this s : View.safe (fun _ => True) (Song.putSong this s).
Proof. intros h. exact I. Qed.

Lemma safe_putLine l line : View.safe (fun _ => True) (Song.putLine l line).
Proof. intros h. exact I. Qed.

Lemma safe_newLine line : View.safe (fun _ => True) (Song.newLine line).
Proof. intros h. exact I. Qed.

Lemma safe_external {A} what (f : Song.heap -> option (A * Song.heap)) :
  View.safe (fun _ => True) (external what f).
Proof. intros h. unfold external. now destruct (f h) as [[a h1]|]. Qed.

Ltac safe_step :=
  first
    [ apply safe_getSong | apply safe_getLine | apply safe_putSong
    | apply safe_putLine | apply safe_newLine | apply safe_external
    | apply safe_TypeError
    | apply safe_ret; exact I
    | eapply (safe_bind (fun _ => True)); [|intros ? _]
    | match goal with
      | |- View.safe _ (if ?b then _ else _) => destruct b
      | |- View.safe _ (match ?o with _ => _ end) => destruct o
      end ].

Ltac safe_all := repeat safe_step.

Lemma safe_setCurrentLineType st this :
  View.safe (fun _ => True) (Song.setCurrentLineType st this).
Proof. unfold Song.setCurrentLineType. safe_all. Qed.

Lemma safe_addLine line this : View.safe (fun _ => True) (Song.addLine line this).
Proof.
  unfold Song.addLine, Song.pushNew. safe_all; apply safe_setCurrentLineType.
Qed.

Lemma safe_addTag tc this : View.safe (fun _ => True) (Song.addTag tc this).
Proof.
  unfold Song.addTag, Song.setMetadata, Song.setSectionTypeFromTag,
    Song.startSection, Song.endSection, Song.checkCurrentSectionType,
    Song.addWarning, Song.ensureLine, Song.onCurrentLine.
  safe_all; first [apply safe_setCurrentLineType | apply safe_addLine].
Qed.

Lemma safe_startNewLine p :
  View.safe (fun p' => is_Some (songLine p')) (startNewLine p).
Proof.
  unfold startNewLine. eapply (safe_bind (fun _ => True)).
  - apply safe_addLine.
  - intros l _. apply safe_ret. simpl. eauto.
Qed.

Lemma safe_endSection addNewLine p :
  is_Some (songLine p) ->
  View.safe (fun p' => is_Some (songLine p')) (endSection addNewLine p).
Proof.
  intros Sp. unfold endSection, song_setCurrentProperties.
  eapply (safe_bind (fun p' => is_Some (songLine p'))).
  - destruct (currentSectionType p) as [st|]; [|now apply safe_ret].
    destruct (endSectionTags st); [|now apply safe_ret].
    eapply (safe_bind (fun _ => True)); [apply safe_addTag|].
    intros _ _. destruct addNewLine; [apply safe_startNewLine|now apply safe_ret].
  - intros p' Sp'. eapply (safe_bind (fun _ => True)); [apply safe_external|].
    intros _ _. now apply safe_ret.
Qed.

Lemma safe_startSection st label p :
  is_Some (songLine p) ->
  View.safe (fun p' => is_Some (songLine p')) (startSection st label p).
Proof.
  intros Sp. unfold startSection, song_setCurrentProperties.
  eapply (safe_bind (fun p' => is_Some (songLine p'))).
  - destruct (truthy _); [now apply safe_endSection|now apply safe_ret].
  - intros p' Sp'. eapply (safe_bind (fun _ => True)); [apply safe_external|].
    intros _ _. destruct (startSectionTags st); [|now apply safe_ret].
    eapply (safe_bind (fun _ => True)); [apply safe_addTag|].
    intros _ _. now apply safe_ret.
Qed.

Lemma safe_onSongLine m p :
  is_Some (songLine p) -> View.safe (fun _ => True) (onSongLine m p).
Proof.
  intros [l E]. unfold onSongLine. rewrite E. safe_all.
Qed.

Lemma safe_match1 r line : View.safe (fun _ => True) (match1 r line).
Proof. unfold match1. safe_all. Qed.

Lemma safe_raises {A} (Q : A -> Prop) (m : M Song.heap A) h :
  View.safe Q m -> View.raises_songLine_missing (m h) = false.
Proof. intros Sm. specialize (Sm h). now destruct (m h) as [[a h1]|e]. Qed.

Lemma safe_checked {A} (m : Line.t -> Line.t) (mp : M Song.heap t) (k : t -> A) :
  View.safe (fun p' => is_Some (songLine p')) mp ->
  View.safe (fun _ => True) (p' ← mp; onSongLine m p';; mret (k p')).
Proof.
  intros Sm. eapply safe_bind; [exact Sm|]. intros p' Sp'.
  eapply (safe_bind (fun _ => True)); [now apply safe_onSongLine|].
  intros _ _. now apply safe_ret.
Qed.

(** C10.  In the branch for a chord line with a repetition marker, in
    [parseMetadataLine] and in [writeTabLine], the exception "Expected
    this.songLine to be present" is never raised, whatever the parser, the
    store and the line are: [startNewLine()] has been called before the
    check and what follows it keeps [songLine].  On a parser whose Song is
    in the store, [addLine()] returns the Line it has made the current Line
    of the Song, and [startNewLine()] makes it [songLine]. *)
Theorem songLine_check_never_fails (line : string) (p : t) (h : Song.heap) :
  View.raises_songLine_missing (parseRepetitionLine line p h) = false /\
  View.raises_songLine_missing (parseMetadataLine line p h) = false /\
  View.raises_songLine_missing (writeTabLine line p h) = false /\
  (forall s,
      Song.songs h !! song p = Some s ->
      exists l h' s',
        Song.addLine None (song p) h = Ok (l, h') /\
        Song.songs h' !! song p = Some s' /\
        Song.currentLine s' = Some l /\
        startNewLine p h = Ok (with_songLine p (Some l), h') /\
        songLine (with_songLine p (Some l)) = Some l).
Proof.
  split; [|split; [|split]].
  - eapply (safe_raises (fun _ => True)). unfold parseRepetitionLine.
    destruct (Regex.match_all REPETITION_REGEX line) as [[|rep0 rest]|];
      try apply safe_TypeError.
    apply (safe_checked _ (startNewLine p) (fun p' => p')).
    apply safe_startNewLine.
  - eapply (safe_raises (fun _ => True)). unfold parseMetadataLine.
    eapply (safe_bind (fun p' => is_Some (songLine p')));
      [apply safe_startNewLine|]. intros p1 S1.
    eapply (safe_bind (fun p' => is_Some (songLine p')));
      [now apply safe_endSection|]. intros p2 S2.
    eapply (safe_bind (fun _ => True)); [apply safe_match1|]. intros c _.
    eapply (safe_bind (fun _ => True)); [now apply safe_onSongLine|].
    intros _ _. now apply safe_ret.
  - eapply (safe_raises (fun _ => True)). unfold writeTabLine.
    eapply (safe_bind (fun p' => is_Some (songLine p')));
      [apply safe_startNewLine|]. intros p1 S1.
    apply (safe_checked _ _ (fun p' => p')).
    destruct (negb _); [|now apply safe_ret].
    eapply (safe_bind (fun p' => is_Some (songLine p')));
      [apply safe_startNewLine|]. intros p2 S2.
    now apply safe_startSection.
  - intros s E. pose proof (addLine_run h (song p) s E) as R.
    eexists _, _, _. split; [exact R|].
    split; [simpl; apply list_lookup_insert_eq; eapply lookup_lt_Some; exact E|].
    split; [reflexivity|]. split; [|reflexivity].
    unfold startNewLine. erewrite run_bind by exact R. reflexivity.
Qed.

End SongLine.

(** ** The parser: tablature and repetition lines *)

Section ParserRuns.
Context `{Tag.Methods} `{Line.Methods} `{UltimateGuitarParser.Environment}.
Import UltimateGuitarParser.

Hypothesis stamps : ParserView.stamps_current_line.

Lemma startNewLine_run p h s :
  Song.songs h !! song p = Some s ->
  exists h',
    startNewLine p h = Ok (with_songLine p (Some (length (Song.lineobjs h))), h') /\
    ParserView.on_fresh_line h' (with_songLine p (Some (length (Song.lineobjs h)))).
Proof.
  intros E. pose proof (addLine_run h (song p) s E) as R.
  eexists. split.
  { unfold startNewLine. erewrite run_bind by exact R. reflexivity. }
  eexists _, _, _. simpl. split.
  { apply list_lookup_insert_eq. eapply lookup_lt_Some; exact E. }
  split; [reflexivity|]. split; [reflexivity|].
  split; [apply lookup_snoc | reflexivity].
Qed.

Lemma setCurrentProperties_run st p h s l line :
  Song.songs h !! song p = Some s -> Song.currentLine s = Some l ->
  Song.lineobjs h !! l = Some line ->
  exists line',
    song_setCurrentProperties st p h
    = Ok (tt, View.touch h (song p) l s line') /\
    Line.items line' = Line.items line.
Proof.
  intros E Hc El. destruct (stamps st (song p) h s l line E Hc El) as (line' & R & I).
  exists line'. split; [|exact I].
  unfold song_setCurrentProperties, external. now rewrite R.
Qed.

(** [endSection()] on a parser whose Song has a current Line: either no
    directive is emitted, and only fields of the current Line other than
    its items change; or the directive is emitted, and the parser is on a
    new Line.  The section is closed in both cases. *)
Lemma parser_endSection_run p h s l line :
  Song.songs h !! song p = Some s -> Song.currentLine s = Some l ->
  Song.lineobjs h !! l = Some line ->
  exists p' h',
    endSection true p h = Ok (p', h') /\
    song p' = song p /\ currentSectionType p' = None /\
    ((songLine p' = songLine p /\
      exists line', h' = View.touch h (song p) l s line' /\
                    Line.items line' = Line.items line)
     \/ ParserView.on_fresh_line h' p').
Proof.
  intros E Hc El. unfold endSection.
  assert (exists p1 h1 s1 l1 line1,
             match currentSectionType p with
             | Some st =>
                 match endSectionTags st with
                 | Some name =>
                     Song.addTag (inr (Tag.new name None)) (song p);;
                     startNewLine p
                 | None => mret p
                 end
             | None => mret p
             end h = Ok (p1, h1) /\
             song p1 = song p /\
             Song.songs h1 !! song p = Some s1 /\
             Song.currentLine s1 = Some l1 /\
             Song.lineobjs h1 !! l1 = Some line1 /\
             ((p1 = p /\ h1 = h /\ s1 = s /\ l1 = l /\ line1 = line)
              \/ ParserView.on_fresh_line h1 p1)) as (p1 & h1 & s1 & l1 & line1 & R1 & Sg & E1 & Hc1 & El1 & Cases).
  { assert (exists p1 h1 s1 l1 line1,
               (mret p : M Song.heap t) h = Ok (p1, h1) /\
               song p1 = song p /\
               Song.songs h1 !! song p = Some s1 /\
               Song.currentLine s1 = Some l1 /\
               Song.lineobjs h1 !! l1 = Some line1 /\
               ((p1 = p /\ h1 = h /\ s1 = s /\ l1 = l /\ line1 = line)
                \/ ParserView.on_fresh_line h1 p1)) as Same.
    { exists p, h, s, l, line. rewrite run_ret. repeat split; auto.
      left. repeat split. }
    destruct (currentSectionType p) as [st|]; [|exact Same].
    destruct (endSectionTags st) as [name|]; [|exact Same].
    destruct (addTag_cur h (song p) s l line (Tag.new name None) E Hc El)
      as (s0 & line0 & R0 & A0 & B0 & C0).
    assert (Song.songs (View.touch h (song p) l s0 line0) !! song p = Some s0)
      as E0 by (eapply touch_song; exact E).
    destruct (startNewLine_run p _ s0 E0) as (h1 & R1 & F1).
    pose proof F1 as (s1 & l1 & line1 & E1 & Sl1 & Hc1 & El1 & I1).
    eexists _, h1, s1, l1, line1. split.
    { erewrite run_bind by exact R0. exact R1. }
    simpl in *. repeat split; auto. }
  rewrite <- Sg in E1.
  destruct (setCurrentProperties_run NONE p1 h1 s1 l1 line1 E1 Hc1 El1)
    as (line' & R2 & I2).
  eexists _, _. split.
  { erewrite run_bind by exact R1. erewrite run_bind by exact R2. reflexivity. }
  simpl. split; [exact Sg|]. split; [reflexivity|].
  destruct Cases as [(-> & -> & -> & -> & ->)|F1].
  - left. split; [reflexivity|]. exists line'. easy.
  - right. destruct F1 as (s2 & l2 & line2 & F1 & F2 & F3 & F4 & F5).
    assert (s2 = s1) as -> by congruence.
    assert (l2 = l1) as -> by congruence.
    assert (line2 = line1) as -> by congruence.
    exists s1, l1, line'.
    split; [exact (touch_song h1 (song p1) l1 s1 line' s1 F1)|].
    split; [exact F2|]. split; [exact F3|].
    split; [exact (touch_line h1 (song p1) l1 s1 line' line1 F4)|].
    now rewrite I2.
Qed.

Lemma fresh_after_endSection p h :
  ParserView.on_fresh_line h p ->
  exists p' h',
    endSection true p h = Ok (p', h') /\
    song p' = song p /\ currentSectionType p' = None /\
    ParserView.on_fresh_line h' p'.
Proof.
  intros (s & l & line & E & Sl & Hc & El & I).
  destruct (parser_endSection_run p h s l line E Hc El)
    as (p' & h' & R & Sg & Cs & [(Sl' & line' & -> & I')|F]).
  - exists p', (View.touch h (song p) l s line'). repeat split; try easy.
    exists s, l, line'. rewrite Sg, Sl'.
    split; [exact (touch_song h (song p) l s line' s E)|].
    split; [exact Sl|]. split; [exact Hc|].
    split; [exact (touch_line h (song p) l s line' line El)|].
    now rewrite I'.
  - exists p', h'. easy.
Qed.

(** [startSection(sectionType, label)] on a parser that is on a Line
    without items: the section is open and the parser is on a Line that
    holds the start-of-section directive and nothing else. *)
Lemma parser_startSection_run T name label p h :
  ParserView.on_fresh_line h p ->
  startSectionTags T = Some name ->
  exists p' h' s l line,
    startSection T label p h = Ok (p', h') /\
    song p' = song p /\ currentSectionType p' = Some T /\
    Song.songs h' !! song p' = Some s /\ songLine p' = Some l /\
    Song.currentLine s = Some l /\ Song.lineobjs h' !! l = Some line /\
    Line.items line = [ITag (Tag.new name (Some (VStr label)))].
Proof.
  intros F Hn. unfold startSection.
  assert (exists p1 h1,
             (if truthy (option_map VStr (currentSectionType p))
              then endSection true p else mret p) h = Ok (p1, h1) /\
             song p1 = song p /\ ParserView.on_fresh_line h1 p1)
    as (p1 & h1 & R1 & Sg1 & F1).
  { destruct (truthy _).
    - destruct (fresh_after_endSection p h F) as (p1 & h1 & R & Sg & _ & F1).
      eauto.
    - exists p, h. now rewrite run_ret. }
  destruct F1 as (s1 & l1 & line1 & E1 & Sl1 & Hc1 & El1 & I1).
  set (p2 := with_currentSectionType p1 (Some T)).
  destruct (setCurrentProperties_run T p2 h1 s1 l1 line1 E1 Hc1 El1)
    as (line2 & R2 & I2).
  set (h2 := View.touch h1 (song p2) l1 s1 line2) in *.
  pose proof (touch_song h1 (song p2) l1 s1 line2 s1 E1) as E2.
  pose proof (touch_line h1 (song p2) l1 s1 line2 line1 El1) as El2.
  fold h2 in E2, El2.
  destruct (addTag_cur h2 (song p2) s1 l1 line2
              (Tag.new name (Some (VStr label))) E2 Hc1 El2)
    as (s3 & line3 & R3 & A3 & B3 & C3).
  exists p2, (View.touch h2 (song p2) l1 s3 line3), s3, l1, line3.
  split.
  { erewrite run_bind by exact R1. fold p2.
    erewrite run_bind by exact R2. rewrite Hn.
    erewrite run_bind by exact R3. reflexivity. }
  split; [exact Sg1|]. split; [reflexivity|].
  split; [exact (touch_song h2 (song p2) l1 s3 line3 s1 E2)|].
  split; [exact Sl1|]. split; [exact B3|].
  split; [exact (touch_line h2 (song p2) l1 s3 line3 line2 El2)|].
  now rewrite C3, I2, I1.
Qed.

Lemma onSongLine_run m p h l line :
  songLine p = Some l -> Song.lineobjs h !! l = Some line ->
  onSongLine m p h
  = Ok (tt, {| Song.songs := Song.songs h;
               Song.lineobjs := <[l := m line]> (Song.lineobjs h) |}).
Proof.
  intros Sl El. unfold onSongLine. rewrite Sl.
  erewrite run_bind by (apply getLine_run; exact El). reflexivity.
Qed.


Lemma ready_song h p :
  ParserView.ready h p = true ->
  exists s, Song.songs h !! song p = Some s /\
            (forall l, l ∈ Song.lines s -> l < length (Song.lineobjs h)) /\
            (forall l, songLine p = Some l ->
                       l < length (Song.lineobjs h) /\
                       exists c line, Song.currentLine s = Some c /\
                                      Song.lineobjs h !! c = Some line).
Proof.
  unfold ParserView.ready.
  destruct (Song.songs h !! song p) as [s|]; [|discriminate].
  intros R. apply andb_true_iff in R as [R R3].
  apply andb_true_iff in R as [R1 R2].
  exists s. split; [reflexivity|]. split.
  - intros l Hl. rewrite forallb_forall in R1.
    apply list_elem_of_In in Hl. specialize (R1 l Hl).
    now apply Nat.ltb_lt in R1.
  - intros l Sl. rewrite Sl in R3. apply andb_true_iff in R3 as [R3 R4].
    apply Nat.ltb_lt in R3. split; [exact R3|].
    destruct (Song.currentLine s) as [c|]; [|discriminate].
    apply Nat.ltb_lt in R2. destruct (lookup_lt_is_Some_2 _ _ R2) as [line El].
    eauto.
Qed.

(** [isSectionEnd()] only reads the store. *)
Lemma isSectionEnd_run h p :
  ParserView.ready h p = true ->
  exists b, isSectionEnd p h = Ok (b, h) /\ (b = true -> is_Some (songLine p)).
Proof.
  intros R. destruct (ready_song h p R) as (s & E & V & Sl).
  unfold isSectionEnd. destruct (songLine p) as [l|].
  2:{ exists false. now rewrite run_ret. }
  destruct (Sl l eq_refl) as (Hl & _).
  destruct (lookup_lt_is_Some_2 _ _ Hl) as [line El].
  erewrite run_bind by (apply getLine_run; exact El).
  destruct (Line.isEmpty line).
  2:{ exists false. now rewrite run_ret. }
  assert (exists prev, Song.previousLine (song p) h = Ok (prev, h) /\
                       forall pl, prev = Some pl -> pl < length (Song.lineobjs h))
    as (prev & Rp & Vp).
  { unfold Song.previousLine.
    erewrite run_bind by (apply getSong_run; exact E).
    destruct (2 <=? length (Song.lines s)).
    - eexists. rewrite run_ret. split; [reflexivity|].
      intros pl Epl. apply V. eapply list_elem_of_lookup_2. exact Epl.
    - exists None. now rewrite run_ret. }
  erewrite run_bind by exact Rp.
  destruct prev as [pl|].
  2:{ exists false. now rewrite run_ret. }
  destruct (lookup_lt_is_Some_2 _ _ (Vp pl eq_refl)) as [pline Epl].
  erewrite run_bind by (apply getLine_run; exact Epl).
  eexists. rewrite run_ret. split; [reflexivity|]. eauto.
Qed.

(** The first step of [parseLine]: the section is closed when the parser
    is on an empty Line after a Line that is not empty. *)
Lemma section_end_run h p :
  ParserView.ready h p = true ->
  exists b p1 h1 s1,
    isSectionEnd p h = Ok (b, h) /\
    (if b then endSection true p else mret p) h = Ok (p1, h1) /\
    song p1 = song p /\
    Song.songs h1 !! song p1 = Some s1 /\
    currentSectionType p1 = (if b then None else currentSectionType p).
Proof.
  intros R. destruct (isSectionEnd_run h p R) as (b & Rb & Hb).
  destruct (ready_song h p R) as (s & E & V & Sl).
  exists b. destruct b.
  - destruct (Hb eq_refl) as [l El].
    destruct (Sl l El) as (_ & c & line & Hc & Ec).
    destruct (parser_endSection_run p h s c line E Hc Ec)
      as (p1 & h1 & R1 & Sg & Cs & Cases).
    exists p1, h1.
    assert (exists s1, Song.songs h1 !! song p1 = Some s1) as [s1 E1].
    { destruct Cases as [(_ & line' & -> & _)|(s1 & l1 & line1 & E1 & _)].
      - exists s. rewrite Sg. exact (touch_song h (song p) c s line' s E).
      - eauto. }
    exists s1. easy.
  - exists p, h, s. now rewrite run_ret.
Qed.

Lemma length_of_chars l : String.length (JsString.of_chars l) = length l.
Proof. induction l as [|a l IH]; simpl; [easy|]. now rewrite IH. Qed.

Lemma dashes_removed line :
  String.length line - String.length (JsString.removeAll line "-")
  = View.dashes line.
Proof.
  unfold JsString.removeAll, View.dashes, JsString.chars.
  rewrite <- (string_of_list_ascii_of_string line) at 1.
  fold (JsString.of_chars (list_ascii_of_string line)).
  rewrite !length_of_chars.
  induction (list_ascii_of_string line) as [|a l IH]; simpl; [easy|].
  destruct (Ascii.eqb a "-"); simpl; [|exact IH].
  assert (length (List.filter (fun a0 => negb (Ascii.eqb a0 "-")) l) <= length l)
    by apply List.filter_length_le.
  lia.
Qed.


Lemma length_repeat_space n : String.length (JsString.repeat " " n) = n.
Proof. induction n as [|n IH]; simpl; [easy|]. now rewrite IH. Qed.

Lemma length_string_app (a b : string) :
  String.length (a ++ b)%string = String.length a + String.length b.
Proof. induction a as [|c a IH]; simpl; [easy|]. now rewrite IH. Qed.

(** C8, as amended.  [parseLine("Am C G 2x")] returns, and the parser is
    then on a new Line that holds a single ChordLyricsPair: its chords are
    the line with the marker "2x" replaced by two spaces, and its lyrics
    are as many spaces as the chords are long (nine) followed by the
    marker "2x". *)
Theorem repetition_marker_becomes_lyrics (p : t) (h : Song.heap) :
  ParserView.ready h p = true ->
  exists p' h' l newLine,
    parseLine "Am C G 2x" p h = Ok (p', h') /\
    songLine p' = Some l /\
    Song.lineobjs h' !! l = Some newLine /\
    Line.items newLine
    = [IPair {| ChordLyricsPair.chords := Some "Am C G   ";
                ChordLyricsPair.lyrics := Some "         2x" |}] /\
    "Am C G   " = JsString.replace "Am C G 2x" "2x" (JsString.repeat " " 2) /\
    "         2x"
    = (JsString.repeat " " (String.length "Am C G   ") ++ "2x")%string.
Proof.
  intros R.
  destruct (section_end_run h p R) as (b & p1 & h1 & s1 & Rb & R1 & Sg & E1 & Cs).
  destruct (startNewLine_run p1 h1 s1 E1) as (h2 & R2 & F2).
  set (p2 := with_songLine p1 (Some (length (Song.lineobjs h1)))) in *.
  destruct F2 as (s2 & l2 & line2 & E2 & Sl2 & Hc2 & El2 & I2).
  eexists p2, _, l2, _. split.
  { unfold parseLine. erewrite run_bind by exact Rb.
    erewrite run_bind by exact R1.
    assert (Regex.test VERSE_LINE_REGEX "Am C G 2x" = false) as ->
        by (vm_compute; reflexivity).
    assert (Regex.test CHORUS_LINE_REGEX "Am C G 2x" = false) as ->
        by (vm_compute; reflexivity).
    assert (Regex.test OTHER_METADATA_LINE_REGEX "Am C G 2x" = false) as ->
        by (vm_compute; reflexivity).
    assert ((8 <? String.length "Am C G 2x")
            && (5 <? String.length "Am C G 2x"
                     - String.length (JsString.removeAll "Am C G 2x" "-"))
            = false) as -> by (vm_compute; reflexivity).
    assert (Regex.delete_all REPETITION_REGEX "Am C G 2x" = "Am C G ") as ->
        by (vm_compute; reflexivity).
    assert (Regex.test CHORD_LINE_REGEX "Am C G " = true) as ->
        by (vm_compute; reflexivity).
    unfold parseRepetitionLine.
    assert (Regex.match_all REPETITION_REGEX "Am C G 2x" = Some ["2x"]) as ->
        by (vm_compute; reflexivity).
    cbn [andb length Nat.ltb Nat.leb].
    erewrite run_bind by exact R2. fold p2.
    erewrite run_bind by (eapply onSongLine_run; eassumption).
    reflexivity. }
  split; [exact Sl2|].
  split; [simpl; apply list_lookup_insert_eq; eapply lookup_lt_Some; exact El2|].
  split; [simpl; rewrite I2; vm_compute; reflexivity|].
  split; vm_compute; reflexivity.
Qed.

End ParserRuns.

(** ** More of Song: Lines, sections and the key context *)

Section MoreSong.
Context `{Tag.Methods} `{Line.Methods}.
Import Song.

Lemma section_tag_names opening closing T :
  In (opening, closing, T) View.section_tags ->
  String.eqb opening TRANSPOSE = false /\ String.eqb opening NEW_KEY = false /\
  String.eqb closing TRANSPOSE = false /\ String.eqb closing NEW_KEY = false.
Proof.
  intros I. simpl in I.
  destruct I as [I|[I|[I|[]]]]; inversion I; subst; now vm_compute.
Qed.

Lemma setSectionTypeFromTag_start tag opening closing T this :
  In (opening, closing, T) View.section_tags ->
  Tag.name tag = opening ->
  setSectionTypeFromTag tag this = startSection T tag this.
Proof.
  intros I N. unfold setSectionTypeFromTag. rewrite N. simpl in I.
  destruct I as [I|[I|[I|[]]]]; inversion I; subst; reflexivity.
Qed.

Lemma setSectionTypeFromTag_end tag opening closing T this :
  In (opening, closing, T) View.section_tags ->
  Tag.name tag = closing ->
  setSectionTypeFromTag tag this = endSection T tag this.
Proof.
  intros I N. unfold setSectionTypeFromTag. rewrite N. simpl in I.
  destruct I as [I|[I|[I|[]]]]; inversion I; subst; reflexivity.
Qed.


(** [addLine(line)] with a Line. *)
Lemma addLine_given_run h this s l line :
  songs h !! this = Some s -> lineobjs h !! l = Some line ->
  addLine (Some l) this h
  = Ok (l, View.touch h this l (with_currentLine s (Some l))
             (Line.with_keys (Line.with_type line (sectionType s))
                (match transposeKey s with Some k => Some k | None => currentKey s end)
                (if truthy (currentKey s) then currentKey s
                 else Metadata.getSingle KEY (metadata s)))).
Proof.
  intros E El. pose proof (lookup_lt_Some _ _ _ E) as Hlt.
  pose proof (lookup_lt_Some _ _ _ El) as Hl.
  destruct h as [ss ls]; simpl in *.
  unfold addLine, setCurrentLineType, View.touch. mexec.
  rewrite E. lk. rewrite El. lk. reflexivity.
Qed.

(** X1.  On a Song that has no current Line, [addItem] of a
    start-of-section directive throws a TypeError: [startSection] sets the
    type of the current Line before [ensureLine] is reached.  [addItem] of
    an end-of-section directive on the same Song returns: it creates one
    Line, of type NONE, that holds the directive and is the last and the
    current Line of the Song, whose section type is NONE. *)
Theorem addItem_start_tag_needs_current_line
        (h : heap) (this : nat) (s : Song.t) (opening closing T : string)
        (start_tag end_tag : Tag.t) :
  In (opening, closing, T) View.section_tags ->
  Tag.name start_tag = opening -> Tag.isMetaTag start_tag = false ->
  Tag.name end_tag = closing -> Tag.isMetaTag end_tag = false ->
  songs h !! this = Some s -> currentLine s = None ->
  (exists msg, addItem (ITag start_tag) this h = Err (TypeError msg)) /\
  (exists h' s' line,
      addItem (ITag end_tag) this h = Ok (tt, h') /\
      songs h' !! this = Some s' /\
      lines s' = lines s ++ [length (lineobjs h)] /\
      currentLine s' = Some (length (lineobjs h)) /\
      sectionType s' = NONE /\
      lineobjs h' = lineobjs h ++ [line] /\
      Line.items line = [ITag end_tag] /\ Line.type line = NONE).
Proof.
  intros Hin N1 M1 N2 M2 E Hc.
  destruct (section_tag_names _ _ _ Hin) as (A1 & A2 & A3 & A4).
  pose proof (lookup_lt_Some _ _ _ E) as Hlt.
  split.
  - destruct (startSection_null h this s T start_tag E Hc) as (msg & R).
    exists msg. unfold addItem. rewrite addTag_unfold.
    rewrite dispatch_section by (rewrite ?N1; assumption).
    rewrite (setSectionTypeFromTag_start _ _ _ _ _ Hin N1).
    apply run_bind_err. apply run_bind_err. exact R.
  - set (s1 := View.ended s T end_tag).
    set (h1 := {| songs := <[this := s1]> (songs h); lineobjs := lineobjs h |}).
    assert (songs h1 !! this = Some s1) as E1.
    { simpl. now apply list_lookup_insert_eq. }
    assert (currentLine s1 = None) as Hc1.
    { pose proof (checked_fields s T end_tag) as (_ & C2 & _).
      unfold s1, View.ended. simpl. now rewrite C2. }
    pose proof (addLine_run h1 this s1 E1) as R2.
    match type of R2 with _ = Ok (_, ?x) => set (h2 := x) in * end.
    set (s2 := with_currentLine (with_lines s1 (lines s1 ++ [length (lineobjs h)]))
                 (Some (length (lineobjs h)))) in *.
    assert (songs h2 !! this = Some s2) as E2.
    { unfold h2. simpl. rewrite list_insert_insert_eq.
      now apply list_lookup_insert_eq. }
    assert (lineobjs h2 !! length (lineobjs h) = Some (View.stamped s1)) as El2.
    { unfold h2. simpl. apply lookup_snoc. }
    exists (View.touch h2 this (length (lineobjs h)) s2
              (Line.addTag end_tag (View.stamped s1))), s2,
      (Line.addTag end_tag (View.stamped s1)).
    split.
    { unfold addItem. rewrite addTag_unfold.
      rewrite dispatch_section by (rewrite ?N2; assumption).
      rewrite (setSectionTypeFromTag_end _ _ _ _ _ Hin N2).
      erewrite run_bind.
      2:{ erewrite run_bind by (eapply endSection_run; exact E).
          erewrite run_bind.
          2:{ unfold ensureLine.
              erewrite run_bind by (apply getSong_run; exact E1).
              rewrite Hc1. erewrite run_bind by exact R2. reflexivity. }
          erewrite run_bind
            by (eapply onCurrentLine_run; [exact E2 | reflexivity | exact El2]).
          reflexivity. }
      reflexivity. }
    split; [eapply touch_song; exact E2|].
    pose proof (checked_fields s T end_tag) as (C1 & _ & _).
    split; [unfold s2, s1, View.ended; simpl; now rewrite C1|].
    split; [reflexivity|]. split; [reflexivity|].
    split; [unfold h2; simpl; apply insert_snoc|].
    split; reflexivity.
Qed.


(** X2.  [addTag] of a start-of-section directive while a section is
    open (the section type of the Song is not NONE) records exactly one
    warning, which names the directive and the open section, and opens the
    new section all the same: the section type of the Song and the type of
    the current Line become the new one, the directive is appended to the
    current Line, and the Lines and the metadata of the Song are kept. *)
Theorem addTag_start_inside_section_warns
        (h : heap) (this l : nat) (s : Song.t) (line : Line.t)
        (opening closing T : string) (tag : Tag.t) :
  In (opening, closing, T) View.section_tags ->
  Tag.name tag = opening -> Tag.isMetaTag tag = false ->
  songs h !! this = Some s -> currentLine s = Some l ->
  lineobjs h !! l = Some line ->
  sectionType s <> NONE ->
  exists s' line',
    addTag (inr tag) this h = Ok (tag, View.touch h this l s' line') /\
    sectionType s' = T /\
    warnings s'
    = warnings s
      ++ [{| ParserWarning.message :=
               ("Unexpected tag {" ++ Tag.originalName tag
                  ++ ", current section is: " ++ sectionType s)%string;
             ParserWarning.line := Tag.line tag;
             ParserWarning.column := Tag.column tag |}] /\
    lines s' = lines s /\ currentLine s' = Some l /\ metadata s' = metadata s /\
    Line.type line' = T /\
    Line.items line' = Line.items line ++ [ITag tag].
Proof.
  intros Hin N M E Hc El S0.
  eexists _, _. split; [eapply addTag_start_run; eassumption|].
  apply String.eqb_neq in S0.
  unfold View.started, View.checked. rewrite S0. simpl.
  repeat split. exact Hc.
Qed.

(** X3.  A Line has the type of the section that is open when it is
    created, and the Line on which a section starts is retyped.  From a
    Song outside any section: after a start directive, a new Line, pairs,
    the end directive and another new Line, the Line of the start directive
    and the Line that holds the pairs and the end directive have the type of
    the section, the Line created afterwards has type NONE, both new Lines
    are appended to the Song, and no warning is recorded. *)
Theorem lines_take_type_of_open_section
        (h : heap) (this l0 : nat) (s : Song.t) (line0 : Line.t)
        (opening closing T : string) (start_tag end_tag : Tag.t)
        (pairs : list ChordLyricsPair.t) :
  In (opening, closing, T) View.section_tags ->
  Tag.name start_tag = opening -> Tag.isMetaTag start_tag = false ->
  Tag.name end_tag = closing -> Tag.isMetaTag end_tag = false ->
  songs h !! this = Some s -> currentLine s = Some l0 ->
  lineobjs h !! l0 = Some line0 ->
  sectionType s = NONE ->
  exists h' s' a b c,
    (addTag (inr start_tag) this;;
     l1 ← addLine None this;
     foldM (fun (_ : unit) p => addItem (IPair p) this) tt pairs;;
     addTag (inr end_tag) this;;
     l2 ← addLine None this;
     mret (l1, l2)) h
    = Ok ((length (lineobjs h), S (length (lineobjs h))), h') /\
    songs h' !! this = Some s' /\
    lines s' = lines s ++ [length (lineobjs h); S (length (lineobjs h))] /\
    warnings s' = warnings s /\ sectionType s' = NONE /\
    lineobjs h' !! l0 = Some a /\
    Line.type a = T /\ Line.items a = Line.items line0 ++ [ITag start_tag] /\
    lineobjs h' !! length (lineobjs h) = Some b /\
    Line.type b = T /\ Line.items b = map IPair pairs ++ [ITag end_tag] /\
    lineobjs h' !! S (length (lineobjs h)) = Some c /\
    Line.type c = NONE /\ Line.items c = [].
Proof.
  intros Hin N1 M1 N2 M2 E Hc El S0.
  pose proof (lookup_lt_Some _ _ _ E) as Hlt.
  pose proof (lookup_lt_Some _ _ _ El) as Hl0.
  pose proof (addTag_start_run h this s l0 line0 start_tag _ _ _ Hin N1 M1 E Hc El)
    as R1.
  assert (View.checked s NONE start_tag = s) as C0.
  { unfold View.checked. now rewrite S0, String.eqb_refl. }
  unfold View.started in R1. rewrite C0 in R1.
  set (s1 := with_sectionType s T) in *.
  set (a := Line.addTag start_tag (Line.with_type line0 T)) in *.
  set (h1 := View.touch h this l0 s1 a) in *.
  assert (songs h1 !! this = Some s1) as E1 by (eapply touch_song; eassumption).
  assert (length (lineobjs h1) = length (lineobjs h)) as Len1.
  { unfold h1. simpl. apply length_insert. }
  pose proof (addLine_run h1 this s1 E1) as R2. rewrite Len1 in R2.
  set (n := length (lineobjs h)) in *.
  set (s2 := with_currentLine (with_lines s1 (lines s1 ++ [n])) (Some n)) in *.
  match type of R2 with _ = Ok (_, ?x) => set (h2 := x) in * end.
  assert (songs h2 !! this = Some s2) as E2.
  { unfold h2. simpl. apply list_lookup_insert_eq.
    rewrite length_insert. exact Hlt. }
  assert (lineobjs h2 !! n = Some (View.stamped s1)) as El2.
  { unfold h2. simpl. rewrite <- Len1. apply lookup_snoc. }
  pose proof (addPairs_run h2 this s2 n pairs E2 eq_refl _ El2) as R3.
  set (b1 := Line.with_items (View.stamped s1)
               (Line.items (View.stamped s1) ++ map IPair pairs)) in *.
  set (h3 := View.touch h2 this n s2 b1) in *.
  assert (songs h3 !! this = Some s2) as E3 by (eapply touch_song; eassumption).
  assert (lineobjs h3 !! n = Some b1) as El3 by (eapply touch_line; eassumption).
  pose proof (addTag_end_run h3 this s2 n b1 end_tag _ _ _ Hin N2 M2 E3 eq_refl El3)
    as R4.
  assert (View.checked s2 T end_tag = s2) as C2.
  { unfold View.checked, s2, s1. simpl. now rewrite String.eqb_refl. }
  unfold View.ended in R4. rewrite C2 in R4.
  set (s4 := with_sectionType s2 NONE) in *.
  set (b := Line.addTag end_tag b1) in *.
  set (h4 := View.touch h3 this n s4 b) in *.
  assert (songs h4 !! this = Some s4) as E4 by (eapply touch_song; eassumption).
  assert (length (lineobjs h4) = S n) as Len4.
  { unfold h4, h3, h2. simpl. rewrite !length_insert, length_app, length_insert.
    simpl. unfold n. lia. }
  pose proof (addLine_run h4 this s4 E4) as R5. rewrite Len4 in R5.
  match type of R5 with _ = Ok (_, ?x) => set (h5 := x) in * end.
  exists h5, (with_currentLine (with_lines s4 (lines s4 ++ [S n])) (Some (S n))),
    a, b, (View.stamped s4).
  split.
  { erewrite run_bind by exact R1. erewrite run_bind by exact R2.
    erewrite run_bind by exact R3. erewrite run_bind by exact R4.
    erewrite run_bind by exact R5. reflexivity. }
  split.
  { unfold h5. simpl. apply list_lookup_insert_eq.
    eapply lookup_lt_Some. exact E4. }
  split; [simpl; now rewrite <- app_assoc|].
  split; [reflexivity|]. split; [reflexivity|].
  assert (l0 < n) as Hl by exact Hl0.
  split.
  { unfold h5, h4, h3, h2, h1. simpl.
    rewrite lookup_app_l by (rewrite !length_insert, length_app, length_insert; simpl; lia).
    rewrite !list_lookup_insert_ne by lia.
    rewrite lookup_app_l by (rewrite length_insert; lia).
    apply list_lookup_insert_eq. lia. }
  split; [reflexivity|]. split; [reflexivity|].
  split.
  { change (lineobjs h5) with (lineobjs h4 ++ [View.stamped s4]).
    rewrite lookup_app_l by (rewrite Len4; lia).
    eapply touch_line. exact El3. }
  split; [reflexivity|]. split; [reflexivity|].
  split.
  { change (lineobjs h5) with (lineobjs h4 ++ [View.stamped s4]).
    rewrite <- Len4. apply lookup_snoc. }
  split; reflexivity.
Qed.


Lemma addTag_put_run h this s l line tag s1 :
  songs h !! this = Some s -> currentLine s = Some l ->
  lineobjs h !! l = Some line ->
  currentLine s1 = Some l ->
  View.dispatch tag this h
  = Ok (tt, {| songs := <[this := s1]> (songs h); lineobjs := lineobjs h |}) ->
  addTag (inr tag) this h
  = Ok (tag, View.touch h this l s1 (Line.addTag tag line)).
Proof.
  intros E Hc El Hc1 D. pose proof (lookup_lt_Some _ _ _ E) as Hlt.
  rewrite addTag_unfold.
  erewrite run_bind by exact D.
  erewrite run_bind
    by (eapply ensureLine_cur; [simpl; now apply list_lookup_insert_eq | exact Hc1]).
  erewrite run_bind
    by (eapply onCurrentLine_run;
        [simpl; now apply list_lookup_insert_eq | exact Hc1 | exact El]).
  rewrite run_ret. unfold View.touch. simpl. now rewrite list_insert_insert_eq.
Qed.

(** X4.  A [new_key] or [transpose] directive that is not a meta tag is
    appended to the current Line, whose type and keys are kept, and changes
    the key context of the Lines created afterwards: after [new_key], a new
    Line has that key (the key of the metadata when the value is empty) and,
    unless a transpose key is set, that transpose key; after [transpose], a
    new Line has that transpose key and the key it would have had. *)
Theorem key_directives_stamp_later_lines
        (h : heap) (this l : nat) (s : Song.t) (line : Line.t) (tag : Tag.t) :
  Tag.isMetaTag tag = false ->
  Tag.name tag = NEW_KEY \/ Tag.name tag = TRANSPOSE ->
  songs h !! this = Some s -> currentLine s = Some l ->
  lineobjs h !! l = Some line ->
  exists h' s' old new,
    (addTag (inr tag) this;; addLine None this) h
    = Ok (length (lineobjs h), h') /\
    songs h' !! this = Some s' /\
    lineobjs h' !! l = Some old /\
    Line.items old = Line.items line ++ [ITag tag] /\
    Line.key old = Line.key line /\
    Line.transposeKey old = Line.transposeKey line /\
    Line.type old = Line.type line /\
    lineobjs h' !! length (lineobjs h) = Some new /\
    (Tag.name tag = NEW_KEY ->
     currentKey s' = Some (Tag.value tag) /\
     Line.key new
     = (if truthy (Some (Tag.value tag)) then Some (Tag.value tag)
        else Metadata.getSingle KEY (metadata s)) /\
     Line.transposeKey new
     = match transposeKey s with
       | Some k => Some k
       | None => Some (Tag.value tag)
       end) /\
    (Tag.name tag = TRANSPOSE ->
     transposeKey s' = Some (Tag.value tag) /\
     Line.transposeKey new = Some (Tag.value tag) /\
     Line.key new
     = (if truthy (currentKey s) then currentKey s
        else Metadata.getSingle KEY (metadata s))).
Proof.
  intros M N E Hc El.
  pose proof (lookup_lt_Some _ _ _ E) as Hlt.
  pose proof (lookup_lt_Some _ _ _ El) as Hl.
  set (s1 := if String.eqb (Tag.name tag) TRANSPOSE
             then with_transposeKey s (Some (Tag.value tag))
             else with_currentKey s (Some (Tag.value tag))).
  assert (currentLine s1 = Some l) as Hc1.
  { unfold s1. now destruct (String.eqb _ _). }
  assert (View.dispatch tag this h
          = Ok (tt, {| songs := <[this := s1]> (songs h);
                       lineobjs := lineobjs h |})) as D.
  { unfold View.dispatch, s1. rewrite M.
    destruct N as [N|N]; rewrite N; simpl;
      (erewrite run_bind by (apply getSong_run; exact E)); reflexivity. }
  pose proof (addTag_put_run h this s l line tag s1 E Hc El Hc1 D) as R1.
  set (old := Line.addTag tag line) in *.
  set (h1 := View.touch h this l s1 old) in *.
  assert (songs h1 !! this = Some s1) as E1 by (eapply touch_song; eassumption).
  assert (length (lineobjs h1) = length (lineobjs h)) as Len1.
  { unfold h1. simpl. apply length_insert. }
  pose proof (addLine_run h1 this s1 E1) as R2. rewrite Len1 in R2.
  match type of R2 with _ = Ok (_, ?x) => set (h2 := x) in * end.
  exists h2, (with_currentLine (with_lines s1 (lines s1 ++ [length (lineobjs h)]))
                (Some (length (lineobjs h)))), old, (View.stamped s1).
  split; [erewrite run_bind by exact R1; exact R2|].
  split.
  { unfold h2. simpl. apply list_lookup_insert_eq. now rewrite length_insert. }
  split.
  { unfold h2. simpl. rewrite lookup_app_l by (rewrite length_insert; lia).
    now apply list_lookup_insert_eq. }
  split; [reflexivity|]. split; [reflexivity|].
  split; [reflexivity|]. split; [reflexivity|].
  split.
  { unfold h2. simpl. rewrite <- Len1. apply lookup_snoc. }
  split; intros N'; unfold s1; rewrite N'; simpl; repeat split.
Qed.

(** X5.  [addLine(line)] with a Line adopts it: the Line becomes the
    current Line and is stamped with the section type and the key context
    of the Song, but it is not appended to [lines], and no Line is created.
    A pair added next goes to that Line. *)
Theorem addLine_adopts_without_appending
        (h : heap) (this l : nat) (s : Song.t) (line : Line.t)
        (p : ChordLyricsPair.t) :
  songs h !! this = Some s -> lineobjs h !! l = Some line ->
  exists h' s' line',
    (addLine (Some l) this;; addItem (IPair p) this) h = Ok (tt, h') /\
    songs h' !! this = Some s' /\
    lines s' = lines s /\ currentLine s' = Some l /\
    length (lineobjs h') = length (lineobjs h) /\
    lineobjs h' !! l = Some line' /\
    Line.items line' = Line.items line ++ [IPair p] /\
    Line.type line' = sectionType s /\
    Line.transposeKey line'
    = match transposeKey s with Some k => Some k | None => currentKey s end /\
    Line.key line'
    = (if truthy (currentKey s) then currentKey s
       else Metadata.getSingle KEY (metadata s)).
Proof.
  intros E El.
  pose proof (addLine_given_run h this s l line E El) as R1.
  match type of R1 with _ = Ok (_, View.touch _ _ _ ?a ?b) =>
    set (s1 := a) in *; set (line1 := b) in * end.
  set (h1 := View.touch h this l s1 line1) in *.
  assert (songs h1 !! this = Some s1) as E1 by (eapply touch_song; eassumption).
  assert (lineobjs h1 !! l = Some line1) as El1 by (eapply touch_line; eassumption).
  pose proof (addItem_pair_run h1 this s1 l line1 p E1 eq_refl El1) as R2.
  eexists _, s1, _.
  split; [erewrite run_bind by exact R1; exact R2|].
  split; [eapply touch_song; exact E1|].
  split; [reflexivity|]. split; [reflexivity|].
  split; [simpl; now rewrite !length_insert|].
  split; [eapply touch_line; exact El1|].
  repeat split.
Qed.


(** X6.  [ensureLine()] is idempotent: it returns, the Song has a
    current Line afterwards, and a second call changes nothing.  On a Song
    that has a current Line the first call changes nothing either; on a
    Song without one it creates exactly one Line, stamped with the section
    type and key context of the Song, as its last and current Line. *)
Theorem ensureLine_is_idempotent (h : heap) (this : nat) (s : Song.t) :
  songs h !! this = Some s ->
  exists h1 s1 l,
    ensureLine this h = Ok (tt, h1) /\
    ensureLine this h1 = Ok (tt, h1) /\
    (ensureLine this;; ensureLine this) h = Ok (tt, h1) /\
    songs h1 !! this = Some s1 /\ currentLine s1 = Some l /\
    (is_Some (currentLine s) -> h1 = h) /\
    (currentLine s = None ->
     l = length (lineobjs h) /\
     lines s1 = lines s ++ [l] /\
     lineobjs h1 = lineobjs h ++ [View.stamped s]).
Proof.
  intros E. pose proof (lookup_lt_Some _ _ _ E) as Hlt.
  destruct (currentLine s) as [l|] eqn:Hc.
  - pose proof (ensureLine_cur h this s l E Hc) as R.
    exists h, s, l. split; [exact R|]. split; [exact R|].
    split; [erewrite run_bind by exact R; exact R|].
    split; [exact E|]. split; [exact Hc|]. split; [reflexivity | discriminate].
  - pose proof (addLine_run h this s E) as R.
    match type of R with _ = Ok (_, ?x) => set (h1 := x) in * end.
    set (s1 := with_currentLine (with_lines s (lines s ++ [length (lineobjs h)]))
                 (Some (length (lineobjs h)))) in *.
    assert (songs h1 !! this = Some s1) as E1.
    { unfold h1. simpl. now apply list_lookup_insert_eq. }
    assert (ensureLine this h = Ok (tt, h1)) as R1.
    { unfold ensureLine. erewrite run_bind by (apply getSong_run; exact E).
      rewrite Hc. erewrite run_bind by exact R. reflexivity. }
    pose proof (ensureLine_cur h1 this s1 _ E1 eq_refl) as R2.
    exists h1, s1, (length (lineobjs h)).
    split; [exact R1|]. split; [exact R2|].
    split; [erewrite run_bind by exact R1; exact R2|].
    split; [exact E1|]. split; [reflexivity|].
    split; [intros [x Hx]; discriminate|].
    intros _. repeat split.
Qed.

End MoreSong.

(** ** More of the transformations *)

Section MoreMaps.
Context `{Tag.Methods}.
Import Song.

Lemma foldM_ext {S A B} (f g : B -> A -> M S B) l :
  (forall b a h, f b a h = g b a h) ->
  forall b h, foldM f b l h = foldM g b l h.
Proof.
  intros E. induction l as [|x l IH]; intros b h; cbn [foldM]; [reflexivity|].
  unfold mbind, M_bind, bind. rewrite E.
  destruct (g b x h) as [[b' h']|e]; [apply IH | reflexivity].
Qed.

Lemma lineStepL_items (func g : MapLinesCallback) c u line h :
  (forall l, option_map Line.items (g l) = option_map Line.items (func l)) ->
  View.lineStepL g c u line h = View.lineStepL func c u line h.
Proof.
  intros E. unfold View.lineStepL, mbind, M_bind, bind.
  destruct (getLine line h) as [[l h1]|e]; [|reflexivity].
  specialize (E l). destruct (g l) as [a|], (func l) as [b|]; simpl in E;
    try discriminate; [|reflexivity].
  injection E as ->. reflexivity.
Qed.

Lemma replay_lines_length func lns :
  length (View.replay_lines func lns)
  = length (List.filter (fun l => match func l with Some _ => true | None => false end) lns).
Proof.
  induction lns as [|l lns IH]; simpl; [easy|].
  destruct (func l); simpl; now rewrite IH.
Qed.

Lemma song_lines_extends h h' this lns :
  View.extends h h' -> View.song_lines h this = Some lns ->
  View.song_lines h' this = Some lns.
Proof.
  intros X V. unfold View.song_lines in *.
  destruct (songs h !! this) as [s|] eqn:E; [|discriminate].
  rewrite (extends_lookup_song _ _ _ _ X E).
  eapply all_lines_extends; eassumption.
Qed.

Lemma song_lines_lt h this lns :
  View.song_lines h this = Some lns -> this < length (songs h).
Proof.
  unfold View.song_lines. destruct (songs h !! this) eqn:E; [|discriminate].
  intros _. eapply lookup_lt_Some. exact E.
Qed.

(** X7.  [mapLines(func)] returns a new Song, changes no object of the
    store, and keeps one Line for every Line of the Song for which [func]
    returns a Line, in order, with the items of the Line returned; the Lines
    for which it returns [null] are dropped.  Only the items of the Line
    returned are read: a callback that returns Lines with the same items
    gives the same result. *)
Theorem mapLines_keeps_returned_lines
        (func g : MapLinesCallback) (h : heap) (this : nat) (lns : list Line.t) :
  View.song_lines h this = Some lns ->
  exists c h' ll',
    mapLines func this h = Ok (c, h') /\
    c = length (songs h) /\ c <> this /\
    View.extends h h' /\
    View.song_lines h' this = Some lns /\
    View.song_items h' c = Some ll' /\
    ll' = View.replay_lines func lns /\
    length ll'
    = length (List.filter (fun l => match func l with
                                    | Some _ => true
                                    | None => false
                                    end) lns) /\
    ((forall l, option_map Line.items (g l) = option_map Line.items (func l)) ->
     mapLines g this h = Ok (c, h')).
Proof.
  intros V.
  destruct (mapLines_run func h this lns V) as (h' & R & B).
  exists (length (songs h)), h', (View.replay_lines func lns).
  split; [exact R|]. split; [reflexivity|].
  split; [pose proof (song_lines_lt _ _ _ V); lia|].
  pose proof (building_extends _ _ _ _ B) as X.
  split; [exact X|].
  split; [eapply song_lines_extends; eassumption|].
  split; [eapply building_items; exact B|].
  split; [reflexivity|].
  split; [apply replay_lines_length|].
  intros E. rewrite <- R. rewrite !mapLines_unfold.
  unfold mbind, M_bind, bind.
  destruct (newSong Metadata.empty h) as [[c h1]|e]; [|reflexivity].
  destruct (getSong this h1) as [[s h2]|e]; [|reflexivity].
  rewrite (foldM_ext (View.lineStepL g c) (View.lineStepL func c)); [reflexivity|].
  intros b a h0. now apply lineStepL_items.
Qed.


Lemma findIndex_some {A} (p : A -> bool) l :
  forallb (fun x => negb (p x)) l = false -> Array.findIndex p l <> (-1)%Z.
Proof.
  induction l as [|x l IH]; simpl; [easy|].
  destruct (p x); simpl; [easy|].
  intros N. pose proof (findIndex_range p l) as Rg. specialize (IH N).
  destruct (Z.ltb_spec (Array.findIndex p l) 0); lia.
Qed.

Lemma remover_excise callback line :
  option_map Line.items (View.remover callback line)
  = View.excise callback (Line.items line).
Proof.
  unfold View.remover, View.excise.
  destruct (forallb _ (Line.items line)) eqn:N.
  - now rewrite (findIndex_none _ _ N).
  - pose proof (findIndex_some _ _ N) as Ne.
    destruct (Z.eqb_spec (Array.findIndex callback (Line.items line)) (-1)); [lia|].
    destruct (length (Line.items line) =? 1); [reflexivity|].
    simpl. now rewrite slices_remove_first.
Qed.

Lemma replay_lines_remover callback lns :
  View.replay_lines (View.remover callback) lns
  = omap (View.excise callback) (map Line.items lns).
Proof.
  unfold omap. induction lns as [|line lns IH]; simpl; [easy|].
  rewrite <- remover_excise.
  destruct (View.remover callback line); simpl; now rewrite IH.
Qed.

Lemma forallb_negb_existsb {A} (p : A -> bool) l :
  forallb (fun x => negb (p x)) l = negb (existsb p l).
Proof.
  induction l as [|x l IH]; simpl; [easy|].
  rewrite IH. now destruct (p x).
Qed.

Lemma remove_first_length {A} (p : A -> bool) l :
  existsb p l = true -> S (length (View.remove_first p l)) = length l.
Proof.
  induction l as [|x l IH]; simpl; [easy|].
  destruct (p x); simpl; [easy|]. intros E. now rewrite IH.
Qed.

Lemma excise_count callback ll :
  length (concat (omap (View.excise callback) ll))
  + length (List.filter (existsb callback) ll)
  = length (concat ll).
Proof.
  unfold omap. induction ll as [|its ll IH]; simpl; [easy|].
  unfold View.excise at 1. rewrite forallb_negb_existsb.
  destruct (existsb callback its) eqn:E; simpl.
  - destruct (Nat.eqb_spec (length its) 1) as [L|L]; simpl.
    + rewrite length_app, L. lia.
    + rewrite !length_app. pose proof (remove_first_length _ _ E). lia.
  - rewrite !length_app. lia.
Qed.

Lemma excise_lines callback ll :
  length (omap (View.excise callback) ll)
  + length (List.filter (fun its => existsb callback its && (length its =? 1)) ll)
  = length ll.
Proof.
  unfold omap. induction ll as [|its ll IH]; simpl; [easy|].
  unfold View.excise at 1. rewrite forallb_negb_existsb.
  destruct (existsb callback its); simpl; [|lia].
  destruct (length its =? 1); simpl; lia.
Qed.

(** X8.  [removeItem(callback)] returns a new Song and changes no object
    of the store.  A Line without an item that satisfies [callback] keeps
    its items; a Line whose only item satisfies it is dropped; any other
    Line loses the first item that satisfies it, and only that one.  So the
    number of items drops by the number of Lines that hold such an item,
    and the number of Lines by the number of Lines that hold nothing
    else. *)
Theorem removeItem_removes_first_match_per_line
        (callback : Item -> bool) (h : heap) (this : nat) (ll : list (list Item)) :
  View.song_items h this = Some ll ->
  exists c h' ll',
    removeItem callback this h = Ok (c, h') /\
    c = length (songs h) /\
    View.extends h h' /\
    View.song_items h' this = Some ll /\
    View.song_items h' c = Some ll' /\
    ll' = omap (View.excise callback) ll /\
    length (concat ll') + length (List.filter (existsb callback) ll)
    = length (concat ll) /\
    length ll'
    + length (List.filter (fun its => existsb callback its && (length its =? 1)) ll)
    = length ll.
Proof.
  intros V. unfold View.song_items in V.
  destruct (View.song_lines h this) as [lns|] eqn:VL; [|discriminate].
  simpl in V. injection V as <-.
  destruct (mapLines_run (View.remover callback) h this lns VL) as (h' & R & B).
  exists (length (songs h)), h', (omap (View.excise callback) (map Line.items lns)).
  split; [exact R|]. split; [reflexivity|].
  pose proof (building_extends _ _ _ _ B) as X.
  split; [exact X|].
  split.
  { eapply song_items_extends; [exact X|]. unfold View.song_items. now rewrite VL. }
  split.
  { rewrite <- replay_lines_remover. eapply building_items. exact B. }
  split; [reflexivity|].
  split; [apply excise_count | apply excise_lines].
Qed.


Lemma replay_line_recapo v its :
  forall st : bool,
    View.replay_line
      (fun item found =>
         if isCapo item
         then (match item with
               | ITag tag => Some (ITag (Tag.set tag v))
               | IPair _ => Some item
               end, true)
         else (Some item, found)) its st
    = (map (View.recapo v) its, st || existsb isCapo its).
Proof.
  induction its as [|item its IH]; intros st; simpl.
  - now rewrite orb_false_r.
  - destruct item as [tag|p]; simpl.
    + destruct (String.eqb (Tag.name tag) CAPO); rewrite IH; simpl;
        [now rewrite orb_true_r | reflexivity].
    + rewrite IH. reflexivity.
Qed.

Lemma replay_recapo v ll :
  forall st : bool,
    View.replay
      (fun item found =>
         if isCapo item
         then (match item with
               | ITag tag => Some (ITag (Tag.set tag v))
               | IPair _ => Some item
               end, true)
         else (Some item, found)) ll st
    = (map (map (View.recapo v)) ll, st || existsb (existsb isCapo) ll).
Proof.
  induction ll as [|its ll IH]; intros st; simpl.
  - now rewrite orb_false_r.
  - rewrite replay_line_recapo, IH. now rewrite orb_assoc.
Qed.

Lemma no_capo_existsb ll :
  View.no_capo ll = negb (existsb (existsb isCapo) ll).
Proof.
  unfold View.no_capo. induction ll as [|its ll IH]; simpl; [easy|].
  rewrite IH, forallb_negb_existsb. now destruct (existsb isCapo its).
Qed.

Lemma recapo_capo v item tag :
  View.recapo v item = ITag tag -> Tag.name tag = CAPO -> Tag.value tag = v.
Proof.
  destruct item as [t|p]; simpl; [|discriminate].
  destruct (String.eqb (Tag.name t) CAPO) eqn:E.
  - intros [= <-]. reflexivity.
  - intros [= <-] N. rewrite N in E. discriminate.
Qed.

(** X9.  [setCapo(capo)] with a value, on a Song that holds a capo tag:
    the result is a new Song with as many Lines and items, in which every
    capo tag, not only the first, has the new value and every other item is
    the one of the Song; no directive is inserted, the metadata entry for
    capo is the new value alone, and the Song itself is unchanged. *)
Theorem setCapo_updates_every_capo_tag
        (v : jsval) (h : heap) (this : nat) (ll : list (list Item)) :
  View.song_items h this = Some ll ->
  View.no_capo ll = false ->
  exists c h' sc ll',
    setCapo (Some v) this h = Ok (c, h') /\
    c = length (songs h) /\
    View.extends h h' /\
    View.song_items h' this = Some ll /\
    songs h' !! c = Some sc /\
    View.song_items h' c = Some ll' /\
    ll' = map (map (View.recapo v)) ll /\
    length ll' = length ll /\
    length (concat ll') = length (concat ll) /\
    (forall its tag, its ∈ ll' -> ITag tag ∈ its ->
                     Tag.name tag = CAPO -> Tag.value tag = v) /\
    (forall its p, its ∈ ll' -> IPair p ∈ its ->
                   exists its0, its0 ∈ ll /\ IPair p ∈ its0) /\
    Metadata.get "capo" (metadata sc) = Some [v].
Proof.
  intros V N.
  destruct (mapItems_run
              (fun item (found : bool) =>
                 if isCapo item
                 then (match item with
                       | ITag tag => Some (ITag (Tag.set tag v))
                       | IPair _ => Some item
                       end, true)
                 else (Some item, found))
              false h this ll V) as (h1 & R1 & B1).
  rewrite replay_recapo in R1, B1. simpl in R1, B1.
  rewrite no_capo_existsb in N. apply negb_false_iff in N. rewrite N in R1.
  destruct (building_metadata_set _ _ _ _ "capo" (Some v) B1)
    as (h2 & sc & R2 & B2 & E2 & G2).
  exists (length (songs h)), h2, sc, (map (map (View.recapo v)) ll).
  split.
  { unfold setCapo, updateItem.
    erewrite run_bind.
    2:{ erewrite run_bind by exact R1. reflexivity. }
    erewrite run_bind by exact R2. reflexivity. }
  split; [reflexivity|].
  pose proof (building_extends _ _ _ _ B2) as X.
  split; [exact X|].
  split; [eapply song_items_extends; eassumption|].
  split; [exact E2|].
  split; [eapply building_items; exact B2|].
  split; [reflexivity|].
  split; [now rewrite length_map|].
  split.
  { clear. induction ll as [|its ll IH]; simpl; [easy|].
    now rewrite !length_app, length_map, IH. }
  split.
  { intros its tag I1 I2 Nm.
    apply list_elem_of_fmap in I1 as (its0 & -> & _).
    apply list_elem_of_fmap in I2 as (item & Eq & _).
    eapply recapo_capo; [symmetry; exact Eq | exact Nm]. }
  split; [|exact G2].
  intros its p I1 I2.
  apply list_elem_of_fmap in I1 as (its0 & -> & I0).
  apply list_elem_of_fmap in I2 as (item & Eq & Ii).
  exists its0. split; [exact I0|].
  destruct item as [t|q]; simpl in Eq.
  - destruct (String.eqb (Tag.name t) CAPO); discriminate.
  - injection Eq as ->. exact Ii.
Qed.


Lemma findIndex_first_index {A} (p : A -> bool) l :
  Array.findIndex p l
  = match View.first_index p l with
    | Some i => Z.of_nat i
    | None => (-1)%Z
    end.
Proof.
  induction l as [|x l IH]; simpl; [easy|].
  destruct (p x); [reflexivity|].
  rewrite IH. destruct (View.first_index p l) as [i|]; simpl; [|reflexivity].
  destruct (Z.ltb_spec (Z.of_nat i) 0); lia.
Qed.

Lemma first_index_lt {A} (p : A -> bool) l i :
  View.first_index p l = Some i -> i < length l.
Proof.
  revert i. induction l as [|x l IH]; intros i; simpl; [discriminate|].
  destruct (p x); [intros [= <-]; lia|].
  destruct (View.first_index p l) as [j|]; simpl; [|discriminate].
  intros [= <-]. specialize (IH j eq_refl). lia.
Qed.

Lemma first_index_spec {A} (p : A -> bool) l i :
  View.first_index p l = Some i ->
  (exists x, l !! i = Some x /\ p x = true) /\
  (forall j x, j < i -> l !! j = Some x -> p x = false).
Proof.
  revert i. induction l as [|x l IH]; intros i; simpl; [discriminate|].
  destruct (p x) eqn:Px.
  - intros [= <-]. split; [now exists x | intros j y Hj; lia].
  - destruct (View.first_index p l) as [k|]; simpl; [|discriminate].
    intros [= <-]. destruct (IH k eq_refl) as [(y & Ey & Py) Hb].
    split; [now exists y|].
    intros [|j] z Hj; simpl; [now intros [= <-]|].
    apply Hb. lia.
Qed.

Lemma first_index_none {A} (p : A -> bool) l :
  View.first_index p l = None -> forall x, x ∈ l -> p x = false.
Proof.
  induction l as [|y l IH]; simpl; intros N x I.
  - now apply elem_of_nil in I.
  - destruct (p y) eqn:Py; [discriminate|].
    destruct (View.first_index p l); [discriminate|].
    apply elem_of_cons in I as [->|I]; [exact Py | now apply IH].
Qed.

Lemma clamp_findIndex {A} (p : A -> bool) l n :
  n = length l ->
  Array.clamp n (Array.findIndex p l)
  = match View.first_index p l with
    | Some i => i
    | None => length l - 1
    end.
Proof.
  intros ->. rewrite findIndex_first_index. unfold Array.clamp.
  destruct (View.first_index p l) as [i|] eqn:E.
  - pose proof (first_index_lt _ _ _ E).
    destruct (Z.ltb_spec (Z.of_nat i) 0); lia.
  - simpl. lia.
Qed.

(** X10.  [insertDirective(name, value, { after })] returns a copy of the
    Song with one more Line, which holds the directive alone.  The new Line
    is placed just before the first Line that holds an item that is not a
    Tag (or the Tag named [after]).  When no Line does, [findIndex] gives -1
    and the two [slice] calls place the new Line before the last Line of the
    Song; it is the only Line when the Song has none. *)
Theorem insertDirective_position
        (name : string) (value : option jsval) (after : option string)
        (h : heap) (this : nat) (lns : list Line.t) :
  View.song_lines h this = Some lns ->
  exists c h' ll' k,
    insertDirective name value after this h = Ok (c, h') /\
    c = length (songs h) /\
    View.extends h h' /\
    View.song_lines h' this = Some lns /\
    View.song_items h' c = Some ll' /\
    k = match View.first_index (View.anchors after) lns with
        | Some i => i
        | None => length lns - 1
        end /\
    ll' = take k (map Line.items lns)
          ++ [[ITag (Tag.new name value)]]
          ++ drop k (map Line.items lns) /\
    (forall i, View.first_index (View.anchors after) lns = Some i ->
               ll' !! i = Some [ITag (Tag.new name value)] /\
               ll' !! S i = map Line.items lns !! i /\
               (exists line, lns !! i = Some line /\ View.anchors after line = true) /\
               (forall j line, j < i -> lns !! j = Some line ->
                               View.anchors after line = false)) /\
    (View.first_index (View.anchors after) lns = None ->
     (forall line, line ∈ lns -> View.anchors after line = false) /\
     (lns = [] -> ll' = [[ITag (Tag.new name value)]]) /\
     (forall front last, lns = front ++ [last] ->
        ll' = map Line.items front
              ++ [[ITag (Tag.new name value)]; Line.items last])).
Proof.
  intros V.
  pose proof V as V0. unfold View.song_lines in V0.
  destruct (songs h !! this) as [s0|] eqn:E0; [|discriminate].
  set (ll := map Line.items lns).
  set (line := Line.addTag (Tag.new name value) Line.new).
  set (h1 := {| songs := songs h; lineobjs := lineobjs h ++ [line] |}).
  assert (View.extends h h1) as X1.
  { split; simpl; [reflexivity | now apply prefix_app_r]. }
  assert (View.song_items h1 this = Some ll) as V1.
  { eapply song_items_extends; [exact X1|].
    unfold View.song_items. now rewrite V. }
  destruct (clone_run h1 this ll V1) as (h2 & R2 & B2).
  destruct (building_song _ _ _ _ B2) as (sc2 & E2 & S2 & L2).
  destruct (building_lines _ _ _ _ B2) as (lns2 & V2 & M2 & O2).
  pose proof V2 as V2'. unfold View.song_lines in V2'. rewrite E2 in V2'.
  set (idx := Array.findIndex (View.anchors after) lns).
  set (k := Array.clamp (length (lines sc2)) idx).
  assert (length (lines sc2) = length lns) as Len.
  { rewrite L2, length_seq. unfold ll. apply length_map. }
  assert (k = match View.first_index (View.anchors after) lns with
              | Some i => i
              | None => length lns - 1
              end) as Hk.
  { unfold k, idx. now apply clamp_findIndex. }
  set (h3 := {| songs := <[length (songs h1) :=
                             with_lines sc2
                               (Array.slice (lines sc2) 0 (Some idx)
                                ++ [length (lineobjs h)]
                                ++ Array.slice (lines sc2) idx None)]> (songs h2);
                lineobjs := lineobjs h2 |}).
  assert (insertDirective name value after this h = Ok (length (songs h), h3)) as R.
  { unfold insertDirective.
    erewrite run_bind by (apply getSong_run; exact E0).
    erewrite run_bind by (apply mapM_getLine; exact V0).
    erewrite run_bind by reflexivity. fold line h1.
    erewrite run_bind by exact R2.
    erewrite run_bind by (apply getSong_run; exact E2).
    erewrite run_bind by reflexivity. reflexivity. }
  assert (View.extends h h3) as X3.
  { split; simpl.
    - rewrite S2. simpl. rewrite insert_snoc. now apply prefix_app_r.
    - rewrite O2. simpl. rewrite <- app_assoc. now apply prefix_app_r. }
  assert (View.song_items h3 (length (songs h))
          = Some (take k ll ++ [[ITag (Tag.new name value)]] ++ drop k ll)) as I3.
  { unfold View.song_items, View.song_lines.
    assert (songs h3 !! length (songs h)
            = Some (with_lines sc2
                      (Array.slice (lines sc2) 0 (Some idx)
                       ++ [length (lineobjs h)]
                       ++ Array.slice (lines sc2) idx None))) as ->.
    { simpl. apply list_lookup_insert_eq. rewrite S2, length_app. simpl. lia. }
    cbn [lines with_lines].
    change (?a ++ [?x] ++ ?b) with (a ++ x :: b).
    rewrite slice_split. fold k.
    destruct (all_lines_take_drop h2 _ _ k V2') as [T D].
    erewrite all_lines_same with (h' := h2) by reflexivity.
    change (?a ++ ?x :: ?b) with (a ++ [x] ++ b).
    rewrite !all_lines_app, T, D. simpl.
    rewrite O2. simpl. rewrite <- app_assoc. simpl.
    rewrite lookup_app_r by lia. rewrite Nat.sub_diag. simpl.
    rewrite map_app. simpl. rewrite <- firstn_map, <- skipn_map, M2. reflexivity. }
  exists (length (songs h)), h3,
    (take k ll ++ [[ITag (Tag.new name value)]] ++ drop k ll), k.
  split; [exact R|]. split; [reflexivity|]. split; [exact X3|].
  split; [eapply song_lines_extends; eassumption|].
  split; [exact I3|]. split; [exact Hk|]. split; [reflexivity|].
  split.
  - intros i Fi. rewrite Fi in Hk. subst k. rewrite Hk.
    pose proof (first_index_lt _ _ _ Fi) as Hi.
    destruct (first_index_spec _ _ _ Fi) as [Hx Hb].
    assert (length (take i ll) = i) as Lt.
    { rewrite length_take. unfold ll. rewrite length_map. lia. }
    split.
    { rewrite lookup_app_r by lia. rewrite Lt, Nat.sub_diag. reflexivity. }
    split.
    { rewrite lookup_app_r by lia. rewrite Lt.
      replace (S i - i) with 1 by lia. simpl.
      rewrite lookup_drop. now rewrite Nat.add_0_r. }
    split; [exact Hx | exact Hb].
  - intros Fn. rewrite Fn in Hk.
    split; [now apply first_index_none|].
    split.
    + intros ->. unfold ll. simpl. now rewrite take_nil, drop_nil.
    + intros front last ->. rewrite Hk. unfold ll.
      rewrite length_app. simpl.
      replace (length front + 1 - 1) with (length (map Line.items front))
        by (rewrite length_map; lia).
      rewrite map_app. simpl.
      rewrite take_app_length, drop_app_length. reflexivity.
Qed.


Lemma replay_line_stateless f its :
  View.replay_line (View.stateless f) its tt = (omap f its, tt).
Proof.
  unfold omap. induction its as [|item its IH]; simpl; [easy|].
  rewrite IH. now destruct (f item).
Qed.

Lemma replay_stateless f ll :
  View.replay (View.stateless f) ll tt = (map (omap f) ll, tt).
Proof.
  induction ll as [|its ll IH]; simpl; [easy|].
  now rewrite replay_line_stateless, IH.
Qed.

Lemma omap_and_then f g (its : list Item) :
  omap g (omap f its) = omap (View.and_then f g) its.
Proof.
  unfold omap, View.and_then. induction its as [|item its IH]; simpl; [easy|].
  destruct (f item) as [c|]; simpl; [|exact IH].
  destruct (g c); now rewrite IH.
Qed.

(** X11.  [mapItems] composes: for callbacks that assign no variable,
    [mapItems(g)] of [mapItems(f)] of a Song has the items and the metadata
    of [mapItems] of the Song with [f] followed by [g] (an item that [f]
    drops is not given to [g]); the Song itself is unchanged.  With the
    identity for both, a clone of a clone is as the clone. *)
Theorem mapItems_twice_is_mapItems_composed
        (f g : Item -> option Item) (h : heap) (this : nat)
        (ll : list (list Item)) :
  View.song_items h this = Some ll ->
  exists c1 h1 c2 h2 s2 c3 h3 s3 ll',
    mapItems (View.stateless f) tt this h = Ok ((c1, tt), h1) /\
    mapItems (View.stateless g) tt c1 h1 = Ok ((c2, tt), h2) /\
    mapItems (View.stateless (View.and_then f g)) tt this h = Ok ((c3, tt), h3) /\
    ll' = map (omap (View.and_then f g)) ll /\
    View.song_items h2 c2 = Some ll' /\
    View.song_items h3 c3 = Some ll' /\
    songs h2 !! c2 = Some s2 /\ songs h3 !! c3 = Some s3 /\
    metadata s2 = metadata s3 /\
    View.song_items h2 this = Some ll.
Proof.
  intros V.
  destruct (mapItems_run (View.stateless f) tt h this ll V) as (h1 & R1 & B1).
  rewrite replay_stateless in R1, B1. simpl in R1, B1.
  pose proof (building_items _ _ _ _ B1) as V1.
  destruct (mapItems_run (View.stateless g) tt h1 _ _ V1) as (h2 & R2 & B2).
  pose proof (mapItems_meta _ _ _ _ _ _ _ _ V1 R2) as Mt2.
  rewrite replay_stateless in R2, B2, Mt2. simpl in R2, B2, Mt2.
  destruct (mapItems_run (View.stateless (View.and_then f g)) tt h this ll V)
    as (h3 & R3 & B3).
  pose proof (mapItems_meta _ _ _ _ _ _ _ _ V R3) as Mt3.
  rewrite replay_stateless in R3, B3, Mt3. simpl in R3, B3, Mt3.
  assert (map (omap g) (map (omap f) ll) = map (omap (View.and_then f g)) ll) as Eq.
  { rewrite map_map. apply map_ext. intros its. apply omap_and_then. }
  rewrite Eq in B2, Mt2.
  destruct (building_song _ _ _ _ B2) as (s2 & E2 & _).
  destruct (building_song _ _ _ _ B3) as (s3 & E3 & _).
  unfold View.meta_at in Mt2, Mt3. rewrite E2 in Mt2. rewrite E3 in Mt3.
  simpl in Mt2, Mt3.
  exists (length (songs h)), h1, (length (songs h1)), h2, s2,
    (length (songs h)), h3, s3, (map (omap (View.and_then f g)) ll).
  split; [exact R1|]. split; [exact R2|]. split; [exact R3|].
  split; [reflexivity|].
  split; [eapply building_items; exact B2|].
  split; [eapply building_items; exact B3|].
  split; [exact E2|]. split; [exact E3|].
  split; [congruence|].
  eapply song_items_extends; [|exact V].
  exact (extends_trans _ _ _ (building_extends _ _ _ _ B1)
                             (building_extends _ _ _ _ B2)).
Qed.

End MoreMaps.

(** ** The body of a Song, and the writers *)

Section BodyRuns.
Context `{Tag.Methods} `{Line.Methods} `{Song.ParagraphMethods}.
Import Song.

Lemma expandoOf_other this other e es :
  other <> this ->
  expandoOf other
    ((this, e) :: List.filter (fun re => negb (fst re =? this)) es)
  = expandoOf other es.
Proof.
  intros Ne. simpl. destruct (Nat.eqb_spec this other) as [E|_]; [congruence|].
  induction es as [|[r x] es IH]; simpl; [easy|].
  destruct (Nat.eqb_spec r this) as [->|Nr]; simpl.
  - destruct (Nat.eqb_spec this other); [congruence | exact IH].
  - destruct (r =? other); [reflexivity | exact IH].
Qed.

Lemma expandoOf_this this e es :
  expandoOf this ((this, e) :: List.filter (fun re => negb (fst re =? this)) es) = e.
Proof. simpl. now rewrite Nat.eqb_refl. Qed.

Lemma lift_run {A} (m : M heap A) w a h' :
  m (store w) = Ok (a, h') ->
  lift m w = Ok (a, {| store := h'; expandos := expandos w |}).
Proof. intros E. unfold lift. now rewrite E. Qed.

(** The loop of [selectRenderableItems] on a store in which the elements
    answer [r] to [hasRenderableItems()]. *)
Lemma shiftLeading_run {A B} (prop : property A) (q : expando -> B)
      (hr : A -> M heap bool) (r : A -> bool) this h :
  (forall v e, read prop (write prop v e) = Some v) ->
  (forall v e, q (write prop v e) = q e) ->
  forall collection es,
    (forall x, x ∈ collection -> hr x h = Ok (r x, h)) ->
    read prop (expandoOf this es) = Some collection ->
    exists skipped body es',
      shiftLeading prop hr this collection {| store := h; expandos := es |}
      = Ok (tt, {| store := h; expandos := es' |}) /\
      collection = skipped ++ body /\
      Forall (fun x => r x = false) skipped /\
      match body with [] => True | x :: _ => r x = true end /\
      read prop (expandoOf this es') = Some body /\
      q (expandoOf this es') = q (expandoOf this es) /\
      (forall other, other <> this -> expandoOf other es' = expandoOf other es).
Proof.
  intros RW Fq. induction collection as [|x rest IH]; intros es Hr Rd.
  - exists [], [], es. repeat split; easy.
  - cbn [shiftLeading].
    erewrite run_bind
      by (apply lift_run; simpl; apply Hr; apply elem_of_cons; now left).
    simpl. destruct (r x) eqn:Rx.
    + exists [], (x :: rest), es. repeat split; easy.
    + set (es1 := (this, write prop rest (expandoOf this es))
                  :: List.filter (fun re => negb (fst re =? this)) es).
      destruct (IH es1) as (skipped & body & es' & R & Eq & Fa & Hd & Rd' & Q' & Fr).
      { intros y Iy. apply Hr. apply elem_of_cons. now right. }
      { unfold es1. rewrite expandoOf_this. apply RW. }
      exists (x :: skipped), body, es'.
      split.
      { erewrite run_bind by reflexivity. exact R. }
      split; [simpl; now rewrite Eq|].
      split; [now constructor|].
      split; [exact Hd|]. split; [exact Rd'|].
      split; [rewrite Q'; unfold es1; now rewrite expandoOf_this, Fq|].
      intros other Ne. rewrite (Fr other Ne). unfold es1.
      now apply expandoOf_other.
Qed.

Lemma selectRenderableItems_first {A B} (prop : property A) (q : expando -> B)
      (source : nat -> M heap (list A)) (hr : A -> M heap bool)
      (r : A -> bool) this w collection :
  (forall v e, read prop (write prop v e) = Some v) ->
  (forall v e, q (write prop v e) = q e) ->
  read prop (expandoOf this (expandos w)) = None ->
  source this (store w) = Ok (collection, store w) ->
  (forall x, x ∈ collection -> hr x (store w) = Ok (r x, store w)) ->
  exists skipped body w',
    selectRenderableItems prop source hr this w = Ok (Some body, w') /\
    store w' = store w /\
    collection = skipped ++ body /\
    Forall (fun x => r x = false) skipped /\
    match body with [] => True | x :: _ => r x = true end /\
    read prop (expandoOf this (expandos w')) = Some body /\
    q (expandoOf this (expandos w')) = q (expandoOf this (expandos w)) /\
    (forall other, other <> this ->
                   expandoOf other (expandos w') = expandoOf other (expandos w)).
Proof.
  intros RW Fq Rd Src Hr. destruct w as [h es]. simpl in *.
  set (es1 := (this, write prop collection (expandoOf this es))
              :: List.filter (fun re => negb (fst re =? this)) es).
  destruct (shiftLeading_run prop q hr r this h RW Fq collection es1 Hr)
    as (skipped & body & es' & R & Eq & Fa & Hd & Rd' & Q' & Fr).
  { unfold es1. rewrite expandoOf_this. apply RW. }
  exists skipped, body, {| store := h; expandos := es' |}.
  split.
  { unfold selectRenderableItems.
    erewrite run_bind by reflexivity. simpl. rewrite Rd.
    erewrite run_bind.
    2:{ erewrite run_bind by (apply lift_run; exact Src).
        erewrite run_bind by reflexivity. exact R. }
    unfold getProp. simpl. now rewrite Rd'. }
  split; [reflexivity|]. split; [exact Eq|]. split; [exact Fa|].
  split; [exact Hd|]. split; [exact Rd'|].
  split; [simpl; rewrite Q'; unfold es1; now rewrite expandoOf_this, Fq|].
  intros other Ne. simpl. rewrite (Fr other Ne). unfold es1.
  now apply expandoOf_other.
Qed.

Lemma selectRenderableItems_cached {A} (prop : property A)
      (source : nat -> M heap (list A)) (hr : A -> M heap bool) this w v :
  read prop (expandoOf this (expandos w)) = Some v ->
  selectRenderableItems prop source hr this w = Ok (Some v, w).
Proof.
  intros Rd. unfold selectRenderableItems.
  erewrite run_bind by reflexivity. rewrite Rd.
  erewrite run_bind by reflexivity. unfold getProp. now rewrite Rd.
Qed.

(** What [selectRenderableItems] returns it has stored in the property. *)
Lemma shiftLeading_keeps {A} (prop : property A) (hr : A -> M heap bool) this :
  (forall v e, read prop (write prop v e) = Some v) ->
  forall collection w w',
    is_Some (read prop (expandoOf this (expandos w))) ->
    shiftLeading prop hr this collection w = Ok (tt, w') ->
    is_Some (read prop (expandoOf this (expandos w'))).
Proof.
  intros RW. induction collection as [|x rest IH]; intros w w' Sm R.
  - cbn [shiftLeading] in R. rewrite run_ret in R. inversion R; subst. exact Sm.
  - cbn [shiftLeading] in R.
    apply bind_inv in R as (b & w1 & R1 & R2).
    assert (expandos w1 = expandos w) as Ew.
    { unfold lift in R1. destruct (hr x (store w)) as [[b' h']|]; [|discriminate].
      now inversion R1. }
    destruct b.
    + rewrite run_ret in R2. inversion R2; subst. now rewrite Ew.
    + apply bind_inv in R2 as ([] & w2 & R2 & R3).
      eapply IH; [|exact R3].
      unfold setProp in R2. inversion R2; subst. simpl.
      rewrite Nat.eqb_refl. rewrite RW. eauto.
Qed.

Lemma selectRenderableItems_stored {A} (prop : property A)
      (source : nat -> M heap (list A)) (hr : A -> M heap bool) this w r w' :
  (forall v e, read prop (write prop v e) = Some v) ->
  selectRenderableItems prop source hr this w = Ok (r, w') ->
  is_Some r /\ read prop (expandoOf this (expandos w')) = r.
Proof.
  intros RW R. unfold selectRenderableItems in R.
  apply bind_inv in R as (t & w1 & R1 & R).
  unfold getProp in R1. inversion R1; subst w1 t. clear R1.
  apply bind_inv in R as ([] & w2 & R2 & R3).
  unfold getProp in R3. inversion R3; subst. split; [|reflexivity].
  destruct (read prop (expandoOf this (expandos w))) as [v|] eqn:Rd.
  - rewrite run_ret in R2. inversion R2; subst. rewrite Rd. eauto.
  - apply bind_inv in R2 as (src & w3 & R4 & R5).
    apply bind_inv in R5 as ([] & w4 & R5 & R6).
    eapply shiftLeading_keeps; [exact RW | | exact R6].
    unfold setProp in R5. inversion R5; subst. simpl.
    rewrite Nat.eqb_refl, RW. eauto.
Qed.


Lemma all_lines_elem h ls lns :
  View.all_lines h ls = Some lns ->
  forall l, l ∈ ls -> exists line, lineobjs h !! l = Some line.
Proof.
  revert lns. induction ls as [|x ls IH]; intros lns V l I.
  - now apply elem_of_nil in I.
  - simpl in V. destruct (lineobjs h !! x) as [line|] eqn:E; [|discriminate].
    destruct (View.all_lines h ls) as [rest|]; [|discriminate].
    apply elem_of_cons in I as [->|I]; [eauto | eapply IH; eauto].
Qed.

(** X13.  The first reading of [bodyLines] returns the Lines of the Song
    without the leading Lines that have no renderable items: the Lines of
    the Song are the skipped Lines followed by the result, no skipped Line
    has renderable items, and the first Line of the result, if any, has.
    The Song and its Lines are unchanged ([lines] is copied before [shift]);
    the result is stored in [_bodyLines], and [_bodyParagraphs] and the
    properties of the other Songs are kept. *)
Theorem bodyLines_skips_leading_lines
        (w : xheap) (this : nat) (s : Song.t) (lns : list Line.t) :
  songs (store w) !! this = Some s ->
  View.all_lines (store w) (lines s) = Some lns ->
  _bodyLines (expandoOf this (expandos w)) = None ->
  exists skipped body w',
    bodyLines this w = Ok (Some body, w') /\
    store w' = store w /\
    lines s = skipped ++ body /\
    Forall (fun l => View.renderable_at (store w) l = false) skipped /\
    match body with
    | [] => True
    | l :: _ => View.renderable_at (store w) l = true
    end /\
    _bodyLines (expandoOf this (expandos w')) = Some body /\
    _bodyParagraphs (expandoOf this (expandos w'))
    = _bodyParagraphs (expandoOf this (expandos w)) /\
    (forall other, other <> this ->
                   expandoOf other (expandos w') = expandoOf other (expandos w)).
Proof.
  intros E V Rd. unfold bodyLines.
  eapply (selectRenderableItems_first bodyLinesProp _bodyParagraphs);
    try reflexivity; try exact Rd.
  - erewrite run_bind by (apply getSong_run; exact E). reflexivity.
  - intros l I. destruct (all_lines_elem _ _ _ V l I) as (line & El).
    erewrite run_bind by (apply getLine_run; exact El).
    unfold View.renderable_at. now rewrite El.
Qed.

(** X14.  The first reading of [bodyParagraphs] returns the paragraphs of
    the Song (what [paragraphs] returns) without the leading paragraphs that
    have no renderable items.  The Song is unchanged, the result is stored
    in [_bodyParagraphs], and [_bodyLines] and the properties of the other
    Songs are kept. *)
Theorem bodyParagraphs_skips_leading_paragraphs
        (w : xheap) (this : nat) (s : Song.t) (lns : list Line.t) :
  songs (store w) !! this = Some s ->
  View.all_lines (store w) (lines s) = Some lns ->
  _bodyParagraphs (expandoOf this (expandos w)) = None ->
  exists ps skipped body w',
    paragraphs this (store w) = Ok (ps, store w) /\
    bodyParagraphs this w = Ok (Some body, w') /\
    store w' = store w /\
    ps = skipped ++ body /\
    Forall (fun p => Paragraph_hasRenderableItems (store w) p = false) skipped /\
    match body with
    | [] => True
    | p :: _ => Paragraph_hasRenderableItems (store w) p = true
    end /\
    _bodyParagraphs (expandoOf this (expandos w')) = Some body /\
    _bodyLines (expandoOf this (expandos w'))
    = _bodyLines (expandoOf this (expandos w)) /\
    (forall other, other <> this ->
                   expandoOf other (expandos w') = expandoOf other (expandos w)).
Proof.
  intros E V Rd.
  assert (paragraphs this (store w)
          = Ok (fold_left View.paragraph_step (zip (lines s) lns) [Paragraph.new],
                store w)) as P.
  { unfold paragraphs. erewrite run_bind by (apply getSong_run; exact E).
    now apply paragraphs_fold. }
  eexists. 
  destruct (selectRenderableItems_first bodyParagraphsProp _bodyLines
              paragraphs
              (fun p h => Ok (Paragraph_hasRenderableItems h p, h))
              (Paragraph_hasRenderableItems (store w)) this w _
              ltac:(reflexivity) ltac:(reflexivity) Rd P ltac:(reflexivity))
    as (skipped & body & w' & R & Rest).
  exists skipped, body, w'. split; [exact P|]. split; [exact R | exact Rest].
Qed.

(** X15.  [bodyLines] and [bodyParagraphs] are computed once per Song:
    whatever is done to the store between two readings (Lines and items
    added to the Song included), the second reading returns what the first
    one returned. *)
Theorem body_is_computed_once
        {B C} (m : M heap B) (n : M heap C) (this : nat) (w : xheap) :
  (forall w1 lines1 lines2,
      (a ← bodyLines this; lift m;; b ← bodyLines this; mret (a, b)) w
      = Ok ((lines1, lines2), w1) ->
      lines2 = lines1 /\ is_Some lines1) /\
  (forall w2 paragraphs1 paragraphs2,
      (a ← bodyParagraphs this; lift n;; b ← bodyParagraphs this; mret (a, b)) w
      = Ok ((paragraphs1, paragraphs2), w2) ->
      paragraphs2 = paragraphs1 /\ is_Some paragraphs1).
Proof.
  assert (forall A D (prop : property A) src hr (k : M heap D) w0 wn r1 r2,
             (forall v e, read prop (write prop v e) = Some v) ->
             (a ← selectRenderableItems prop src hr this; lift k;;
              b ← selectRenderableItems prop src hr this; mret (a, b)) w0
             = Ok ((r1, r2), wn) ->
             r2 = r1 /\ is_Some r1) as G.
  { intros A D prop src hr k w0 wn r1 r2 RW R.
    apply bind_inv in R as (a & wa & Ra & R).
    apply bind_inv in R as (x & wb & Rb & R).
    apply bind_inv in R as (b & wc & Rc & R).
    rewrite run_ret in R. inversion R; subst. clear R.
    destruct (selectRenderableItems_stored _ _ _ _ _ _ _ RW Ra) as [[v ->] St].
    assert (expandos wb = expandos wa) as Ew.
    { unfold lift in Rb. destruct (k (store wa)) as [[y h']|]; [|discriminate].
      now inversion Rb. }
    rewrite (selectRenderableItems_cached prop src hr this wb v) in Rc
      by (now rewrite Ew).
    inversion Rc; subst. split; [reflexivity | eauto]. }
  split.
  - intros w1 lines1 lines2 R1.
    eapply (G _ _ bodyLinesProp); [reflexivity | exact R1].
  - intros w2 paragraphs1 paragraphs2 R2.
    eapply (G _ _ bodyParagraphsProp); [reflexivity | exact R2].
Qed.

End BodyRuns.

Section Writers.
Context `{Tag.Methods} `{Line.Methods} `{Song.LineWriter}.
Import Song.

(** X16.  [chords(chr)] needs a current Line: on a Song without one it
    throws a TypeError, where [lyrics(chr)] first creates the Line, as the
    last and current Line of the Song, and writes to it.  On a Song that has
    a current Line both write to that Line and change nothing else. *)
Theorem chords_needs_current_line_lyrics_creates_it
        (chr : string) (h : heap) (this : nat) (s : Song.t) :
  songs h !! this = Some s ->
  (currentLine s = None ->
   (exists msg, chords chr this h = Err (TypeError msg)) /\
   (exists h' s',
       lyrics chr this h = Ok (tt, h') /\
       songs h' !! this = Some s' /\
       lines s' = lines s ++ [length (lineobjs h)] /\
       currentLine s' = Some (length (lineobjs h)) /\
       lineobjs h' = lineobjs h ++ [Line_lyrics chr (View.stamped s)])) /\
  (forall l line,
      currentLine s = Some l -> lineobjs h !! l = Some line ->
      chords chr this h = Ok (tt, View.touch h this l s (Line_chords chr line)) /\
      lyrics chr this h = Ok (tt, View.touch h this l s (Line_lyrics chr line))).
Proof.
  intros E. pose proof (lookup_lt_Some _ _ _ E) as Hlt. split.
  - intros Hc. split.
    + eexists. unfold chords, onCurrentLine.
      erewrite run_bind by (apply getSong_run; exact E). rewrite Hc. reflexivity.
    + pose proof (addLine_run h this s E) as R.
      match type of R with _ = Ok (_, ?x) => set (h1 := x) in * end.
      set (s1 := with_currentLine (with_lines s (lines s ++ [length (lineobjs h)]))
                   (Some (length (lineobjs h)))) in *.
      assert (songs h1 !! this = Some s1) as E1.
      { unfold h1. simpl. now apply list_lookup_insert_eq. }
      assert (lineobjs h1 !! length (lineobjs h) = Some (View.stamped s)) as El1.
      { unfold h1. simpl. apply lookup_snoc. }
      exists (View.touch h1 this (length (lineobjs h)) s1
                (Line_lyrics chr (View.stamped s))), s1.
      split.
      { unfold lyrics. erewrite run_bind.
        2:{ unfold ensureLine.
            erewrite run_bind by (apply getSong_run; exact E).
            rewrite Hc. erewrite run_bind by exact R. reflexivity. }
        eapply onCurrentLine_run; [exact E1 | reflexivity | exact El1]. }
      split; [eapply touch_song; exact E1|].
      split; [reflexivity|]. split; [reflexivity|].
      unfold h1. simpl. apply insert_snoc.
  - intros l line Hc El. split.
    + unfold chords. eapply onCurrentLine_run; eassumption.
    + unfold lyrics.
      erewrite run_bind by (eapply ensureLine_cur; eassumption).
      eapply onCurrentLine_run; eassumption.
Qed.

End Writers.

(** ** The labels of the parser and the end of the song *)

Section MoreParser.
Context `{Tag.Methods} `{Line.Methods} `{UltimateGuitarParser.Environment}.
Import UltimateGuitarParser.

Hypothesis stamps : ParserView.stamps_current_line.

Lemma match1_run r line m label (h : Song.heap) :
  Regex.exec r line = Some m -> Regex.group1 m = Some label ->
  match1 r line h = Ok (label, h).
Proof. intros E G. unfold match1. now rewrite E, G. Qed.

Lemma test_exec r line m : Regex.exec r line = Some m -> Regex.test r line = true.
Proof. intros E. unfold Regex.test. now rewrite E. Qed.

Lemma section_label_run
        (line label : string) (m : Regex.result) (p : t) (h : Song.heap) :
  ParserView.ready h p = true ->
  Regex.group1 m = Some label ->
  (Regex.exec VERSE_LINE_REGEX line = Some m ->
   exists p' h' s' l newLine,
     parseLine line p h = Ok (p', h') /\
     currentSectionType p' = Some VERSE /\
     Song.songs h' !! song p' = Some s' /\
     songLine p' = Some l /\ Song.currentLine s' = Some l /\
     Song.lineobjs h' !! l = Some newLine /\
     Line.items newLine = [ITag (Tag.new START_OF_VERSE (Some (VStr label)))]) /\
  (Regex.test VERSE_LINE_REGEX line = false ->
   Regex.exec CHORUS_LINE_REGEX line = Some m ->
   exists p' h' s' l newLine,
     parseLine line p h = Ok (p', h') /\
     currentSectionType p' = Some CHORUS /\
     Song.songs h' !! song p' = Some s' /\
     songLine p' = Some l /\ Song.currentLine s' = Some l /\
     Song.lineobjs h' !! l = Some newLine /\
     Line.items newLine = [ITag (Tag.new START_OF_CHORUS (Some (VStr label)))]).
Proof.
  intros R G.
  destruct (section_end_run stamps h p R) as (b & p1 & h1 & s1 & Rb & R1 & Sg & E1 & Cs).
  destruct (startNewLine_run p1 h1 s1 E1) as (h2 & R2 & F2).
  set (p2 := with_songLine p1 (Some (length (Song.lineobjs h1)))) in *.
  split.
  - intros E.
    destruct (parser_startSection_run stamps VERSE START_OF_VERSE label p2 h2 F2 eq_refl)
      as (p' & h' & s' & l & newLine & R3 & Sg' & Cs' & E' & Sl' & Hc' & El' & I').
    exists p', h', s', l, newLine. split; [|easy].
    unfold parseLine. erewrite run_bind by exact Rb.
    erewrite run_bind by exact R1. rewrite (test_exec _ _ _ E).
    erewrite run_bind by exact R2.
    erewrite run_bind by (eapply match1_run; eassumption). exact R3.
  - intros T E.
    destruct (parser_startSection_run stamps CHORUS START_OF_CHORUS label p2 h2 F2 eq_refl)
      as (p' & h' & s' & l & newLine & R3 & Sg' & Cs' & E' & Sl' & Hc' & El' & I').
    exists p', h', s', l, newLine. split; [|easy].
    unfold parseLine. erewrite run_bind by exact Rb.
    erewrite run_bind by exact R1. rewrite T, (test_exec _ _ _ E).
    erewrite run_bind by exact R2.
    erewrite run_bind by (eapply match1_run; eassumption). exact R3.
Qed.


Lemma length_chars (s : string) : length (JsString.chars s) = String.length s.
Proof. induction s as [|a s IH]; simpl; [easy|]. now rewrite IH. Qed.

Lemma starts_with_length p s :
  JsString.starts_with p s = true -> length p <= length s.
Proof.
  revert s. induction p as [|a p IH]; intros s; simpl; [lia|].
  destruct s as [|b s]; [discriminate|].
  intros E. apply andb_true_iff in E as [_ E]. specialize (IH s E). simpl. lia.
Qed.

Lemma replace_chars_length pat by_ s :
  length by_ = length pat ->
  length (JsString.replace_chars pat by_ s) = length s.
Proof.
  intros L. induction s as [|a s IH].
  - simpl. destruct (JsString.starts_with pat []) eqn:E; [|reflexivity].
    apply starts_with_length in E. rewrite length_app, length_drop. simpl in *. lia.
  - cbn [JsString.replace_chars].
    destruct (JsString.starts_with pat (a :: s)) eqn:E.
    + apply starts_with_length in E. rewrite length_app, length_drop. lia.
    + simpl. now rewrite IH.
Qed.

Lemma replace_blank_length line rep :
  String.length (JsString.replace line rep (JsString.repeat " " (String.length rep)))
  = String.length line.
Proof.
  unfold JsString.replace. rewrite length_of_chars, replace_chars_length.
  - apply length_chars.
  - now rewrite !length_chars, length_repeat_space.
Qed.

(** X20.  A line that reaches the branch of [parseLine] for chord lines
    with a repetition marker (no bracketed label, not tablature, a chord
    line once the markers are deleted, and at least one marker) is written
    as one ChordLyricsPair on a Line of its own: the chords are the line
    with the first occurrence of the first marker blanked, so as long as the
    line, and the lyrics are as many spaces as the line is long followed by
    that marker without its first colon. *)
Theorem repetition_line_keeps_marker_as_lyrics
        (line rep0 : string) (reps : list string) (p : t) (h : Song.heap) :
  ParserView.ready h p = true ->
  Regex.test VERSE_LINE_REGEX line = false ->
  Regex.test CHORUS_LINE_REGEX line = false ->
  Regex.test OTHER_METADATA_LINE_REGEX line = false ->
  (8 <? String.length line) && (5 <? View.dashes line) = false ->
  Regex.test CHORD_LINE_REGEX (Regex.delete_all REPETITION_REGEX line) = true ->
  Regex.match_all REPETITION_REGEX line = Some (rep0 :: reps) ->
  exists p' h' l newLine chords,
    parseLine line p h = Ok (p', h') /\
    songLine p' = Some l /\
    Song.lineobjs h' !! l = Some newLine /\
    chords = JsString.replace line rep0 (JsString.repeat " " (String.length rep0)) /\
    String.length chords = String.length line /\
    Line.items newLine
    = [IPair {| ChordLyricsPair.chords := Some chords;
                ChordLyricsPair.lyrics :=
                  Some (JsString.repeat " " (String.length line)
                        ++ JsString.replace rep0 ":" "")%string |}].
Proof.
  intros R T1 T2 T3 Tab Ch Rep.
  destruct (section_end_run stamps h p R) as (b & p1 & h1 & s1 & Rb & R1 & Sg & E1 & Cs).
  destruct (startNewLine_run p1 h1 s1 E1) as (h2 & R2 & F2).
  set (p2 := with_songLine p1 (Some (length (Song.lineobjs h1)))) in *.
  destruct F2 as (s2 & l2 & line2 & E2 & Sl2 & Hc2 & El2 & I2).
  eexists p2, _, l2, _, _. split.
  { unfold parseLine. erewrite run_bind by exact Rb.
    erewrite run_bind by exact R1. rewrite T1, T2, T3, dashes_removed, Tab, Ch, Rep.
    cbn [andb length Nat.ltb Nat.leb].
    unfold parseRepetitionLine. rewrite Rep.
    erewrite run_bind by exact R2. fold p2.
    erewrite run_bind by (eapply onSongLine_run; eassumption).
    reflexivity. }
  split; [exact Sl2|].
  split; [simpl; apply list_lookup_insert_eq; eapply lookup_lt_Some; exact El2|].
  split; [reflexivity|].
  split; [apply replace_blank_length|].
  simpl. rewrite I2. simpl. now rewrite replace_blank_length.
Qed.


(** X21.  [endOfSong()], once the base class has returned: when a
    section is open in the parser, one Line is appended to the Song, it
    holds the end directive of that section alone and is the current Line,
    and no further Line is started; when none is open, no Line is created
    and only fields of the current Line other than its items change.  No
    section is open in the parser afterwards. *)
Theorem endOfSong_closes_open_section
        (p p1 : t) (h h1 : Song.heap) (s1 : Song.t) :
  super_endOfSong p h = Some (p1, h1) ->
  Song.songs h1 !! song p1 = Some s1 ->
  (forall T name,
      currentSectionType p1 = Some T -> endSectionTags T = Some name ->
      exists p' h' s' l last,
        endOfSong p h = Ok (p', h') /\
        currentSectionType p' = None /\ song p' = song p1 /\
        Song.songs h' !! song p' = Some s' /\
        l = length (Song.lineobjs h1) /\
        Song.lines s' = Song.lines s1 ++ [l] /\
        songLine p' = Some l /\ Song.currentLine s' = Some l /\
        Song.lineobjs h' !! l = Some last /\
        length (Song.lineobjs h') = S (length (Song.lineobjs h1)) /\
        Line.items last = [ITag (Tag.new name None)]) /\
  (forall l line,
      match currentSectionType p1 with
      | Some T => endSectionTags T = None
      | None => True
      end ->
      Song.currentLine s1 = Some l -> Song.lineobjs h1 !! l = Some line ->
      exists p' h' line',
        endOfSong p h = Ok (p', h') /\
        currentSectionType p' = None /\ song p' = song p1 /\
        songLine p' = songLine p1 /\
        h' = View.touch h1 (song p1) l s1 line' /\
        Line.items line' = Line.items line).
Proof.
  intros Sup E1.
  assert (external "super.endOfSong" (super_endOfSong p) h = Ok (p1, h1)) as R0.
  { unfold external. now rewrite Sup. }
  split.
  - intros T name Cs Hn.
    pose proof (addLine_run h1 (song p1) s1 E1) as R1.
    set (l := length (Song.lineobjs h1)) in *.
    set (s2 := Song.with_currentLine
                 (Song.with_lines s1 (Song.lines s1 ++ [l])) (Some l)) in *.
    match type of R1 with _ = Ok (_, ?x) => set (h2 := x) in * end.
    set (p2 := with_songLine p1 (Some l)).
    assert (Song.songs h2 !! song p2 = Some s2) as E2.
    { unfold h2. simpl. apply list_lookup_insert_eq. eapply lookup_lt_Some; exact E1. }
    assert (Song.lineobjs h2 !! l = Some (View.stamped s1)) as El2.
    { unfold h2. simpl. apply lookup_snoc. }
    destruct (addTag_cur h2 (song p2) s2 l _ (Tag.new name None) E2 eq_refl El2)
      as (s3 & line3 & R3 & A3 & B3 & C3).
    set (h3 := View.touch h2 (song p2) l s3 line3) in *.
    pose proof (touch_song h2 (song p2) l s3 line3 s2 E2) as E3.
    pose proof (touch_line h2 (song p2) l s3 line3 _ El2) as El3.
    fold h3 in E3, El3.
    destruct (setCurrentProperties_run stamps NONE p2 h3 s3 l line3 E3 B3 El3)
      as (line4 & R4 & I4).
    exists (with_currentSectionType p2 None),
      (View.touch h3 (song p2) l s3 line4), s3, l, line4.
    split.
    { unfold endOfSong. erewrite run_bind by exact R0. rewrite Cs, Hn.
      erewrite run_bind.
      2:{ unfold startNewLine. erewrite run_bind by exact R1. reflexivity. }
      fold p2. unfold endSection.
      change (currentSectionType p2) with (currentSectionType p1). rewrite Cs, Hn.
      erewrite run_bind.
      2:{ erewrite run_bind by exact R3. reflexivity. }
      erewrite run_bind by exact R4. reflexivity. }
    split; [reflexivity|]. split; [reflexivity|].
    split; [exact (touch_song h3 (song p2) l s3 line4 s3 E3)|].
    split; [reflexivity|].
    split; [rewrite A3; reflexivity|].
    split; [reflexivity|]. split; [exact B3|].
    split; [exact (touch_line h3 (song p2) l s3 line4 line3 El3)|].
    split.
    { unfold h3, h2. simpl. rewrite !length_insert, length_app. simpl. lia. }
    rewrite I4, C3. reflexivity.
  - intros l line Cs Hc El.
    destruct (setCurrentProperties_run stamps NONE p1 h1 s1 l line E1 Hc El)
      as (line' & R2 & I2).
    exists (with_currentSectionType p1 None), (View.touch h1 (song p1) l s1 line'), line'.
    split; [|easy].
    unfold endOfSong. erewrite run_bind by exact R0.
    destruct (currentSectionType p1) as [st|] eqn:Ec.
    + rewrite Cs. erewrite run_bind by reflexivity.
      unfold endSection. rewrite Ec, Cs.
      erewrite run_bind by reflexivity.
      erewrite run_bind by exact R2. reflexivity.
    + erewrite run_bind by reflexivity.
      unfold endSection. rewrite Ec.
      erewrite run_bind by reflexivity.
      erewrite run_bind by exact R2. reflexivity.
Qed.


(** *** Greedy repetition of a character class *)

Lemma star_chr_nil {R} p n c (k : Regex.cont (R := R)) :
  Regex.run (Regex.Star (Regex.Chr p)) n [] c k = k n [] c.
Proof. reflexivity. Qed.

Lemma star_chr_cons {R} p n a s c (k : Regex.cont (R := R)) :
  Regex.run (Regex.Star (Regex.Chr p)) n (a :: s) c k
  = if p a
    then match Regex.run (Regex.Star (Regex.Chr p)) (S n) s c k with
         | Some x => Some x
         | None => k n (a :: s) c
         end
    else k n (a :: s) c.
Proof.
  cbn [Regex.run length]. destruct (p a); [|reflexivity].
  assert ((n <? S n) = true) as -> by (apply Nat.ltb_lt; lia).
  reflexivity.
Qed.

(** The repetition takes all of [w] when what follows [w] does not belong
    to the class and the rest of the expression matches there. *)
Lemma star_chr_greedy {R} p (k : Regex.cont (R := R)) x w :
  forall n s' c,
    forallb p w = true ->
    match s' with [] => True | a :: _ => p a = false end ->
    k (n + length w) s' c = Some x ->
    Regex.run (Regex.Star (Regex.Chr p)) n (w ++ s') c k = Some x.
Proof.
  induction w as [|a w IH]; intros n s' c Pw Hd K.
  - change ([] ++ s') with s'. cbn [length] in K.
    rewrite Nat.add_0_r in K. destruct s' as [|b s'].
    + now rewrite star_chr_nil.
    + now rewrite star_chr_cons, Hd.
  - simpl in Pw. apply andb_true_iff in Pw as [Pa Pw].
    change ((a :: w) ++ s') with (a :: (w ++ s')).
    rewrite star_chr_cons, Pa.
    rewrite (IH (S n) s' c Pw Hd); [reflexivity|].
    rewrite <- K. f_equal. simpl. lia.
Qed.

Lemma chars_app (a b : string) :
  JsString.chars (a ++ b)%string = JsString.chars a ++ JsString.chars b.
Proof. induction a as [|c a IH]; simpl; [easy|]. now rewrite <- IH. Qed.

Lemma of_chars_chars (s : string) : JsString.of_chars (JsString.chars s) = s.
Proof. apply string_of_list_ascii_of_string. Qed.

Lemma run_seq {R} r1 r2 n s c (k : Regex.cont (R := R)) :
  Regex.run (Regex.Seq r1 r2) n s c k
  = Regex.run r1 n s c (fun n' s' c' => Regex.run r2 n' s' c' k).
Proof. reflexivity. Qed.

Lemma run_chr {R} p n a s c (k : Regex.cont (R := R)) :
  Regex.run (Regex.Chr p) n (a :: s) c k = if p a then k (S n) s c else None.
Proof. reflexivity. Qed.

Lemma run_group {R} r n s c (k : Regex.cont (R := R)) :
  Regex.run (Regex.Group r) n s c k
  = Regex.run r n s c (fun n' s' _ => k n' s' (Some (take (n' - n) s))).
Proof. reflexivity. Qed.

Lemma run_bol {R} s c (k : Regex.cont (R := R)) :
  Regex.run Regex.Bol 0 s c k = k 0 s c.
Proof. reflexivity. Qed.

(** A line that starts with a bracketed text without a closing bracket in
    it matches OTHER_METADATA_LINE_REGEX, and the text is the group. *)
Lemma other_metadata_exec (w rest : string) :
  w <> "" ->
  forallb (fun a => negb (Ascii.eqb a "]")) (JsString.chars w) = true ->
  exists m,
    Regex.exec OTHER_METADATA_LINE_REGEX ("[" ++ w ++ "]" ++ rest)%string = Some m /\
    Regex.group1 m = Some w.
Proof.
  intros Ne Nb. destruct w as [|a w]; [congruence|].
  simpl in Nb. apply andb_true_iff in Nb as [Na Nb].
  unfold Regex.exec.
  change (JsString.chars ("[" ++ String a w ++ "]" ++ rest)%string)
    with ("["%char :: a :: JsString.chars (w ++ String "]" rest)%string).
  rewrite chars_app.
  change (JsString.chars (String "]" rest)) with ("]"%char :: JsString.chars rest).
  cbn [Regex.exec_from]. unfold Regex.match_at, OTHER_METADATA_LINE_REGEX.
  cbn [Regex.seqs Regex.lit map JsString.chars list_ascii_of_string].
  unfold Regex.Plus.
  rewrite run_seq, run_bol, run_seq, run_chr.
  change (Regex.only "[" "[") with true. cbn iota.
  rewrite run_seq, run_group, run_seq, run_chr.
  change (Regex.only "]" a) with (Ascii.eqb a "]"). rewrite Na.
  erewrite (star_chr_greedy (fun a0 => negb (Regex.only "]" a0))).
  4:{ rewrite run_chr. change (Regex.only "]" "]") with true. cbn iota.
      replace (2 + length (JsString.chars w) - 1)
        with (length (a :: JsString.chars w)) by (simpl; lia).
      change (a :: JsString.chars w ++ "]"%char :: JsString.chars rest)
        with ((a :: JsString.chars w) ++ "]"%char :: JsString.chars rest).
      rewrite take_app_length. reflexivity. }
  2: exact Nb.
  2: reflexivity.
  eexists. split; [reflexivity|]. simpl. now rewrite of_chars_chars.
Qed.


(** X19.  A line that starts with a bracketed text (not empty, without a
    closing bracket in it) and is not a verse or chorus label becomes a
    comment: [parseLine] returns, no section is open in the parser
    afterwards, and the parser is on the current Line of the Song, which
    holds one comment Tag whose value is the text between the brackets;
    what follows the closing bracket is dropped. *)
Theorem bracketed_label_becomes_comment
        (w rest : string) (p : t) (h : Song.heap) :
  ParserView.ready h p = true ->
  w <> "" ->
  forallb (fun a => negb (Ascii.eqb a "]")) (JsString.chars w) = true ->
  Regex.test VERSE_LINE_REGEX ("[" ++ w ++ "]" ++ rest)%string = false ->
  Regex.test CHORUS_LINE_REGEX ("[" ++ w ++ "]" ++ rest)%string = false ->
  exists p' h' s' l newLine,
    parseLine ("[" ++ w ++ "]" ++ rest)%string p h = Ok (p', h') /\
    currentSectionType p' = None /\
    Song.songs h' !! song p' = Some s' /\
    songLine p' = Some l /\ Song.currentLine s' = Some l /\
    Song.lineobjs h' !! l = Some newLine /\
    Line.items newLine = [ITag (Tag.new COMMENT (Some (VStr w)))].
Proof.
  intros R Ne Nb T1 T2.
  destruct (other_metadata_exec w rest Ne Nb) as (m & Ex & G).
  destruct (section_end_run stamps h p R) as (b & p1 & h1 & s1 & Rb & R1 & Sg & E1 & Cs).
  destruct (startNewLine_run p1 h1 s1 E1) as (h2 & R2 & F2).
  set (p2 := with_songLine p1 (Some (length (Song.lineobjs h1)))) in *.
  destruct (fresh_after_endSection stamps p2 h2 F2) as (p3 & h3 & R3 & Sg3 & Cs3 & F3).
  destruct F3 as (s3 & l3 & line3 & E3 & Sl3 & Hc3 & El3 & I3).
  eexists p3, _, s3, l3, _. split.
  { unfold parseLine. erewrite run_bind by exact Rb.
    erewrite run_bind by exact R1. rewrite T1, T2, (test_exec _ _ _ Ex).
    unfold parseMetadataLine.
    erewrite run_bind by exact R2. fold p2.
    erewrite run_bind by exact R3.
    erewrite run_bind by (eapply match1_run; eassumption).
    erewrite run_bind by (eapply onSongLine_run; eassumption).
    reflexivity. }
  split; [exact Cs3|]. split; [exact E3|]. split; [exact Sl3|].
  split; [exact Hc3|].
  split; [simpl; apply list_lookup_insert_eq; eapply lookup_lt_Some; exact El3|].
  simpl. now rewrite I3.
Qed.


(** *** Expressions anchored at the start of the line *)

Lemma exec_from_bol r s :
  forall i, Regex.exec_from (Regex.Seq Regex.Bol r) (S i) s = None.
Proof.
  induction s as [|a s IH]; intros i; cbn [Regex.exec_from];
    unfold Regex.match_at; rewrite run_seq; cbn [Regex.run Nat.eqb];
    [reflexivity | apply IH].
Qed.

Lemma exec_anchored r line :
  Regex.exec (Regex.Seq Regex.Bol r) line
  = Regex.match_at (Regex.Seq Regex.Bol r) 0 (JsString.chars line).
Proof.
  unfold Regex.exec. destruct (JsString.chars line) as [|a s];
    cbn [Regex.exec_from];
    destruct (Regex.match_at _ 0 _); try reflexivity.
  apply exec_from_bol.
Qed.

(** The repetition gives up characters one by one while the rest of the
    expression does not match. *)
Lemma star_chr_all_fail {R} p (k : Regex.cont (R := R)) c s :
  forall n,
    (forall u t, s = u ++ t -> u <> [] -> k (n + length u) t c = None) ->
    Regex.run (Regex.Star (Regex.Chr p)) n s c k = k n s c.
Proof.
  induction s as [|a s IH]; intros n F; [apply star_chr_nil|].
  rewrite star_chr_cons. destruct (p a); [|reflexivity].
  rewrite IH.
  - pose proof (F [a] s eq_refl ltac:(discriminate)) as Fa.
    cbn [length] in Fa. rewrite Nat.add_1_r in Fa. now rewrite Fa.
  - intros u t -> Nu.
    replace (S n + length u) with (n + length (a :: u)) by (simpl; lia).
    now apply F.
Qed.

Lemma star_chr_prefix {R} p (k : Regex.cont (R := R)) x w :
  forall n s' c,
    forallb p w = true ->
    Regex.run (Regex.Star (Regex.Chr p)) (n + length w) s' c k = Some x ->
    Regex.run (Regex.Star (Regex.Chr p)) n (w ++ s') c k = Some x.
Proof.
  induction w as [|a w IH]; intros n s' c Pw K.
  - change ([] ++ s') with s'. cbn [length] in K. now rewrite Nat.add_0_r in K.
  - simpl in Pw. apply andb_true_iff in Pw as [Pa Pw].
    change ((a :: w) ++ s') with (a :: (w ++ s')).
    rewrite star_chr_cons, Pa.
    rewrite (IH (S n) s' c Pw); [reflexivity|].
    rewrite <- K. f_equal. simpl. lia.
Qed.

Lemma suffix_head_in {A} (l u t : list A) a :
  l = u ++ a :: t -> a ∈ l.
Proof. intros ->. apply elem_of_app. right. apply elem_of_cons. now left. Qed.


Lemma is_ci_lower c a l :
  Regex.lower a = l -> Regex.lower c = l -> Regex.is_ci c a = true.
Proof. intros <- E. unfold Regex.is_ci. rewrite E. apply Ascii.eqb_refl. Qed.

Lemma bracket_fails {R} (k0 : Regex.cont (R := R)) rest :
  forallb (fun a => negb (Ascii.eqb a "]")) rest = true ->
  forall (g : nat -> option (list ascii)) u t n,
    rest = u ++ t ->
    Regex.run (Regex.Chr (Regex.only "]")) n t (g n) k0 = None.
Proof.
  intros Nb g u t n ->. destruct t as [|b t]; [reflexivity|].
  rewrite run_chr. rewrite forallb_app in Nb.
  apply andb_true_iff in Nb as [_ Nb]. simpl in Nb.
  apply andb_true_iff in Nb as [Nb _]. unfold Regex.only.
  apply negb_true_iff in Nb. now rewrite Nb.
Qed.

(** A line that starts with a bracket and "Verse", in any case, matches
    VERSE_LINE_REGEX when a closing bracket follows, and the group runs to
    the last closing bracket of the line. *)
Lemma verse_exec (v w rest : string) :
  map Regex.lower (JsString.chars v) = JsString.chars "verse" ->
  forallb Regex.dot (JsString.chars w) = true ->
  forallb (fun a => negb (Ascii.eqb a "]")) (JsString.chars rest) = true ->
  exists m,
    Regex.exec VERSE_LINE_REGEX ("[" ++ v ++ w ++ "]" ++ rest)%string = Some m /\
    Regex.group1 m = Some (v ++ w)%string.
Proof.
  intros Hv Dw Nb.
  unfold VERSE_LINE_REGEX. cbn [Regex.seqs]. rewrite exec_anchored.
  change (JsString.chars ("[" ++ v ++ w ++ "]" ++ rest)%string)
    with ("["%char :: JsString.chars (v ++ w ++ String "]" rest)%string).
  rewrite !chars_app.
  change (JsString.chars (String "]" rest)) with ("]"%char :: JsString.chars rest).
  rewrite <- (of_chars_chars (v ++ w)), chars_app.
  destruct (JsString.chars v) as [|a1 [|a2 [|a3 [|a4 [|a5 [|a6 v']]]]]];
    try discriminate.
  injection Hv as L1 L2 L3 L4 L5.
  set (cw := JsString.chars w) in *. set (cr := JsString.chars rest) in *.
  unfold Regex.match_at.
  cbn [Regex.lit Regex.lit_ci Regex.seqs map JsString.chars list_ascii_of_string app].
  rewrite run_seq, run_bol, run_seq, run_chr.
  change (Regex.only "[" "[") with true. cbn iota.
  rewrite run_seq, run_group, run_seq.
  rewrite run_seq, run_chr, (is_ci_lower "V" a1 "v" L1 eq_refl).
  rewrite run_seq, run_chr, (is_ci_lower "e" a2 "e" L2 eq_refl).
  rewrite run_seq, run_chr, (is_ci_lower "r" a3 "r" L3 eq_refl).
  rewrite run_seq, run_chr, (is_ci_lower "s" a4 "s" L4 eq_refl).
  rewrite run_chr, (is_ci_lower "e" a5 "e" L5 eq_refl).
  erewrite star_chr_prefix.
  2: exact Dw.
  2:{ rewrite star_chr_cons. change (Regex.dot "]") with true. cbn iota.
      rewrite star_chr_all_fail.
      - rewrite (bracket_fails _ cr Nb
                   (fun n' => Some (take (n' - 1)
                                      (a1 :: a2 :: a3 :: a4 :: a5 :: cw ++ "]"%char :: cr)))
                   [] cr _ eq_refl).
        rewrite run_chr. change (Regex.only "]" "]") with true. cbn iota.
        reflexivity.
      - intros u t Eq Nu.
        apply (bracket_fails _ cr Nb
                 (fun n' => Some (take (n' - 1)
                                    (a1 :: a2 :: a3 :: a4 :: a5 :: cw ++ "]"%char :: cr)))
                 u t _ Eq). }
  eexists. split; [reflexivity|]. cbn [Regex.group1 option_map].
  replace (6 + length cw - 1) with (length (a1 :: a2 :: a3 :: a4 :: a5 :: cw))
    by (simpl; lia).
  change (a1 :: a2 :: a3 :: a4 :: a5 :: cw ++ "]"%char :: cr)
    with ((a1 :: a2 :: a3 :: a4 :: a5 :: cw) ++ "]"%char :: cr).
  now rewrite take_app_length.
Qed.


Lemma chorus_exec (c rest : string) :
  map Regex.lower (JsString.chars c) = JsString.chars "chorus" ->
  Regex.test VERSE_LINE_REGEX ("[" ++ c ++ "]" ++ rest)%string = false /\
  exists m,
    Regex.exec CHORUS_LINE_REGEX ("[" ++ c ++ "]" ++ rest)%string = Some m /\
    Regex.group1 m = Some c.
Proof.
  intros Hc. unfold Regex.test.
  unfold VERSE_LINE_REGEX, CHORUS_LINE_REGEX. cbn [Regex.seqs].
  rewrite !exec_anchored.
  change (JsString.chars ("[" ++ c ++ "]" ++ rest)%string)
    with ("["%char :: JsString.chars (c ++ String "]" rest)%string).
  rewrite !chars_app.
  change (JsString.chars (String "]" rest)) with ("]"%char :: JsString.chars rest).
  pose proof (of_chars_chars c) as Oc.
  destruct (JsString.chars c) as [|a1 [|a2 [|a3 [|a4 [|a5 [|a6 [|a7 c']]]]]]];
    try discriminate.
  injection Hc as L1 L2 L3 L4 L5 L6.
  set (cr := JsString.chars rest) in *.
  unfold Regex.match_at.
  cbn [Regex.lit Regex.lit_ci Regex.seqs map JsString.chars list_ascii_of_string app].
  split.
  - rewrite run_seq, run_bol, run_seq, run_chr.
    change (Regex.only "[" "[") with true. cbn iota.
    rewrite run_seq, run_group, run_seq, run_seq, run_chr.
    unfold Regex.is_ci at 1. rewrite L1. reflexivity.
  - rewrite run_seq, run_bol, run_seq, run_chr.
    change (Regex.only "[" "[") with true. cbn iota.
    rewrite run_seq, run_group.
    rewrite run_seq, run_chr, (is_ci_lower "C" a1 "c" L1 eq_refl).
    rewrite run_seq, run_chr, (is_ci_lower "h" a2 "h" L2 eq_refl).
    rewrite run_seq, run_chr, (is_ci_lower "o" a3 "o" L3 eq_refl).
    rewrite run_seq, run_chr, (is_ci_lower "r" a4 "r" L4 eq_refl).
    rewrite run_seq, run_chr, (is_ci_lower "u" a5 "u" L5 eq_refl).
    rewrite run_chr, (is_ci_lower "s" a6 "s" L6 eq_refl).
    rewrite run_chr. change (Regex.only "]" "]") with true. cbn iota.
    eexists. split; [reflexivity|]. rewrite <- Oc. reflexivity.
Qed.

(** X17.  A line that starts with an opening bracket and "Verse", in any
    case, and has a closing bracket further on starts a verse: [parseLine]
    returns, the VERSE section is open in the parser, and the parser is on
    the current Line of the Song, which holds the start-of-verse directive
    alone.  The label of the directive runs from "Verse" to the last closing
    bracket of the line (the repetition in VERSE_LINE_REGEX is greedy):
    closing brackets before the last one are part of the label, and what
    follows the last one is dropped. *)
Theorem verse_label_runs_to_last_bracket
        (v w rest : string) (p : t) (h : Song.heap) :
  ParserView.ready h p = true ->
  map Regex.lower (JsString.chars v) = JsString.chars "verse" ->
  forallb Regex.dot (JsString.chars w) = true ->
  forallb (fun a => negb (Ascii.eqb a "]")) (JsString.chars rest) = true ->
  exists p' h' s' l newLine,
    parseLine ("[" ++ v ++ w ++ "]" ++ rest)%string p h = Ok (p', h') /\
    currentSectionType p' = Some VERSE /\
    Song.songs h' !! song p' = Some s' /\
    songLine p' = Some l /\ Song.currentLine s' = Some l /\
    Song.lineobjs h' !! l = Some newLine /\
    Line.items newLine
    = [ITag (Tag.new START_OF_VERSE (Some (VStr (v ++ w)%string)))].
Proof.
  intros R Hv Dw Nb.
  destruct (verse_exec v w rest Hv Dw Nb) as (m & Ex & G).
  destruct (section_label_run ("[" ++ v ++ w ++ "]" ++ rest)%string _ m p h R G)
    as [V _].
  exact (V Ex).
Qed.

(** X18.  A line that starts with "[Chorus]", in any case, starts a
    chorus: [parseLine] returns, the CHORUS section is open in the parser,
    and the parser is on the current Line of the Song, which holds the
    start-of-chorus directive alone, labelled with the word as it is
    written; what follows the closing bracket is dropped. *)
Theorem chorus_label_opens_chorus
        (c rest : string) (p : t) (h : Song.heap) :
  ParserView.ready h p = true ->
  map Regex.lower (JsString.chars c) = JsString.chars "chorus" ->
  exists p' h' s' l newLine,
    parseLine ("[" ++ c ++ "]" ++ rest)%string p h = Ok (p', h') /\
    currentSectionType p' = Some CHORUS /\
    Song.songs h' !! song p' = Some s' /\
    songLine p' = Some l /\ Song.currentLine s' = Some l /\
    Song.lineobjs h' !! l = Some newLine /\
    Line.items newLine = [ITag (Tag.new START_OF_CHORUS (Some (VStr c)))].
Proof.
  intros R Hc.
  destruct (chorus_exec c rest Hc) as (T & m & Ex & G).
  destruct (section_label_run ("[" ++ c ++ "]" ++ rest)%string _ m p h R G)
    as [_ C].
  exact (C T Ex).
Qed.


(** X22.  [startSection(sectionType, label)] of the parser while a
    section is open closes it first: the end directive of the open section
    is appended to the Line the parser is on, exactly one Line is created
    and appended to the Song, and it holds the start directive with the
    label, alone; the parser is on that Line, in the new section. *)
Theorem startSection_closes_open_section_first
        (T0 closing T name label : string) (p : t) (h : Song.heap)
        (s : Song.t) (l : nat) (line : Line.t) :
  Song.songs h !! song p = Some s ->
  songLine p = Some l -> Song.currentLine s = Some l ->
  Song.lineobjs h !! l = Some line ->
  currentSectionType p = Some T0 ->
  endSectionTags T0 = Some closing ->
  startSectionTags T = Some name ->
  exists p' h' s' closed opened,
    startSection T label p h = Ok (p', h') /\
    currentSectionType p' = Some T /\ song p' = song p /\
    Song.songs h' !! song p' = Some s' /\
    Song.lines s' = Song.lines s ++ [length (Song.lineobjs h)] /\
    songLine p' = Some (length (Song.lineobjs h)) /\
    Song.currentLine s' = Some (length (Song.lineobjs h)) /\
    Song.lineobjs h' !! l = Some closed /\
    Line.items closed = Line.items line ++ [ITag (Tag.new closing None)] /\
    Song.lineobjs h' !! length (Song.lineobjs h) = Some opened /\
    Line.items opened = [ITag (Tag.new name (Some (VStr label)))] /\
    length (Song.lineobjs h') = S (length (Song.lineobjs h)).
Proof.
  intros E Sl Hc El Cs En Hn.
  pose proof (lookup_lt_Some _ _ _ E) as Hlt.
  pose proof (lookup_lt_Some _ _ _ El) as Hl.
  assert (truthy (option_map VStr (currentSectionType p)) = true) as Tt.
  { rewrite Cs. simpl. unfold endSectionTags in En.
    destruct (String.eqb_spec T0 VERSE) as [->|_]; [reflexivity|].
    destruct (String.eqb_spec T0 CHORUS) as [->|_]; [reflexivity|].
    destruct (String.eqb_spec T0 TAB) as [->|_]; [reflexivity | discriminate]. }
  destruct (addTag_cur h (song p) s l line (Tag.new closing None) E Hc El)
    as (s1 & line1 & R1 & A1 & B1 & C1).
  set (h1 := View.touch h (song p) l s1 line1) in *.
  assert (Song.songs h1 !! song p = Some s1) as E1 by (eapply touch_song; exact E).
  assert (length (Song.lineobjs h1) = length (Song.lineobjs h)) as Len1.
  { unfold h1. simpl. apply length_insert. }
  pose proof (addLine_run h1 (song p) s1 E1) as R2. rewrite Len1 in R2.
  set (n := length (Song.lineobjs h)) in *.
  set (s2 := Song.with_currentLine
               (Song.with_lines s1 (Song.lines s1 ++ [n])) (Some n)) in *.
  match type of R2 with _ = Ok (_, ?x) => set (h2 := x) in * end.
  set (p2 := with_songLine p (Some n)).
  assert (Song.songs h2 !! song p2 = Some s2) as E2.
  { unfold h2. simpl. apply list_lookup_insert_eq. now rewrite length_insert. }
  assert (Song.lineobjs h2 !! n = Some (View.stamped s1)) as El2.
  { unfold h2. simpl. rewrite <- Len1. apply lookup_snoc. }
  assert (Song.lineobjs h2 !! l = Some line1) as Eo2.
  { unfold h2, h1. simpl. rewrite lookup_app_l by (rewrite length_insert; lia).
    now apply list_lookup_insert_eq. }
  destruct (setCurrentProperties_run stamps NONE p2 h2 s2 n _ E2 eq_refl El2)
    as (line3 & R3 & I3).
  set (h3 := View.touch h2 (song p2) n s2 line3) in *.
  pose proof (touch_song h2 (song p2) n s2 line3 s2 E2) as E3.
  pose proof (touch_line h2 (song p2) n s2 line3 _ El2) as El3.
  fold h3 in E3, El3.
  set (p3 := with_currentSectionType (with_currentSectionType p2 None) (Some T)).
  destruct (setCurrentProperties_run stamps T p3 h3 s2 n line3 E3 eq_refl El3)
    as (line4 & R4 & I4).
  set (h4 := View.touch h3 (song p3) n s2 line4) in *.
  pose proof (touch_song h3 (song p3) n s2 line4 s2 E3) as E4.
  pose proof (touch_line h3 (song p3) n s2 line4 line3 El3) as El4.
  fold h4 in E4, El4.
  destruct (addTag_cur h4 (song p3) s2 n line4
              (Tag.new name (Some (VStr label))) E4 eq_refl El4)
    as (s5 & line5 & R5 & A5 & B5 & C5).
  exists p3, (View.touch h4 (song p3) n s5 line5), s5, line1, line5.
  split.
  { unfold startSection. rewrite Tt.
    erewrite run_bind.
    2:{ unfold endSection. rewrite Cs, En.
        erewrite run_bind.
        2:{ erewrite run_bind by exact R1.
            unfold startNewLine. erewrite run_bind by exact R2. reflexivity. }
        fold p2. erewrite run_bind by exact R3. reflexivity. }
    fold p3. erewrite run_bind by exact R4. rewrite Hn.
    erewrite run_bind by exact R5. reflexivity. }
  split; [reflexivity|]. split; [reflexivity|].
  split; [exact (touch_song h4 (song p3) n s5 line5 s2 E4)|].
  split; [rewrite A5; simpl; now rewrite A1|].
  split; [reflexivity|]. split; [exact B5|].
  split.
  { unfold h4, h3. simpl. rewrite !list_lookup_insert_ne by (unfold n; lia).
    exact Eo2. }
  split; [exact C1|].
  split; [exact (touch_line h4 (song p3) n s5 line5 line4 El4)|].
  split; [rewrite C5, I4, I3; reflexivity|].
  unfold h4, h3, h2. simpl. rewrite !length_insert, length_app, length_insert.
  simpl. unfold n. lia.
Qed.

End MoreParser.

(** ** The parser and its Song in step *)

Section InStep.
Context `{Tag.Methods} `{Line.Methods} `{UltimateGuitarParser.Environment}.
Import UltimateGuitarParser.

Hypothesis stamps : ParserView.stamps_current_line.
Hypothesis plain : ParserView.section_tags_plain.

Lemma ready_well_formed h p :
  ParserView.ready h p = true <-> ParserView.well_formed h p.
Proof.
  unfold ParserView.ready, ParserView.well_formed. split.
  - destruct (Song.songs h !! song p) as [s|]; [|discriminate].
    intros R. apply andb_true_iff in R as [R R3].
    apply andb_true_iff in R as [R1 R2].
    exists s. split; [reflexivity|]. split; [|split].
    + intros l Hl. rewrite forallb_forall in R1.
      apply list_elem_of_In in Hl. specialize (R1 l Hl).
      now apply Nat.ltb_lt in R1.
    + intros l Hc. rewrite Hc in R2. now apply Nat.ltb_lt in R2.
    + intros l Sl. rewrite Sl in R3. apply andb_true_iff in R3 as [R3 R4].
      apply Nat.ltb_lt in R3. split; [exact R3|].
      destruct (Song.currentLine s); [eauto | discriminate].
  - intros (s & E & W1 & W2 & W3). rewrite E.
    apply andb_true_iff. split; [apply andb_true_iff; split|].
    + apply forallb_forall. intros l Hl. apply Nat.ltb_lt. apply W1.
      now apply list_elem_of_In.
    + destruct (Song.currentLine s) as [c|]; [|reflexivity].
      apply Nat.ltb_lt. now apply W2.
    + destruct (songLine p) as [l|]; [|reflexivity].
      destruct (W3 l eq_refl) as [Hl [c Hc]]. rewrite Hc.
      apply andb_true_iff. split; [now apply Nat.ltb_lt | reflexivity].
Qed.

Lemma tracks_intro ws h p s :
  ParserView.well_formed h p ->
  Song.songs h !! song p = Some s ->
  Song.warnings s = ws ->
  match currentSectionType p with
  | Some T => is_Some (endSectionTags T) /\ Song.sectionType s = T
  | None => Song.sectionType s = NONE
  end ->
  ParserView.tracks ws h p.
Proof.
  intros W E Ws St. split; [now apply ready_well_formed|].
  exists s. easy.
Qed.

Lemma well_formed_touch h p p1 s l s1 line1 :
  ParserView.well_formed h p ->
  Song.songs h !! song p = Some s ->
  Song.lines s1 = Song.lines s -> Song.currentLine s1 = Song.currentLine s ->
  song p1 = song p -> songLine p1 = songLine p ->
  ParserView.well_formed (View.touch h (song p) l s1 line1) p1.
Proof.
  intros (s0 & E0 & W1 & W2 & W3) E L C Sg Sl.
  assert (s0 = s) as -> by congruence.
  exists s1. rewrite Sg, Sl. simpl. rewrite length_insert.
  split; [apply list_lookup_insert_eq; eapply lookup_lt_Some; exact E|].
  rewrite L, C. easy.
Qed.

Lemma well_formed_addLine h p s :
  ParserView.well_formed h p ->
  Song.songs h !! song p = Some s ->
  ParserView.well_formed
    {| Song.songs :=
         <[song p := Song.with_currentLine
                       (Song.with_lines s (Song.lines s ++ [length (Song.lineobjs h)]))
                       (Some (length (Song.lineobjs h)))]> (Song.songs h);
       Song.lineobjs := Song.lineobjs h ++ [View.stamped s] |}
    (with_songLine p (Some (length (Song.lineobjs h)))).
Proof.
  intros (s0 & E0 & W1 & W2 & W3) E.
  assert (s0 = s) as -> by congruence.
  eexists. simpl. rewrite length_app. simpl.
  split; [apply list_lookup_insert_eq; eapply lookup_lt_Some; exact E|].
  simpl. split; [|split].
  - intros l Hl. apply elem_of_app in Hl as [Hl|Hl].
    + specialize (W1 l Hl). lia.
    + apply list_elem_of_singleton in Hl. lia.
  - intros l [= <-]. lia.
  - intros l [= <-]. split; [lia | eauto].
Qed.

Lemma well_formed_put h p l line1 :
  ParserView.well_formed h p ->
  ParserView.well_formed
    {| Song.songs := Song.songs h;
       Song.lineobjs := <[l := line1]> (Song.lineobjs h) |} p.
Proof.
  intros (s & E & W). exists s. simpl. now rewrite length_insert.
Qed.


Lemma tracks_elim ws h p :
  ParserView.tracks ws h p ->
  exists s,
    ParserView.well_formed h p /\
    Song.songs h !! song p = Some s /\
    Song.warnings s = ws /\
    match currentSectionType p with
    | Some T => is_Some (endSectionTags T) /\ Song.sectionType s = T
    | None => Song.sectionType s = NONE
    end.
Proof.
  intros [R (s & E & Ws & St)]. exists s.
  split; [now apply ready_well_formed | easy].
Qed.

Lemma current_of h p s l0 :
  ParserView.well_formed h p ->
  Song.songs h !! song p = Some s ->
  songLine p = Some l0 ->
  exists l line, Song.currentLine s = Some l /\ Song.lineobjs h !! l = Some line.
Proof.
  intros (s0 & E0 & W1 & W2 & W3) E Sl.
  assert (s0 = s) as -> by congruence.
  destruct (W3 l0 Sl) as [_ [l Hc]].
  destruct (lookup_lt_is_Some_2 _ _ (W2 l Hc)) as [line El]. eauto.
Qed.

Lemma endSectionTags_inv T name :
  endSectionTags T = Some name ->
  exists opening,
    In (opening, name, T) View.section_tags /\
    startSectionTags T = Some opening /\
    In name [START_OF_VERSE; END_OF_VERSE; START_OF_CHORUS; END_OF_CHORUS;
             START_OF_TAB; END_OF_TAB].
Proof.
  unfold endSectionTags, startSectionTags.
  destruct (String.eqb_spec T VERSE) as [->|_].
  { intros [= <-]. exists START_OF_VERSE. simpl. tauto. }
  destruct (String.eqb_spec T CHORUS) as [->|_].
  { intros [= <-]. exists START_OF_CHORUS. simpl. tauto. }
  destruct (String.eqb_spec T TAB) as [->|_]; [|discriminate].
  intros [= <-]. exists START_OF_TAB. simpl. tauto.
Qed.

Lemma startSectionTags_inv T name :
  startSectionTags T = Some name ->
  exists closing,
    In (name, closing, T) View.section_tags /\
    endSectionTags T = Some closing /\
    In name [START_OF_VERSE; END_OF_VERSE; START_OF_CHORUS; END_OF_CHORUS;
             START_OF_TAB; END_OF_TAB].
Proof.
  unfold endSectionTags, startSectionTags.
  destruct (String.eqb_spec T VERSE) as [->|_].
  { intros [= <-]. exists END_OF_VERSE. simpl. tauto. }
  destruct (String.eqb_spec T CHORUS) as [->|_].
  { intros [= <-]. exists END_OF_CHORUS. simpl. tauto. }
  destruct (String.eqb_spec T TAB) as [->|_]; [|discriminate].
  intros [= <-]. exists END_OF_TAB. simpl. tauto.
Qed.

Lemma tracks_startNewLine ws h p :
  ParserView.tracks ws h p ->
  exists h',
    startNewLine p h
    = Ok (with_songLine p (Some (length (Song.lineobjs h))), h') /\
    ParserView.tracks ws h' (with_songLine p (Some (length (Song.lineobjs h)))).
Proof.
  intros Tr. destruct (tracks_elim _ _ _ Tr) as (s & W & E & Ws & St).
  pose proof (addLine_run h (song p) s E) as R.
  eexists. split.
  { unfold startNewLine. erewrite run_bind by exact R. reflexivity. }
  eapply tracks_intro.
  - now apply well_formed_addLine.
  - simpl. apply list_lookup_insert_eq. eapply lookup_lt_Some. exact E.
  - exact Ws.
  - exact St.
Qed.

Lemma tracks_endSection ws h p addNewLine :
  ParserView.tracks ws h p -> is_Some (songLine p) ->
  exists p' h',
    endSection addNewLine p h = Ok (p', h') /\
    ParserView.tracks ws h' p' /\
    currentSectionType p' = None /\ song p' = song p /\
    is_Some (songLine p').
Proof.
  intros Tr [l0 Sl].
  destruct (tracks_elim _ _ _ Tr) as (s & W & E & Ws & St).
  destruct (current_of h p s l0 W E Sl) as (l & line & Hc & El).
  unfold endSection.
  destruct (currentSectionType p) as [T|] eqn:Ec.
  - destruct St as [[name En] St]. rewrite En.
    destruct (endSectionTags_inv T name En) as (opening & Hin & _ & Hname).
    set (tag := Tag.new name None).
    pose proof (addTag_end_run h (song p) s l line tag opening name T Hin eq_refl
                  (plain name None Hname) E Hc El) as R1.
    assert (View.checked s T tag = s) as Ck.
    { unfold View.checked. now rewrite St, String.eqb_refl. }
    unfold View.ended in R1. rewrite Ck in R1.
    set (s1 := Song.with_sectionType s NONE) in *.
    set (h1 := View.touch h (song p) l s1 (Line.addTag tag line)) in *.
    assert (ParserView.well_formed h1 p) as W1
        by (eapply well_formed_touch; try eassumption; reflexivity).
    assert (Song.songs h1 !! song p = Some s1) as E1
        by (eapply touch_song; exact E).
    assert (Song.lineobjs h1 !! l = Some (Line.addTag tag line)) as El1
        by (eapply touch_line; exact El).
    destruct addNewLine.
    + pose proof (addLine_run h1 (song p) s1 E1) as R2.
      set (n := length (Song.lineobjs h1)) in *.
      set (p2 := with_songLine p (Some n)).
      set (s2 := Song.with_currentLine
                   (Song.with_lines s1 (Song.lines s1 ++ [n])) (Some n)) in *.
      match type of R2 with _ = Ok (_, ?x) => set (h2 := x) in * end.
      pose proof (well_formed_addLine h1 p s1 W1 E1) as W2.
      fold n s2 h2 p2 in W2.
      assert (Song.songs h2 !! song p2 = Some s2) as E2.
      { unfold h2. simpl. apply list_lookup_insert_eq.
        eapply lookup_lt_Some. exact E1. }
      assert (Song.lineobjs h2 !! n = Some (View.stamped s1)) as El2.
      { unfold h2. simpl. apply lookup_snoc. }
      destruct (setCurrentProperties_run stamps NONE p2 h2 s2 n _ E2 eq_refl El2)
        as (line' & R3 & I3).
      exists (with_currentSectionType p2 None),
        (View.touch h2 (song p2) n s2 line').
      split.
      { erewrite run_bind.
        2:{ erewrite run_bind by exact R1.
            unfold startNewLine. erewrite run_bind by exact R2. reflexivity. }
        fold p2. erewrite run_bind by exact R3. reflexivity. }
      split.
      { eapply tracks_intro with (s := s2).
        - eapply well_formed_touch; try exact W2; try exact E2; reflexivity.
        - exact (touch_song h2 (song p2) n s2 line' s2 E2).
        - exact Ws.
        - reflexivity. }
      split; [reflexivity|]. split; [reflexivity|]. simpl. eauto.
    + destruct (setCurrentProperties_run stamps NONE p h1 s1 l _ E1 Hc El1)
        as (line' & R3 & I3).
      exists (with_currentSectionType p None),
        (View.touch h1 (song p) l s1 line').
      split.
      { erewrite run_bind.
        2:{ erewrite run_bind by exact R1. reflexivity. }
        erewrite run_bind by exact R3. reflexivity. }
      split.
      { eapply tracks_intro with (s := s1).
        - eapply well_formed_touch; try exact W1; try exact E1; reflexivity.
        - exact (touch_song h1 (song p) l s1 line' s1 E1).
        - exact Ws.
        - reflexivity. }
      split; [reflexivity|]. split; [reflexivity|]. simpl. eauto.
  - destruct (setCurrentProperties_run stamps NONE p h s l line E Hc El)
      as (line' & R3 & I3).
    exists (with_currentSectionType p None), (View.touch h (song p) l s line').
    split.
    { erewrite run_bind by reflexivity.
      erewrite run_bind by exact R3. reflexivity. }
    split.
    { eapply tracks_intro with (s := s).
      - eapply well_formed_touch; try exact W; try exact E; reflexivity.
      - exact (touch_song h (song p) l s line' s E).
      - exact Ws.
      - exact St. }
    split; [reflexivity|]. split; [reflexivity|]. simpl. eauto.
Qed.


Lemma open_section_truthy T :
  is_Some (endSectionTags T) -> truthy (Some (VStr T)) = true.
Proof.
  intros [name En]. destruct (endSectionTags_inv T name En) as (o & Hin & _).
  simpl in Hin. destruct Hin as [I|[I|[I|[]]]]; inversion I; reflexivity.
Qed.

Lemma tracks_startSection ws h p T name label :
  ParserView.tracks ws h p -> is_Some (songLine p) ->
  startSectionTags T = Some name ->
  exists p' h',
    startSection T label p h = Ok (p', h') /\
    ParserView.tracks ws h' p' /\
    currentSectionType p' = Some T /\ song p' = song p /\
    is_Some (songLine p').
Proof.
  intros Tr Sl Hn. unfold startSection.
  assert (exists p1 h1,
             (if truthy (option_map VStr (currentSectionType p))
              then endSection true p else mret p) h = Ok (p1, h1) /\
             ParserView.tracks ws h1 p1 /\
             currentSectionType p1 = None /\ song p1 = song p /\
             is_Some (songLine p1))
    as (p1 & h1 & R1 & Tr1 & Cs1 & Sg1 & Sl1).
  { destruct (truthy (option_map VStr (currentSectionType p))) eqn:Tt.
    - now apply tracks_endSection.
    - exists p, h. rewrite run_ret.
      split; [reflexivity|]. split; [exact Tr|].
      split; [|split; [reflexivity | exact Sl]].
      destruct (tracks_elim _ _ _ Tr) as (s & _ & _ & _ & St).
      destruct (currentSectionType p) as [T0|]; [|reflexivity].
      destruct St as [St _]. apply open_section_truthy in St.
      simpl in Tt. simpl in St. congruence. }
  destruct (tracks_elim _ _ _ Tr1) as (s1 & W1 & E1 & Ws1 & St1).
  rewrite Cs1 in St1.
  destruct Sl1 as [l0 Sl1].
  destruct (current_of h1 p1 s1 l0 W1 E1 Sl1) as (l & line & Hc & El).
  set (p2 := with_currentSectionType p1 (Some T)).
  destruct (setCurrentProperties_run stamps T p2 h1 s1 l line E1 Hc El)
    as (line2 & R2 & I2).
  set (h2 := View.touch h1 (song p2) l s1 line2) in *.
  assert (ParserView.well_formed h2 p2) as W2
      by (eapply well_formed_touch; try exact W1; try exact E1; reflexivity).
  pose proof (touch_song h1 (song p2) l s1 line2 s1 E1) as E2.
  pose proof (touch_line h1 (song p2) l s1 line2 line El) as El2.
  fold h2 in E2, El2.
  destruct (startSectionTags_inv T name Hn) as (closing & Hin & En & Hname).
  set (tag := Tag.new name (Some (VStr label))).
  pose proof (addTag_start_run h2 (song p2) s1 l line2 tag name closing T Hin eq_refl
                (plain name _ Hname) E2 Hc El2) as R3.
  assert (View.checked s1 NONE tag = s1) as Ck.
  { unfold View.checked. now rewrite St1, String.eqb_refl. }
  unfold View.started in R3. rewrite Ck in R3.
  eexists p2, _. split.
  { erewrite run_bind by exact R1. fold p2.
    erewrite run_bind by exact R2. rewrite Hn.
    erewrite run_bind by exact R3. reflexivity. }
  split.
  { eapply tracks_intro with (s := Song.with_sectionType s1 T).
    - eapply well_formed_touch; try exact W2; try exact E2; reflexivity.
    - eapply touch_song. exact E2.
    - exact Ws1.
    - simpl. split; [rewrite En; eauto | reflexivity]. }
  split; [reflexivity|]. split; [exact Sg1|]. simpl. eauto.
Qed.

Lemma tracks_onSongLine ws h p m :
  ParserView.tracks ws h p -> is_Some (songLine p) ->
  exists h', onSongLine m p h = Ok (tt, h') /\ ParserView.tracks ws h' p.
Proof.
  intros Tr [l Sl].
  destruct (tracks_elim _ _ _ Tr) as (s & W & E & Ws & St).
  pose proof W as (s0 & E0 & W1 & W2 & W3).
  destruct (W3 l Sl) as [Hl _].
  destruct (lookup_lt_is_Some_2 _ _ Hl) as [line El].
  eexists. split; [eapply onSongLine_run; eassumption|].
  eapply tracks_intro with (s := s); try easy.
  now apply well_formed_put.
Qed.


(** A run of the matcher that succeeds has called its continuation. *)
Lemma run_inv {R} r :
  forall n s c (k : Regex.cont (R := R)) x,
    Regex.run r n s c k = Some x ->
    exists n' s' c', k n' s' c' = Some x.
Proof.
  induction r as [| | |q|r1 IH1 r2 IH2|r1 IH1 r2 IH2|r1 IH1|r1 IH1];
    intros n s c k x; cbn [Regex.run].
  - eauto.
  - destruct (n =? 0); [eauto | discriminate].
  - destruct s; [eauto | discriminate].
  - destruct s as [|a s]; [discriminate|]. destruct (q a); [eauto | discriminate].
  - intros E. apply IH1 in E as (n1 & s1 & c1 & E). now apply IH2 in E.
  - destruct (Regex.run r1 n s c k) eqn:E1.
    + intros [= ->]. now apply IH1 in E1.
    + apply IH2.
  - generalize (length s) as fuel. intros fuel. revert n s c.
    induction fuel as [|fuel IHf]; intros n s c; [eauto|].
    match goal with
    | |- context [Regex.run r1 n s c ?kk] =>
        destruct (Regex.run r1 n s c kk) eqn:E1
    end.
    + intros [= ->]. apply IH1 in E1 as (n1 & s1 & c1 & E1).
      destruct (n <? n1); [|discriminate]. now apply IHf in E1.
    + eauto.
  - intros E. apply IH1 in E as (n1 & s1 & c1 & E). eauto.
Qed.

(** A match of an expression of the shape of the three bracket
    expressions has set the group. *)
Lemma group_set q1 q2 G line m :
  Regex.exec
    (Regex.Seq Regex.Bol
       (Regex.Seq (Regex.Chr q1) (Regex.Seq (Regex.Group G) (Regex.Chr q2))))
    line = Some m ->
  is_Some (Regex.group1 m).
Proof.
  rewrite exec_anchored. unfold Regex.match_at.
  rewrite run_seq, run_bol, run_seq.
  destruct (JsString.chars line) as [|a s1]; [discriminate|].
  rewrite run_chr. destruct (q1 a); [|discriminate].
  rewrite run_seq, run_group. intros E.
  apply run_inv in E as (n' & s' & c' & E).
  destruct s' as [|b s'']; [discriminate|].
  rewrite run_chr in E. destruct (q2 b); [|discriminate].
  injection E as <-. simpl. eauto.
Qed.

Lemma bracket_match1 r line (h : Song.heap) :
  r = VERSE_LINE_REGEX \/ r = CHORUS_LINE_REGEX \/ r = OTHER_METADATA_LINE_REGEX ->
  Regex.test r line = true ->
  exists label, match1 r line h = Ok (label, h).
Proof.
  intros Hr T. unfold Regex.test in T.
  destruct (Regex.exec r line) as [m|] eqn:E; [|discriminate].
  assert (is_Some (Regex.group1 m)) as [label G].
  { destruct Hr as [-> | [-> | ->]]; eapply group_set; exact E. }
  exists label. eapply match1_run; eassumption.
Qed.


Lemma tracks_parseLine ws h p line :
  ParserView.tracks ws h p ->
  ParserView.own_branch line = true ->
  exists p' h',
    parseLine line p h = Ok (p', h') /\
    ParserView.tracks ws h' p' /\
    song p' = song p /\ is_Some (songLine p').
Proof.
  intros Tr Own. pose proof Tr as [Rd _].
  destruct (isSectionEnd_run h p Rd) as (b & Rb & Hb).
  assert (exists p1 h1,
             (if b then endSection true p else mret p) h = Ok (p1, h1) /\
             ParserView.tracks ws h1 p1 /\ song p1 = song p)
    as (p1 & h1 & R1 & Tr1 & Sg1).
  { destruct b.
    - destruct (tracks_endSection ws h p true Tr (Hb eq_refl))
        as (p1 & h1 & R1 & Tr1 & _ & Sg1 & _). eauto.
    - exists p, h. now rewrite run_ret. }
  destruct (tracks_startNewLine ws h1 p1 Tr1) as (h2 & R2 & Tr2).
  set (p2 := with_songLine p1 (Some (length (Song.lineobjs h1)))) in *.
  assert (is_Some (songLine p2)) as Sl2 by (simpl; eauto).
  unfold parseLine. erewrite run_bind by exact Rb.
  erewrite run_bind by exact R1.
  unfold ParserView.own_branch in Own.
  destruct (Regex.test VERSE_LINE_REGEX line) eqn:T1.
  { destruct (bracket_match1 VERSE_LINE_REGEX line h2 (or_introl eq_refl) T1)
      as (label & Rm).
    destruct (tracks_startSection ws h2 p2 VERSE START_OF_VERSE label Tr2 Sl2 eq_refl)
      as (p3 & h3 & R3 & Tr3 & _ & Sg3 & Sl3).
    exists p3, h3. split.
    { erewrite run_bind by exact R2. erewrite run_bind by exact Rm. exact R3. }
    split; [exact Tr3|]. split; [now rewrite Sg3|exact Sl3]. }
  destruct (Regex.test CHORUS_LINE_REGEX line) eqn:T2.
  { destruct (bracket_match1 CHORUS_LINE_REGEX line h2
                (or_intror (or_introl eq_refl)) T2) as (label & Rm).
    destruct (tracks_startSection ws h2 p2 CHORUS START_OF_CHORUS label Tr2 Sl2 eq_refl)
      as (p3 & h3 & R3 & Tr3 & _ & Sg3 & Sl3).
    exists p3, h3. split.
    { erewrite run_bind by exact R2. erewrite run_bind by exact Rm. exact R3. }
    split; [exact Tr3|]. split; [now rewrite Sg3|exact Sl3]. }
  destruct (Regex.test OTHER_METADATA_LINE_REGEX line) eqn:T3.
  { destruct (tracks_endSection ws h2 p2 true Tr2 Sl2)
      as (p3 & h3 & R3 & Tr3 & _ & Sg3 & Sl3).
    destruct (bracket_match1 OTHER_METADATA_LINE_REGEX line h3
                (or_intror (or_intror eq_refl)) T3) as (label & Rm).
    destruct (tracks_onSongLine ws h3 p3
                (Line.addTag (Tag.new COMMENT (Some (VStr label)))) Tr3 Sl3)
      as (h4 & R4 & Tr4).
    exists p3, h4. split.
    { unfold parseMetadataLine.
      erewrite run_bind by exact R2. fold p2.
      erewrite run_bind by exact R3.
      erewrite run_bind by exact Rm.
      erewrite run_bind by exact R4. reflexivity. }
    split; [exact Tr4|]. split; [now rewrite Sg3|exact Sl3]. }
  simpl in Own.
  destruct ((8 <? String.length line)
            && (5 <? String.length line
                     - String.length (JsString.removeAll line "-"))) eqn:T4.
  { assert (exists p3 h3,
               (if negb (ParserView.tab_open p2)
                then p' ← startNewLine p2; startSection TAB "" p'
                else mret p2) h2 = Ok (p3, h3) /\
               ParserView.tracks ws h3 p3 /\ song p3 = song p2 /\
               is_Some (songLine p3))
      as (p3 & h3 & R3 & Tr3 & Sg3 & Sl3).
    { destruct (ParserView.tab_open p2); simpl.
      - exists p2, h2. now rewrite run_ret.
      - destruct (tracks_startNewLine ws h2 p2 Tr2) as (h2' & R2' & Tr2').
        destruct (tracks_startSection ws h2' _ TAB START_OF_TAB "" Tr2'
                    ltac:(simpl; eauto) eq_refl)
          as (p3 & h3 & R3 & Tr3 & _ & Sg3 & Sl3).
        exists p3, h3. split; [|easy].
        erewrite run_bind by exact R2'. exact R3. }
    destruct (tracks_onSongLine ws h3 p3
                (Line.addChordLyricsPair None (Some line)) Tr3 Sl3)
      as (h4 & R4 & Tr4).
    exists p3, h4. split.
    { unfold writeTabLine. erewrite run_bind by exact R2.
      change (match currentSectionType p2 with
              | Some st => String.eqb st TAB
              | None => false
              end) with (ParserView.tab_open p2).
      erewrite run_bind by exact R3.
      erewrite run_bind by exact R4. reflexivity. }
    split; [exact Tr4|]. split; [now rewrite Sg3|exact Sl3]. }
  simpl in Own.
  rewrite Own.
  apply andb_true_iff in Own as [_ Rep].
  destruct (Regex.match_all REPETITION_REGEX line) as [[|rep0 reps]|] eqn:Em;
    try discriminate.
  destruct (tracks_onSongLine ws h2 p2
              (Line.addChordLyricsPair
                 (Some (JsString.replace line rep0
                          (JsString.repeat " " (String.length rep0))))
                 (Some (JsString.repeat " "
                          (String.length
                             (JsString.replace line rep0
                                (JsString.repeat " " (String.length rep0))))
                        ++ JsString.replace rep0 ":" "")%string)) Tr2 Sl2)
    as (h4 & R4 & Tr4).
  exists p2, h4. split.
  { unfold parseRepetitionLine. rewrite Em.
    erewrite run_bind by exact R2. fold p2.
    erewrite run_bind by exact R4. reflexivity. }
  split; [exact Tr4|]. split; [exact Sg1 | exact Sl2].
Qed.

(** X23.  The parser opens and closes sections in step with its Song.
    From a state in which the section open in the parser is the section
    type of the Song, any sequence of calls of [parseLine] on lines that
    this class handles itself (labels, tablature, chord lines with a
    repetition marker) returns, records no warning, and leaves the parser
    and the Song in step; and [endOfSong], when the base class leaves them
    so, closes the section without a warning.  It is assumed that the six
    section directives are not meta tags. *)
Theorem parser_sections_never_warn
        (lines : list string) (p : t) (h : Song.heap)
        (ws : list ParserWarning.t) :
  ParserView.tracks ws h p ->
  forallb ParserView.own_branch lines = true ->
  exists p' h' s',
    foldM (fun p line => parseLine line p) p lines h = Ok (p', h') /\
    ParserView.tracks ws h' p' /\
    song p' = song p /\
    Song.songs h' !! song p' = Some s' /\
    Song.warnings s' = ws /\
    Song.sectionType s'
    = match currentSectionType p' with Some T => T | None => NONE end /\
    (forall p1 h1,
        super_endOfSong p' h' = Some (p1, h1) ->
        ParserView.tracks ws h1 p1 ->
        (currentSectionType p1 = None -> is_Some (songLine p1)) ->
        exists p2 h2 s2,
          endOfSong p' h' = Ok (p2, h2) /\
          ParserView.tracks ws h2 p2 /\
          currentSectionType p2 = None /\
          Song.songs h2 !! song p2 = Some s2 /\
          Song.warnings s2 = ws /\ Song.sectionType s2 = NONE).
Proof.
  intros Tr Own.
  assert (exists p' h',
             foldM (fun p line => parseLine line p) p lines h = Ok (p', h') /\
             ParserView.tracks ws h' p' /\ song p' = song p)
    as (p' & h' & R & Tr' & Sg).
  { revert p h Tr. induction lines as [|line lines IH]; intros p h Tr.
    - exists p, h. cbn [foldM]. now rewrite run_ret.
    - simpl in Own. apply andb_true_iff in Own as [O1 O2].
      destruct (tracks_parseLine ws h p line Tr O1) as (p1 & h1 & R1 & Tr1 & Sg1 & _).
      destruct (IH O2 p1 h1 Tr1) as (p' & h' & R & Tr' & Sg').
      exists p', h'. split; [|split; [exact Tr' | congruence]].
      cbn [foldM]. erewrite run_bind by exact R1. exact R. }
  destruct (tracks_elim _ _ _ Tr') as (s' & W' & E' & Ws' & St').
  exists p', h', s'.
  split; [exact R|]. split; [exact Tr'|]. split; [exact Sg|].
  split; [exact E'|]. split; [exact Ws'|].
  split.
  { destruct (currentSectionType p'); [now destruct St' | exact St']. }
  intros p1 h1 Sup Tr1 Sl1.
  assert (external "super.endOfSong" (super_endOfSong p') h' = Ok (p1, h1)) as R0.
  { unfold external. now rewrite Sup. }
  assert (exists p2 h2,
             match currentSectionType p1 with
             | Some st =>
                 match endSectionTags st with
                 | Some _ => startNewLine p1
                 | None => mret p1
                 end
             | None => mret p1
             end h1 = Ok (p2, h2) /\
             ParserView.tracks ws h2 p2 /\ is_Some (songLine p2))
    as (p2 & h2 & R2 & Tr2 & Sl2).
  { destruct (currentSectionType p1) as [T|] eqn:Ec.
    - destruct (tracks_elim _ _ _ Tr1) as (s1 & _ & _ & _ & St1).
      rewrite Ec in St1. destruct St1 as [[name En] _]. rewrite En.
      destruct (tracks_startNewLine ws h1 p1 Tr1) as (h2 & R2 & Tr2).
      eexists _, h2. split; [exact R2|]. split; [exact Tr2|]. simpl. eauto.
    - exists p1, h1. rewrite run_ret. split; [reflexivity|].
      split; [exact Tr1 | now apply Sl1]. }
  destruct (tracks_endSection ws h2 p2 false Tr2 Sl2)
    as (p3 & h3 & R3 & Tr3 & Cs3 & _ & _).
  destruct (tracks_elim _ _ _ Tr3) as (s3 & _ & E3 & Ws3 & St3).
  rewrite Cs3 in St3.
  exists p3, h3, s3. split; [|easy].
  unfold endOfSong. erewrite run_bind by exact R0.
  erewrite run_bind by exact R2. exact R3.
Qed.

End InStep.

(** ** The blank-line test of the parser *)

Section BlankLine.
Context `{Tag.Methods} `{Line.Methods} `{UltimateGuitarParser.Environment}.
Import UltimateGuitarParser.

(** X24. [isSectionEnd()] on a parser whose references are in the store
    returns without throwing and leaves the store as it was.  It answers
    [true] exactly when the parser has a Line, that Line is empty, the
    Song holds at least two Lines and the second to last Line of the Song
    ([Song.previousLine]) is not empty; so it is [false] while the Song
    holds fewer than two Lines, whatever the parser's Line is. *)
Theorem isSectionEnd_compares_with_second_to_last_line
        (h : Song.heap) (p : t) (s : Song.t) :
  ParserView.ready h p = true ->
  Song.songs h !! song p = Some s ->
  exists b,
    isSectionEnd p h = Ok (b, h) /\
    (length (Song.lines s) < 2 -> b = false) /\
    (b = true <->
     exists l line pl prev,
       songLine p = Some l /\
       Song.lineobjs h !! l = Some line /\
       Line.isEmpty line = true /\
       2 <= length (Song.lines s) /\
       Song.lines s !! (length (Song.lines s) - 2) = Some pl /\
       Song.lineobjs h !! pl = Some prev /\
       Line.isEmpty prev = false).
Proof.
  intros R E. destruct (ready_song h p R) as (s0 & E0 & V & Sl).
  rewrite E in E0. injection E0 as <-.
  unfold isSectionEnd. destruct (songLine p) as [l|] eqn:Pl.
  2:{ exists false. rewrite run_ret. split; [reflexivity|].
      split; [reflexivity|]. split; [discriminate|].
      intros (l & _ & _ & _ & D & _). discriminate D. }
  destruct (Sl l eq_refl) as (Hl & _).
  destruct (lookup_lt_is_Some_2 _ _ Hl) as [line El].
  erewrite run_bind by (apply getLine_run; exact El).
  destruct (Line.isEmpty line) eqn:Il.
  2:{ exists false. rewrite run_ret. split; [reflexivity|].
      split; [reflexivity|]. split; [discriminate|].
      intros (l' & line' & _ & _ & D & El' & Il' & _).
      injection D as <-. rewrite El in El'. injection El' as <-.
      rewrite Il in Il'. discriminate Il'. }
  assert (Song.previousLine (song p) h
          = Ok (if 2 <=? length (Song.lines s)
                then Song.lines s !! (length (Song.lines s) - 2)
                else None, h)) as Rp.
  { unfold Song.previousLine.
    erewrite run_bind by (apply getSong_run; exact E).
    now destruct (2 <=? length (Song.lines s)). }
  erewrite run_bind by exact Rp.
  destruct (2 <=? length (Song.lines s)) eqn:C.
  2:{ apply Nat.leb_gt in C. exists false. rewrite run_ret.
      split; [reflexivity|]. split; [reflexivity|]. split; [discriminate|].
      intros (_ & _ & _ & _ & _ & _ & _ & C2 & _). lia. }
  apply Nat.leb_le in C.
  destruct (lookup_lt_is_Some_2 (Song.lines s) (length (Song.lines s) - 2)
              ltac:(lia)) as [pl Epl].
  rewrite Epl.
  assert (pl < length (Song.lineobjs h)) as Hpl
    by (apply V; eapply list_elem_of_lookup_2; exact Epl).
  destruct (lookup_lt_is_Some_2 _ _ Hpl) as [prev Eprev].
  erewrite run_bind by (apply getLine_run; exact Eprev).
  exists (negb (Line.isEmpty prev)). rewrite run_ret.
  split; [reflexivity|]. split; [lia|]. split.
  - intros N. apply negb_true_iff in N.
    exists l, line, pl, prev. repeat split; assumption.
  - intros (l' & line' & pl' & prev' & _ & _ & _ & _ & Epl' & Eprev' & Ip).
    injection Epl' as <-.
    rewrite Eprev in Eprev'. injection Eprev' as <-.
    now rewrite Ip.
Qed.

End BlankLine.

(** ** Examples on the sample stores *)

Section Examples.
#[local] Existing Instance Sample.tagMethods.
#[local] Existing Instance Sample.lineMethods.
#[local] Existing Instance Sample.accessors.
#[local] Existing Instance Sample.music.
#[local] Existing Instance Sample.env.

Lemma mapItems_keeps_every_line_witness :
  View.song_items Sample.song1 0
  = Some [[Sample.capo "1"; Sample.pair "Am" "la"]; [];
          [Sample.key_tag "C"; Sample.pair "G" "li"]] /\
  exists c st' h' ll',
    Song.mapItems Sample.drop_tags tt 0 Sample.song1 = Ok ((c, st'), h') /\
    View.song_items h' c = Some ll' /\
    length ll' = 3.
Proof.
  split; [reflexivity|].
  destruct (mapItems_keeps_every_line Sample.drop_tags tt Sample.song1 0 _ eq_refl)
    as (c & st' & h' & ll' & R & V & _ & L & _).
  exists c, st', h', ll'. auto.
Defined.

(** The clone of a Song created with metadata has no metadata. *)
Lemma clone_drops_metadata :
  exists c h' s sc,
    Song.clone 0 Sample.titled = Ok (c, h') /\
    Song.songs h' !! 0 = Some s /\
    Song.songs h' !! c = Some sc /\
    View.song_items h' c = View.song_items h' 0 /\
    Song.metadata s = [("title", [VStr "x"])] /\
    Song.metadata sc = [] /\
    Song.metadata sc <> Song.metadata s.
Proof.
  eexists _, _, _, _. vm_compute. repeat split; discriminate.
Qed.

Lemma clone_is_new_song_with_same_items_witness :
  View.song_items Sample.titled 0 = Some [[Sample.pair "Am" "la"]] /\
  exists c h',
    Song.clone 0 Sample.titled = Ok (c, h') /\
    c <> 0 /\
    View.song_items h' c = Some [[Sample.pair "Am" "la"]].
Proof.
  split; [reflexivity|].
  destruct (clone_is_new_song_with_same_items Sample.titled 0 _ eq_refl)
    as (c & h' & sc & R & _ & _ & D & _ & _ & _ & V & _).
  exists c, h'. auto.
Defined.


(** On a Song that has a capo tag already, [setCapo(3)] inserts nothing
    and [setCapo(null)] removes the tag that was there: one item less. *)
Lemma setCapo_round_trip_loses_item :
  exists c1 h1 c2 h2,
    Song.setCapo (Some (VNum 3)) 0 Sample.one_capo = Ok (c1, h1) /\
    Song.setCapo None c1 h1 = Ok (c2, h2) /\
    View.song_items Sample.one_capo 0 = Some [[Sample.capo "1"]] /\
    View.song_items h2 c2 = Some [] /\
    option_map (fun ll => length (concat ll)) (View.song_items h2 c2)
    <> option_map (fun ll => length (concat ll))
                  (View.song_items Sample.one_capo 0).
Proof.
  eexists _, _, _, _. vm_compute. repeat split; discriminate.
Qed.

Lemma setCapo_round_trip_witness :
  View.song_items Sample.titled 0 = Some [[Sample.pair "Am" "la"]] /\
  View.no_capo [[Sample.pair "Am" "la"]] = true /\
  exists c1 h1 c2 h2,
    Song.setCapo (Some (VNum 3)) 0 Sample.titled = Ok (c1, h1) /\
    Song.setCapo None c1 h1 = Ok (c2, h2) /\
    View.song_items h2 c2 = Some [[Sample.pair "Am" "la"]].
Proof.
  split; [reflexivity|]. split; [reflexivity|].
  destruct (setCapo_round_trip Sample.titled 0 _ eq_refl eq_refl)
    as (c1 & h1 & ll1 & c2 & h2 & sc2 & ll2 & R1 & _ & _ & R2 & _ & V2 & -> & _).
  exists c1, h1, c2, h2. auto.
Defined.

(** C2.  [setCapo(null)] on a Song with one Line that holds two capo
    tags: the result has one Line that still holds the second capo tag. *)
Theorem setCapo_null_keeps_second_capo :
  exists c h',
    Song.setCapo None 0 Sample.two_capos = Ok (c, h') /\
    View.song_items Sample.two_capos 0
    = Some [[Sample.capo "1"; Sample.capo "2"]] /\
    View.song_items h' c = Some [[Sample.capo "2"]].
Proof.
  eexists _, _. vm_compute. repeat split.
Qed.

Lemma sample_stamps : ParserView.stamps_current_line.
Proof.
  intros st this h s l line E Hc El. exists (Line.with_type line st).
  split; [|reflexivity].
  unfold UltimateGuitarParser.setCurrentProperties. simpl. unfold Sample.stamp.
  unfold Song.setCurrentLineType.
  erewrite run_bind by (apply getSong_run; exact E). rewrite Hc.
  erewrite run_bind by (apply getLine_run; exact El).
  unfold Song.putLine, View.touch. now rewrite (list_insert_id _ _ _ E).
Qed.



Lemma repetition_marker_becomes_lyrics_witness :
  (ParserView.stamps_current_line /\
   ParserView.ready Sample.fresh Sample.parser = true) /\
  exists p' h' l newLine,
    UltimateGuitarParser.parseLine "Am C G 2x" Sample.parser Sample.fresh
    = Ok (p', h') /\
    UltimateGuitarParser.songLine p' = Some l /\
    Song.lineobjs h' !! l = Some newLine /\
    Line.items newLine
    = [IPair {| ChordLyricsPair.chords := Some "Am C G   ";
                ChordLyricsPair.lyrics := Some "         2x" |}].
Proof.
  split; [split; [exact sample_stamps | reflexivity]|].
  destruct (repetition_marker_becomes_lyrics sample_stamps
              Sample.parser Sample.fresh eq_refl)
    as (p' & h' & l & newLine & R & Sl & El & I & _).
  exists p', h', l, newLine. auto.
Defined.

(** The lyrics of the pair end with the marker "2x", placed after the
    length of the chords: they are not blanks followed by "2". *)
Lemma repetition_lyrics_are_not_blanks_and_2 :
  exists p' h' l newLine chords lyrics,
    UltimateGuitarParser.parseLine "Am C G 2x" Sample.parser Sample.fresh
    = Ok (p', h') /\
    UltimateGuitarParser.songLine p' = Some l /\
    Song.lineobjs h' !! l = Some newLine /\
    Line.items newLine
    = [IPair {| ChordLyricsPair.chords := Some chords;
                ChordLyricsPair.lyrics := Some lyrics |}] /\
    lyrics = "         2x" /\
    ~ (exists n, lyrics = (JsString.repeat " " n ++ "2")%string).
Proof.
  eexists _, _, _, _, _, _.
  split; [vm_compute; reflexivity|]. split; [reflexivity|].
  split; [reflexivity|]. split; [reflexivity|]. split; [reflexivity|].
  intros [n Hn].
  pose proof (f_equal String.length Hn) as Hl.
  rewrite length_string_app, length_repeat_space in Hl. simpl in Hl.
  assert (n = 10) as -> by lia. vm_compute in Hn. discriminate.
Qed.

Lemma paragraphs_groups_lines_witness :
  (Song.songs Sample.four_lines !! 0
   = Some (Song.with_lines (Song.new []) [0; 1; 2; 3]) /\
   View.all_lines Sample.four_lines [0; 1; 2; 3]
   = Some (map (Line.with_items Line.new)
               [[Sample.pair "A" "x"]; []; [Sample.pair "B" "y"];
                [Sample.pair "C" "z"]])) /\
  exists ps,
    Song.paragraphs 0 Sample.four_lines = Ok (ps, Sample.four_lines) /\
    map Paragraph.lines ps = [[0]; [2; 3]].
Proof.
  split; [split; reflexivity|].
  destruct (paragraphs_groups_lines Sample.four_lines 0 _ _ eq_refl eq_refl)
    as (ps & R & G & _ & _ & Ex).
  exists ps. split; [exact R|].
  eapply Ex; reflexivity.
Defined.

Lemma songLine_check_never_fails_witness :
  Song.songs Sample.fresh !! 0 = Some (Song.with_lines (Song.new []) []) /\
  exists l h',
    UltimateGuitarParser.startNewLine Sample.parser Sample.fresh
    = Ok (UltimateGuitarParser.with_songLine Sample.parser (Some l), h') /\
    View.raises_songLine_missing
      (UltimateGuitarParser.writeTabLine "e|--1--2--3--|" Sample.parser Sample.fresh)
    = false.
Proof.
  split; [reflexivity|].
  destruct (songLine_check_never_fails "e|--1--2--3--|" Sample.parser Sample.fresh)
    as (_ & _ & W & A).
  destruct (A _ eq_refl) as (l & h' & s' & _ & _ & _ & R & _).
  exists l, h'. split; [exact R | exact W].
Defined.

(** *** More examples *)

#[local] Existing Instance Sample.paragraphMethods.
#[local] Existing Instance Sample.writer.

Lemma addItem_start_tag_needs_current_line_witness :
  (In (START_OF_CHORUS, END_OF_CHORUS, CHORUS) View.section_tags /\
   Tag.isMetaTag (Tag.new START_OF_CHORUS None) = false /\
   Tag.isMetaTag (Tag.new END_OF_CHORUS None) = false /\
   Song.songs Sample.fresh !! 0 = Some (Song.with_lines (Song.new []) []) /\
   Song.currentLine (Song.with_lines (Song.new []) []) = None) /\
  (exists msg,
      Song.addItem (ITag (Tag.new START_OF_CHORUS None)) 0 Sample.fresh
      = Err (TypeError msg)) /\
  exists h',
    Song.addItem (ITag (Tag.new END_OF_CHORUS None)) 0 Sample.fresh = Ok (tt, h') /\
    length (Song.lineobjs h') = 1.
Proof.
  split; [repeat split; simpl; auto|].
  destruct (addItem_start_tag_needs_current_line (H := Sample.tagMethods)
              Sample.fresh 0 _ START_OF_CHORUS END_OF_CHORUS CHORUS
              (Tag.new START_OF_CHORUS None) (Tag.new END_OF_CHORUS None)
              (or_introl eq_refl) eq_refl eq_refl eq_refl eq_refl eq_refl eq_refl)
    as [Thrown (h' & s' & line & R & _ & _ & _ & _ & L & _)].
  split; [exact Thrown|].
  exists h'. split; [exact R|]. now rewrite L.
Defined.

Lemma addTag_start_inside_section_warns_witness :
  (In (START_OF_CHORUS, END_OF_CHORUS, CHORUS) View.section_tags /\
   Tag.isMetaTag (Tag.new START_OF_CHORUS None) = false /\
   Song.songs Sample.verse_store !! 0
   = Some (Song.with_sectionType
             (Song.with_currentLine (Song.with_lines (Song.new []) [0; 1]) (Some 1))
             VERSE) /\
   Song.lineobjs Sample.verse_store !! 1 = Some (Line.with_items Line.new []) /\
   VERSE <> NONE) /\
  exists h' s',
    Song.addTag (inr (Tag.new START_OF_CHORUS None)) 0 Sample.verse_store
    = Ok (Tag.new START_OF_CHORUS None, h') /\
    Song.songs h' !! 0 = Some s' /\
    Song.sectionType s' = CHORUS /\
    map ParserWarning.message (Song.warnings s')
    = ["Unexpected tag {start_of_chorus, current section is: verse"].
Proof.
  split; [repeat split; simpl; auto; discriminate|].
  destruct (addTag_start_inside_section_warns (H := Sample.tagMethods)
              Sample.verse_store 0 1 _ (Line.with_items Line.new [])
              START_OF_CHORUS END_OF_CHORUS CHORUS (Tag.new START_OF_CHORUS None)
              (or_introl eq_refl) eq_refl eq_refl eq_refl eq_refl eq_refl
              ltac:(discriminate))
    as (s' & line' & R & St & Ws & _).
  eexists _, s'. split; [exact R|].
  split; [reflexivity|]. split; [exact St|]. now rewrite Ws.
Defined.


Lemma lines_take_type_of_open_section_witness :
  (In (START_OF_VERSE, END_OF_VERSE, VERSE) View.section_tags /\
   Tag.isMetaTag (Tag.new START_OF_VERSE None) = false /\
   Tag.isMetaTag (Tag.new END_OF_VERSE None) = false /\
   Song.songs Sample.on_line !! 0
   = Some (Song.with_currentLine (Song.with_lines (Song.new []) [0]) (Some 0)) /\
   Song.lineobjs Sample.on_line !! 0 = Some Line.new) /\
  exists h' a b c,
    Song.lineobjs h' !! 0 = Some a /\ Line.type a = VERSE /\
    Song.lineobjs h' !! 1 = Some b /\ Line.type b = VERSE /\
    Song.lineobjs h' !! 2 = Some c /\ Line.type c = NONE.
Proof.
  split; [repeat split; simpl; auto|].
  destruct (lines_take_type_of_open_section (H := Sample.tagMethods)
              Sample.on_line 0 0 _ Line.new
              START_OF_VERSE END_OF_VERSE VERSE
              (Tag.new START_OF_VERSE None) (Tag.new END_OF_VERSE None)
              [{| ChordLyricsPair.chords := Some "Am";
                  ChordLyricsPair.lyrics := Some "la" |}]
              (or_intror (or_intror (or_introl eq_refl)))
              eq_refl eq_refl eq_refl eq_refl eq_refl eq_refl eq_refl eq_refl)
    as (h' & s' & a & b & c & R & _ & _ & _ & _ & Ea & Ta & _ & Eb & Tb & _ & Ec & Tc & _).
  exists h', a, b, c. repeat split; assumption.
Defined.

Lemma key_directives_stamp_later_lines_witness :
  (Tag.isMetaTag (Tag.new NEW_KEY (Some (VStr "D"))) = false /\
   Song.songs Sample.on_line !! 0
   = Some (Song.with_currentLine (Song.with_lines (Song.new []) [0]) (Some 0)) /\
   Song.lineobjs Sample.on_line !! 0 = Some Line.new) /\
  exists h' old new,
    (Song.addTag (inr (Tag.new NEW_KEY (Some (VStr "D")))) 0;;
     Song.addLine None 0) Sample.on_line = Ok (1, h') /\
    Song.lineobjs h' !! 0 = Some old /\ Line.key old = None /\
    Song.lineobjs h' !! 1 = Some new /\ Line.key new = Some (VStr "D").
Proof.
  split; [repeat split|].
  destruct (key_directives_stamp_later_lines (H := Sample.tagMethods)
              Sample.on_line 0 0 _ Line.new (Tag.new NEW_KEY (Some (VStr "D")))
              eq_refl (or_introl eq_refl) eq_refl eq_refl eq_refl)
    as (h' & s' & old & new & R & _ & Eo & _ & Ko & _ & _ & En & Kn & _).
  destruct (Kn eq_refl) as (_ & K & _).
  exists h', old, new. repeat split; assumption.
Defined.

Lemma addLine_adopts_without_appending_witness :
  (Song.songs Sample.spare !! 0 = Some (Song.new []) /\
   Song.lineobjs Sample.spare !! 0 = Some Line.new) /\
  exists h' s' line',
    (Song.addLine (Some 0) 0;;
     Song.addItem (IPair {| ChordLyricsPair.chords := Some "Am";
                            ChordLyricsPair.lyrics := Some "la" |}) 0) Sample.spare
    = Ok (tt, h') /\
    Song.songs h' !! 0 = Some s' /\ Song.lines s' = [] /\
    Song.currentLine s' = Some 0 /\
    Song.lineobjs h' !! 0 = Some line' /\ length (Line.items line') = 1.
Proof.
  split; [repeat split|].
  destruct (addLine_adopts_without_appending (H := Sample.tagMethods)
              Sample.spare 0 0 _ Line.new
              {| ChordLyricsPair.chords := Some "Am";
                 ChordLyricsPair.lyrics := Some "la" |} eq_refl eq_refl)
    as (h' & s' & line' & R & E & L & C & _ & El & I & _).
  exists h', s', line'. rewrite I. repeat split; assumption.
Defined.

Lemma ensureLine_is_idempotent_witness :
  Song.songs Sample.fresh !! 0 = Some (Song.with_lines (Song.new []) []) /\
  exists h1,
    Song.ensureLine 0 Sample.fresh = Ok (tt, h1) /\
    Song.ensureLine 0 h1 = Ok (tt, h1) /\
    length (Song.lineobjs h1) = 1.
Proof.
  split; [reflexivity|].
  destruct (ensureLine_is_idempotent
              Sample.fresh 0 _ eq_refl)
    as (h1 & s1 & l & R1 & R2 & _ & _ & _ & _ & New).
  destruct (New eq_refl) as (_ & _ & L).
  exists h1. rewrite L. repeat split; assumption.
Defined.

Lemma mapLines_keeps_returned_lines_witness :
  View.song_lines Sample.song1 0
  = Some (map (Line.with_items Line.new)
              [[Sample.capo "1"; Sample.pair "Am" "la"]; [];
               [Sample.key_tag "C"; Sample.pair "G" "li"]]) /\
  exists c h',
    Song.mapLines Sample.drop_blank_lines 0 Sample.song1 = Ok (c, h') /\
    View.song_items h' c
    = Some [[Sample.capo "1"; Sample.pair "Am" "la"];
            [Sample.key_tag "C"; Sample.pair "G" "li"]].
Proof.
  split; [reflexivity|].
  destruct (mapLines_keeps_returned_lines (H := Sample.tagMethods)
              Sample.drop_blank_lines Sample.drop_blank_lines
              Sample.song1 0 _ eq_refl)
    as (c & h' & ll' & R & _ & _ & _ & _ & V & -> & _).
  exists c, h'. split; [exact R|]. rewrite V. vm_compute. reflexivity.
Defined.

Lemma removeItem_removes_first_match_per_line_witness :
  View.song_items Sample.two_capos 0
  = Some [[Sample.capo "1"; Sample.capo "2"]] /\
  exists c h',
    Song.removeItem Song.isCapo 0 Sample.two_capos = Ok (c, h') /\
    View.song_items h' c = Some [[Sample.capo "2"]].
Proof.
  split; [reflexivity|].
  destruct (removeItem_removes_first_match_per_line (H := Sample.tagMethods)
              Song.isCapo Sample.two_capos 0 _ eq_refl)
    as (c & h' & ll' & R & _ & _ & _ & V & -> & _).
  exists c, h'. split; [exact R|]. rewrite V. vm_compute. reflexivity.
Defined.

Lemma setCapo_updates_every_capo_tag_witness :
  (View.song_items Sample.two_capos 0
   = Some [[Sample.capo "1"; Sample.capo "2"]] /\
   View.no_capo [[Sample.capo "1"; Sample.capo "2"]] = false) /\
  exists c h',
    Song.setCapo (Some (VNum 3)) 0 Sample.two_capos = Ok (c, h') /\
    View.song_items h' c
    = Some [[ITag (Tag.new CAPO (Some (VNum 3)));
             ITag (Tag.new CAPO (Some (VNum 3)))]].
Proof.
  split; [split; reflexivity|].
  destruct (setCapo_updates_every_capo_tag (H := Sample.tagMethods)
              (VNum 3) Sample.two_capos 0 _ eq_refl eq_refl)
    as (c & h' & sc & ll' & R & _ & _ & _ & _ & V & -> & _).
  exists c, h'. split; [exact R|]. rewrite V. vm_compute. reflexivity.
Defined.

Lemma insertDirective_position_witness :
  View.song_lines Sample.headed 0
  = Some (map (Line.with_items Line.new)
              [[Sample.key_tag "C"]; [Sample.capo "1"]; [Sample.pair "Am" "la"];
               []; [Sample.pair "G" "li"]]) /\
  exists c h',
    Song.insertDirective "x" None None 0 Sample.headed = Ok (c, h') /\
    View.song_items h' c
    = Some [[Sample.key_tag "C"]; [Sample.capo "1"]; [ITag (Tag.new "x" None)];
            [Sample.pair "Am" "la"]; []; [Sample.pair "G" "li"]].
Proof.
  split; [reflexivity|].
  destruct (insertDirective_position (H := Sample.tagMethods)
              "x" None None Sample.headed 0 _ eq_refl)
    as (c & h' & ll' & k & R & _ & _ & _ & V & -> & -> & _).
  exists c, h'. split; [exact R|]. rewrite V. vm_compute. reflexivity.
Defined.

Lemma mapItems_twice_is_mapItems_composed_witness :
  View.song_items Sample.song1 0
  = Some [[Sample.capo "1"; Sample.pair "Am" "la"]; [];
          [Sample.key_tag "C"; Sample.pair "G" "li"]] /\
  exists c1 h1 c2 h2,
    Song.mapItems (View.stateless Sample.only_pairs) tt 0 Sample.song1
    = Ok ((c1, tt), h1) /\
    Song.mapItems (View.stateless Sample.keep) tt c1 h1 = Ok ((c2, tt), h2) /\
    View.song_items h2 c2
    = Some [[Sample.pair "Am" "la"]; []; [Sample.pair "G" "li"]].
Proof.
  split; [reflexivity|].
  destruct (mapItems_twice_is_mapItems_composed (H := Sample.tagMethods)
              Sample.only_pairs Sample.keep Sample.song1 0 _ eq_refl)
    as (c1 & h1 & c2 & h2 & s2 & c3 & h3 & s3 & ll' & R1 & R2 & _ & -> & V & _).
  exists c1, h1, c2, h2. split; [exact R1|]. split; [exact R2|].
  rewrite V. vm_compute. reflexivity.
Defined.

Lemma setCapo_null_removes_single_capos_witness :
  (View.song_lines Sample.song1 0
   = Some (map (Line.with_items Line.new)
               [[Sample.capo "1"; Sample.pair "Am" "la"]; [];
                [Sample.key_tag "C"; Sample.pair "G" "li"]]) /\
   forallb (fun line => length (List.filter Song.isCapo (Line.items line)) <=? 1)
           (map (Line.with_items Line.new)
                [[Sample.capo "1"; Sample.pair "Am" "la"]; [];
                 [Sample.key_tag "C"; Sample.pair "G" "li"]]) = true) /\
  exists c h' ll',
    Song.setCapo None 0 Sample.song1 = Ok (c, h') /\
    View.song_items h' c = Some ll' /\ View.no_capo ll' = true.
Proof.
  split; [split; reflexivity|].
  destruct (setCapo_null_removes_single_capos (H := Sample.tagMethods)
              Sample.song1 0 _ eq_refl eq_refl)
    as (c & h' & sc & ll' & R & _ & _ & V & N & _).
  exists c, h', ll'. repeat split; assumption.
Defined.


Lemma bodyLines_skips_leading_lines_witness :
  (Song.songs (Song.store (Sample.unread Sample.headed)) !! 0
   = Some (Song.with_lines (Song.new []) [0; 1; 2; 3; 4]) /\
   View.all_lines (Song.store (Sample.unread Sample.headed)) [0; 1; 2; 3; 4]
   = Some (map (Line.with_items Line.new)
               [[Sample.key_tag "C"]; [Sample.capo "1"]; [Sample.pair "Am" "la"];
                []; [Sample.pair "G" "li"]]) /\
   Song._bodyLines
     (Song.expandoOf 0 (Song.expandos (Sample.unread Sample.headed))) = None) /\
  exists w',
    Song.bodyLines 0 (Sample.unread Sample.headed) = Ok (Some [2; 3; 4], w') /\
    Song.store w' = Sample.headed.
Proof.
  split; [repeat split|].
  destruct (bodyLines_skips_leading_lines (H0 := Sample.lineMethods)
              (Sample.unread Sample.headed) 0 _ _ eq_refl eq_refl eq_refl)
    as (skipped & body & w' & R & St & _).
  exists w'. split; [|exact St].
  rewrite R. vm_compute in R. injection R as <- _. reflexivity.
Defined.

Lemma bodyParagraphs_skips_leading_paragraphs_witness :
  (Song.songs (Song.store (Sample.unread Sample.headed)) !! 0
   = Some (Song.with_lines (Song.new []) [0; 1; 2; 3; 4]) /\
   View.all_lines (Song.store (Sample.unread Sample.headed)) [0; 1; 2; 3; 4]
   = Some (map (Line.with_items Line.new)
               [[Sample.key_tag "C"]; [Sample.capo "1"]; [Sample.pair "Am" "la"];
                []; [Sample.pair "G" "li"]]) /\
   Song._bodyParagraphs
     (Song.expandoOf 0 (Song.expandos (Sample.unread Sample.headed))) = None) /\
  exists body w',
    Song.bodyParagraphs 0 (Sample.unread Sample.headed) = Ok (Some body, w') /\
    map Paragraph.lines body = [[2]; [4]] /\
    Song.store w' = Sample.headed.
Proof.
  split; [repeat split|].
  destruct (bodyParagraphs_skips_leading_paragraphs
              (H0 := Sample.lineMethods) (H1 := Sample.paragraphMethods)
              (Sample.unread Sample.headed) 0 _ _ eq_refl eq_refl eq_refl)
    as (ps & skipped & body & w' & _ & R & St & _).
  exists body, w'. split; [exact R|]. split; [|exact St].
  vm_compute in R. injection R as <- _. reflexivity.
Defined.

Lemma body_is_computed_once_witness :
  exists w1 second,
    (a ← Song.bodyLines 0;
     Song.lift (Song.addItem (Sample.pair "Am" "la") 0);;
     b ← Song.bodyLines 0;
     mret (a, b)) (Sample.unread Sample.fresh)
    = Ok ((Some [], second), w1) /\
    View.song_items (Song.store w1) 0 = Some [[Sample.pair "Am" "la"]] /\
    second = Some [].
Proof.
  assert (exists w1 second,
             (a ← Song.bodyLines 0;
              Song.lift (Song.addItem (Sample.pair "Am" "la") 0);;
              b ← Song.bodyLines 0;
              mret (a, b)) (Sample.unread Sample.fresh)
             = Ok ((Some [], second), w1) /\
             View.song_items (Song.store w1) 0 = Some [[Sample.pair "Am" "la"]])
    as (w1 & second & R & V).
  { eexists _, _. split; vm_compute; reflexivity. }
  exists w1, second. split; [exact R|]. split; [exact V|].
  destruct (body_is_computed_once
              (H0 := Sample.lineMethods) (H1 := Sample.paragraphMethods)
              (Song.addItem (Sample.pair "Am" "la") 0)
              (Song.addItem (Sample.pair "Am" "la") 0)
              0 (Sample.unread Sample.fresh)) as [L _].
  exact (proj1 (L w1 (Some []) second R)).
Defined.

Lemma chords_needs_current_line_lyrics_creates_it_witness :
  (Song.songs Sample.fresh !! 0 = Some (Song.with_lines (Song.new []) []) /\
   Song.currentLine (Song.with_lines (Song.new []) []) = None) /\
  (exists msg, Song.chords "A" 0 Sample.fresh = Err (TypeError msg)) /\
  exists h', Song.lyrics "a" 0 Sample.fresh = Ok (tt, h') /\
             length (Song.lineobjs h') = 1.
Proof.
  split; [split; reflexivity|].
  destruct (chords_needs_current_line_lyrics_creates_it (H1 := Sample.writer)
              "a" Sample.fresh 0 _ eq_refl) as [None_ _].
  destruct (None_ eq_refl) as [_ (h' & s' & R & _ & _ & _ & L)].
  destruct (chords_needs_current_line_lyrics_creates_it (H1 := Sample.writer)
              "A" Sample.fresh 0 _ eq_refl) as [NoneA _].
  destruct (NoneA eq_refl) as [Thrown _].
  split; [exact Thrown|].
  exists h'. split; [exact R|]. now rewrite L.
Defined.

Lemma sample_plain : ParserView.section_tags_plain.
Proof.
  intros name value I. simpl in I.
  destruct I as [<-|[<-|[<-|[<-|[<-|[<-|[]]]]]]]; reflexivity.
Qed.

Lemma verse_label_runs_to_last_bracket_witness :
  (ParserView.stamps_current_line /\
   ParserView.ready Sample.fresh Sample.parser = true /\
   map Regex.lower (JsString.chars "VERSE") = JsString.chars "verse" /\
   forallb Regex.dot (JsString.chars " 1] [x") = true /\
   forallb (fun a => negb (Ascii.eqb a "]")) (JsString.chars " y") = true) /\
  exists p' h' l newLine,
    UltimateGuitarParser.parseLine "[VERSE 1] [x] y" Sample.parser Sample.fresh
    = Ok (p', h') /\
    UltimateGuitarParser.songLine p' = Some l /\
    Song.lineobjs h' !! l = Some newLine /\
    Line.items newLine
    = [ITag (Tag.new START_OF_VERSE (Some (VStr "VERSE 1] [x")))].
Proof.
  split; [split; [exact sample_stamps | repeat split]|].
  destruct (verse_label_runs_to_last_bracket sample_stamps "VERSE" " 1] [x" " y"
              Sample.parser Sample.fresh eq_refl eq_refl eq_refl eq_refl)
    as (p' & h' & s' & l & newLine & R & _ & _ & Sl & _ & El & I).
  exists p', h', l, newLine. repeat split; assumption.
Defined.

Lemma chorus_label_opens_chorus_witness :
  (ParserView.stamps_current_line /\
   ParserView.ready Sample.fresh Sample.parser = true /\
   map Regex.lower (JsString.chars "CHORUS") = JsString.chars "chorus") /\
  exists p' h' l newLine,
    UltimateGuitarParser.parseLine "[CHORUS] x2" Sample.parser Sample.fresh
    = Ok (p', h') /\
    UltimateGuitarParser.songLine p' = Some l /\
    Song.lineobjs h' !! l = Some newLine /\
    Line.items newLine = [ITag (Tag.new START_OF_CHORUS (Some (VStr "CHORUS")))].
Proof.
  split; [split; [exact sample_stamps | repeat split]|].
  destruct (chorus_label_opens_chorus sample_stamps "CHORUS" " x2"
              Sample.parser Sample.fresh eq_refl eq_refl)
    as (p' & h' & s' & l & newLine & R & _ & _ & Sl & _ & El & I).
  exists p', h', l, newLine. repeat split; assumption.
Defined.

Lemma bracketed_label_becomes_comment_witness :
  (ParserView.stamps_current_line /\
   ParserView.ready Sample.fresh Sample.parser = true /\
   "Intro" <> "" /\
   forallb (fun a => negb (Ascii.eqb a "]")) (JsString.chars "Intro") = true /\
   Regex.test UltimateGuitarParser.VERSE_LINE_REGEX "[Intro] slowly" = false /\
   Regex.test UltimateGuitarParser.CHORUS_LINE_REGEX "[Intro] slowly" = false) /\
  exists p' h' l newLine,
    UltimateGuitarParser.parseLine "[Intro] slowly" Sample.parser Sample.fresh
    = Ok (p', h') /\
    UltimateGuitarParser.songLine p' = Some l /\
    Song.lineobjs h' !! l = Some newLine /\
    Line.items newLine = [ITag (Tag.new COMMENT (Some (VStr "Intro")))].
Proof.
  split; [split; [exact sample_stamps | repeat split; discriminate]|].
  destruct (bracketed_label_becomes_comment sample_stamps "Intro" " slowly"
              Sample.parser Sample.fresh eq_refl ltac:(discriminate)
              eq_refl eq_refl eq_refl)
    as (p' & h' & s' & l & newLine & R & _ & _ & Sl & _ & El & I).
  exists p', h', l, newLine. repeat split; assumption.
Defined.

Lemma repetition_line_keeps_marker_as_lyrics_witness :
  (ParserView.stamps_current_line /\
   ParserView.ready Sample.fresh Sample.parser = true /\
   Regex.test UltimateGuitarParser.VERSE_LINE_REGEX "x2: Am G" = false /\
   Regex.test UltimateGuitarParser.CHORUS_LINE_REGEX "x2: Am G" = false /\
   Regex.test UltimateGuitarParser.OTHER_METADATA_LINE_REGEX "x2: Am G" = false /\
   (8 <? String.length "x2: Am G") && (5 <? View.dashes "x2: Am G") = false /\
   Regex.test UltimateGuitarParser.CHORD_LINE_REGEX
     (Regex.delete_all UltimateGuitarParser.REPETITION_REGEX "x2: Am G") = true /\
   Regex.match_all UltimateGuitarParser.REPETITION_REGEX "x2: Am G"
   = Some ["x2:"]) /\
  exists p' h' l newLine,
    UltimateGuitarParser.parseLine "x2: Am G" Sample.parser Sample.fresh
    = Ok (p', h') /\
    UltimateGuitarParser.songLine p' = Some l /\
    Song.lineobjs h' !! l = Some newLine /\
    Line.items newLine
    = [IPair {| ChordLyricsPair.chords := Some "    Am G";
                ChordLyricsPair.lyrics := Some "        x2" |}].
Proof.
  split; [split; [exact sample_stamps | repeat split]|].
  destruct (repetition_line_keeps_marker_as_lyrics sample_stamps "x2: Am G" "x2:" []
              Sample.parser Sample.fresh eq_refl eq_refl eq_refl eq_refl
              eq_refl eq_refl eq_refl)
    as (p' & h' & l & newLine & chords & R & Sl & El & -> & _ & I).
  exists p', h', l, newLine. repeat split; assumption.
Defined.

Lemma endOfSong_closes_open_section_witness :
  (ParserView.stamps_current_line /\
   UltimateGuitarParser.super_endOfSong Sample.in_verse Sample.verse_store
   = Some (Sample.in_verse, Sample.verse_store) /\
   Song.songs Sample.verse_store !! 0
   = Some (Song.with_sectionType
             (Song.with_currentLine (Song.with_lines (Song.new []) [0; 1]) (Some 1))
             VERSE) /\
   UltimateGuitarParser.currentSectionType Sample.in_verse = Some VERSE /\
   UltimateGuitarParser.endSectionTags VERSE = Some END_OF_VERSE) /\
  exists p' h' last,
    UltimateGuitarParser.endOfSong Sample.in_verse Sample.verse_store
    = Ok (p', h') /\
    UltimateGuitarParser.currentSectionType p' = None /\
    Song.lineobjs h' !! 2 = Some last /\
    Line.items last = [ITag (Tag.new END_OF_VERSE None)].
Proof.
  split; [split; [exact sample_stamps | repeat split]|].
  destruct (endOfSong_closes_open_section sample_stamps
              Sample.in_verse Sample.in_verse Sample.verse_store Sample.verse_store
              _ eq_refl eq_refl) as [Open _].
  destruct (Open VERSE END_OF_VERSE eq_refl eq_refl)
    as (p' & h' & s' & l & last & R & Cs & _ & _ & -> & _ & _ & _ & El & _ & I).
  exists p', h', last. repeat split; assumption.
Defined.

Lemma startSection_closes_open_section_first_witness :
  (ParserView.stamps_current_line /\
   Song.songs Sample.verse_store !! 0
   = Some (Song.with_sectionType
             (Song.with_currentLine (Song.with_lines (Song.new []) [0; 1]) (Some 1))
             VERSE) /\
   Song.lineobjs Sample.verse_store !! 1 = Some (Line.with_items Line.new []) /\
   UltimateGuitarParser.endSectionTags VERSE = Some END_OF_VERSE /\
   UltimateGuitarParser.startSectionTags CHORUS = Some START_OF_CHORUS) /\
  exists p' h' closed opened,
    UltimateGuitarParser.startSection CHORUS "Chorus" Sample.in_verse
      Sample.verse_store = Ok (p', h') /\
    Song.lineobjs h' !! 1 = Some closed /\
    Line.items closed = [ITag (Tag.new END_OF_VERSE None)] /\
    Song.lineobjs h' !! 2 = Some opened /\
    Line.items opened = [ITag (Tag.new START_OF_CHORUS (Some (VStr "Chorus")))].
Proof.
  split; [split; [exact sample_stamps | repeat split]|].
  destruct (startSection_closes_open_section_first sample_stamps
              VERSE END_OF_VERSE CHORUS START_OF_CHORUS "Chorus"
              Sample.in_verse Sample.verse_store _ 1 (Line.with_items Line.new [])
              eq_refl eq_refl eq_refl eq_refl eq_refl eq_refl eq_refl)
    as (p' & h' & s' & closed & opened & R & _ & _ & _ & _ & _ & _ & Ec & Ic & Eo & Io & _).
  exists p', h', closed, opened. repeat split; assumption.
Defined.

Lemma parser_sections_never_warn_witness :
  (ParserView.stamps_current_line /\
   ParserView.section_tags_plain /\
   ParserView.tracks [] Sample.fresh Sample.parser /\
   forallb ParserView.own_branch
           ["[Verse 1]"; "e|--1--2--3--|"; "[Chorus]"; "Am C G 2x"; "[Outro]"]
   = true) /\
  exists p' h' s',
    foldM (fun p line => UltimateGuitarParser.parseLine line p) Sample.parser
          ["[Verse 1]"; "e|--1--2--3--|"; "[Chorus]"; "Am C G 2x"; "[Outro]"]
          Sample.fresh
    = Ok (p', h') /\
    Song.songs h' !! 0 = Some s' /\
    Song.warnings s' = [].
Proof.
  assert (ParserView.tracks [] Sample.fresh Sample.parser) as Tr.
  { split; [reflexivity|]. eexists. repeat split. }
  split; [split; [exact sample_stamps|]; split; [exact sample_plain|];
          split; [exact Tr | vm_compute; reflexivity]|].
  destruct (parser_sections_never_warn sample_stamps sample_plain
              ["[Verse 1]"; "e|--1--2--3--|"; "[Chorus]"; "Am C G 2x"; "[Outro]"]
              Sample.parser Sample.fresh [] Tr ltac:(vm_compute; reflexivity))
    as (p' & h' & s' & R & _ & Sg & E & Ws & _).
  exists p', h', s'. split; [exact R|]. split; [|exact Ws].
  now rewrite Sg in E.
Defined.

Lemma isSectionEnd_compares_with_second_to_last_line_witness :
  (ParserView.ready Sample.verse_store Sample.in_verse = true /\
   Song.songs Sample.verse_store !! 0
   = Some (Song.with_sectionType
             (Song.with_currentLine (Song.with_lines (Song.new []) [0; 1]) (Some 1))
             VERSE)) /\
  UltimateGuitarParser.isSectionEnd Sample.in_verse Sample.verse_store
  = Ok (true, Sample.verse_store).
Proof.
  split; [split; reflexivity|].
  destruct (isSectionEnd_compares_with_second_to_last_line
              (H0 := Sample.lineMethods)
              Sample.verse_store Sample.in_verse _ eq_refl eq_refl)
    as (b & R & _ & Iff).
  rewrite R. f_equal. f_equal. apply Iff.
  exists 1, (Line.with_items Line.new []), 0,
         (Line.with_items Line.new [Sample.pair "Am" "la"]).
  repeat split. simpl. lia.
Defined.

End Examples.
